(** * DHCP reservation manager: a shallow embedding of
      [scripts/dhcp_reservation_manager.py] and the properties of its
      configuration-text editor.

    Python [str] values are modelled as lists of 8-bit characters (code
    points 0..255); Python [int] values as [Z].  The two regular expressions
    of the script are written as abstract syntax and run by a backtracking
    matcher with the priorities of Python's [re] module (greedy and lazy
    repetition, ordered alternation, leftmost match). *)

From Stdlib Require Import Ascii String List ZArith NArith Lia Bool Arith.
Import ListNotations.

Local Open Scope char_scope.
Local Open Scope list_scope.

(** ** Text *)

Abbreviation str := (list ascii).

(** A string literal, as a list of characters. *)
Notation "'txt' s" := (list_ascii_of_string s%string) (at level 1, s at level 0).

Definition nl : ascii := "010".

Definition code (c : ascii) : N := N_of_ascii c.

Definition in_range (lo hi : N) (c : ascii) : bool :=
  (N.leb lo (code c) && N.leb (code c) hi)%bool.

Module Str.

Fixpoint eqb (s t : str) : bool :=
  match s, t with
  | [], [] => true
  | a :: s', b :: t' => (Ascii.eqb a b && eqb s' t')%bool
  | _, _ => false
  end.

(** [s.startswith(p)] *)
Fixpoint startswith (p s : str) : bool :=
  match p, s with
  | [], _ => true
  | a :: p', b :: s' => (Ascii.eqb a b && startswith p' s')%bool
  | _ :: _, [] => false
  end.

(** [s.endswith(p)] *)
Definition endswith (s p : str) : bool :=
  startswith (rev p) (rev s).

(** [bool(s)]: a string is truthy when it is not empty. *)
Definition truthy (s : str) : bool :=
  match s with [] => false | _ :: _ => true end.

(** [s.split(sep)] for a one-character separator: never returns []. *)
Fixpoint split (sep : ascii) (s : str) : list str :=
  match s with
  | [] => [[]]
  | a :: s' =>
      if Ascii.eqb a sep then [] :: split sep s'
      else match split sep s' with
           | [] => [[a]]
           | w :: ws => (a :: w) :: ws
           end
  end.

(** [s.replace(a, b)] for one-character [a] and [b]. *)
Definition replace (a b : ascii) (s : str) : str :=
  map (fun c => if Ascii.eqb c a then b else c) s.

(** Python's [str.isspace] on one character, for code points below 256:
    TAB..CR, FS..US, SPACE, NEL and NBSP. *)
Definition is_space (c : ascii) : bool :=
  (in_range 9 13 c || in_range 28 31 c || N.eqb (code c) 32
   || N.eqb (code c) 133 || N.eqb (code c) 160)%bool.

Fixpoint lstrip (s : str) : str :=
  match s with
  | a :: s' => if is_space a then lstrip s' else s
  | [] => []
  end.

(** [s.strip()] *)
Definition strip (s : str) : str :=
  rev (lstrip (rev (lstrip s))).

(** [str.lower] on one character, for code points below 256: A..Z and the
    Latin-1 capitals (all of 192..222 but the multiplication sign) move up
    by 32. *)
Definition lower_char (c : ascii) : ascii :=
  if (in_range 65 90 c || (in_range 192 222 c && negb (N.eqb (code c) 215)))%bool
  then ascii_of_N (code c + 32) else c.

(** [s.lower()] *)
Definition lower (s : str) : str := map lower_char s.

(** [len(s)] *)
Definition len (s : str) : Z := Z.of_nat (length s).

(** Python slice bounds: a negative index counts from the end, and the
    result is clamped to [0, len]. *)
Definition clamp (s : str) (i : Z) : nat :=
  let n := len s in
  let j := if (i <? 0)%Z then (i + n)%Z else i in
  Z.to_nat (Z.max 0 (Z.min n j)).

(** [s[:i]] *)
Definition slice_to (s : str) (i : Z) : str := firstn (clamp s i) s.

(** [s[i:]] *)
Definition slice_from (s : str) (i : Z) : str := skipn (clamp s i) s.

(** [s[i:j]] *)
Definition slice (s : str) (i j : Z) : str :=
  firstn (clamp s j - clamp s i) (skipn (clamp s i) s).

(** [s[i]] for an index within bounds ([None] stands for IndexError). *)
Definition index (s : str) (i : Z) : option ascii :=
  let n := len s in
  let j := if (i <? 0)%Z then (i + n)%Z else i in
  if ((0 <=? j) && (j <? n))%Z%bool then nth_error s (Z.to_nat j) else None.

End Str.

(** ** Regular expressions

    The fragment of Python's [re] syntax that the script uses: character
    classes, concatenation, ordered alternation, greedy and lazy repetition
    of a one-character class, capture groups and the MULTILINE [^]. *)

Inductive regex : Type :=
| Eps
| Chr (p : ascii -> bool)
| Seq (r1 r2 : regex)
| Alt (r1 r2 : regex)
| Star (greedy : bool) (p : ascii -> bool)
| Group (n : nat) (r : regex)
| Bol.

(** A cursor into the subject: whether it stands at the start of a line
    (start of the text, or just after a newline) and the text still ahead. *)
Definition cursor := (bool * str)%type.

(** A captured group: the text ahead where the group began and where it
    ended.  Offsets are recovered from the lengths. *)
Definition span := (str * str)%type.
Definition caps := list (nat * span).

Definition step_over (a : ascii) (rest : str) : cursor := (Ascii.eqb a nl, rest).

Section Matcher.
Variable R : Type.

(** [p*]: as many characters as possible first, then fewer. *)
Fixpoint star_greedy (p : ascii -> bool) (bol : bool) (s : str)
         (k : cursor -> option R) : option R :=
  match s with
  | a :: s' =>
      if p a then
        match star_greedy p (Ascii.eqb a nl) s' k with
        | Some x => Some x
        | None => k (bol, s)
        end
      else k (bol, s)
  | [] => k (bol, s)
  end.

(** [p*?]: as few characters as possible first, then more. *)
Fixpoint star_lazy (p : ascii -> bool) (bol : bool) (s : str)
         (k : cursor -> option R) : option R :=
  match k (bol, s) with
  | Some x => Some x
  | None =>
      match s with
      | a :: s' => if p a then star_lazy p (Ascii.eqb a nl) s' k else None
      | [] => None
      end
  end.

(** The backtracking matcher, in continuation-passing style: [k] is the
    rest of the pattern; the first success in priority order wins. *)
Fixpoint rmatch (r : regex) (c : cursor) (g : caps)
         (k : cursor -> caps -> option R) : option R :=
  match r with
  | Eps => k c g
  | Chr p =>
      match snd c with
      | a :: s' => if p a then k (step_over a s') g else None
      | [] => None
      end
  | Seq r1 r2 => rmatch r1 c g (fun c' g' => rmatch r2 c' g' k)
  | Alt r1 r2 =>
      match rmatch r1 c g k with
      | Some x => Some x
      | None => rmatch r2 c g k
      end
  | Star true p => star_greedy p (fst c) (snd c) (fun c' => k c' g)
  | Star false p => star_lazy p (fst c) (snd c) (fun c' => k c' g)
  | Group n r1 => rmatch r1 c g (fun c' g' => k c' ((n, (snd c, snd c')) :: g'))
  | Bol => if fst c then k c g else None
  end.
End Matcher.

Arguments star_greedy {R} p bol s k.
Arguments star_lazy {R} p bol s k.
Arguments rmatch {R} r c g k.

(** A match: the text ahead at its start, the text ahead at its end, and
    the groups. *)
Record rmatch_result : Type := MkMatch {
  m_from : str;
  m_to : str;
  m_groups : caps
}.

Definition match_here (r : regex) (c : cursor) : option rmatch_result :=
  rmatch r c [] (fun c' g => Some (MkMatch (snd c) (snd c') g)).

(** [pattern.search(s)]: the match at the leftmost position that has one. *)
Fixpoint search_from (r : regex) (bol : bool) (s : str) : option rmatch_result :=
  match match_here r (bol, s) with
  | Some x => Some x
  | None =>
      match s with
      | a :: s' => search_from r (Ascii.eqb a nl) s'
      | [] => None
      end
  end.

Definition search (r : regex) (s : str) : option rmatch_result :=
  search_from r true s.

(** [pattern.finditer(s)]: the successive non-overlapping matches, each
    scan resuming where the previous match ended ([skip] counts the
    characters still covered by the previous match). *)
Fixpoint finditer_from (r : regex) (bol : bool) (s : str) (skip : nat)
  : list rmatch_result :=
  match skip with
  | S n =>
      match s with
      | a :: s' => finditer_from r (Ascii.eqb a nl) s' n
      | [] => []
      end
  | O =>
      match match_here r (bol, s) with
      | Some x =>
          x :: match s with
               | a :: s' =>
                   finditer_from r (Ascii.eqb a nl) s'
                                 (length s - length (m_to x) - 1)
               | [] => []
               end
      | None =>
          match s with
          | a :: s' => finditer_from r (Ascii.eqb a nl) s' 0
          | [] => []
          end
      end
  end.

Definition finditer (r : regex) (s : str) : list rmatch_result :=
  finditer_from r true s 0.

(** [pattern.fullmatch(s)] as a truth value. *)
Definition fullmatch (r : regex) (s : str) : bool :=
  match rmatch r (true, s) []
               (fun c' _ => match snd c' with [] => Some tt | _ :: _ => None end) with
  | Some _ => true
  | None => false
  end.

(** [match.group(n)]: the text of group [n] (the empty text if unset). *)
Definition span_text (sp : span) : str :=
  firstn (length (fst sp) - length (snd sp)) (fst sp).

Fixpoint lookup_group (n : nat) (g : caps) : option span :=
  match g with
  | [] => None
  | (i, sp) :: g' => if Nat.eqb i n then Some sp else lookup_group n g'
  end.

Definition group (x : rmatch_result) (n : nat) : str :=
  match lookup_group n (m_groups x) with
  | Some sp => span_text sp
  | None => []
  end.

(** [match.start(n)] and [match.end(0)] in a subject of length [total]. *)
Definition start_of (total : nat) (x : rmatch_result) (n : nat) : Z :=
  match lookup_group n (m_groups x) with
  | Some sp => Z.of_nat (total - length (fst sp))
  | None => (-1)%Z
  end.

Definition end_of (total : nat) (x : rmatch_result) : Z :=
  Z.of_nat (total - length (m_to x)).

(** *** Pattern syntax *)

(** A literal, character for character (what [re.escape] yields). *)
Fixpoint lit (s : str) : regex :=
  match s with
  | [] => Eps
  | a :: s' => Seq (Chr (Ascii.eqb a)) (lit s')
  end.

(** A literal under IGNORECASE. *)
Fixpoint lit_i (s : str) : regex :=
  match s with
  | [] => Eps
  | a :: s' =>
      Seq (Chr (fun c => Ascii.eqb (Str.lower_char c) (Str.lower_char a))) (lit_i s')
  end.

(** [p+] *)
Definition plus (p : ascii -> bool) : regex := Seq (Chr p) (Star true p).

(** [r{n}] *)
Fixpoint times (n : nat) (r : regex) : regex :=
  match n with
  | O => Eps
  | S n' => Seq r (times n' r)
  end.

Fixpoint seqs (rs : list regex) : regex :=
  match rs with
  | [] => Eps
  | [r] => r
  | r :: rs' => Seq r (seqs rs')
  end.

(** Character classes. *)
Definition cls_space : ascii -> bool := Str.is_space.                 (* \s *)
Definition cls_nonspace (c : ascii) : bool := negb (Str.is_space c).  (* \S *)
(* \d: among the code points below 256, which is all a [str] holds here, the
   decimal digits are 0..9. *)
Definition cls_digit : ascii -> bool := in_range 48 57.
Definition cls_any (c : ascii) : bool := true.                        (* [\s\S] *)
Definition cls_not_rbrace (c : ascii) : bool := negb (Ascii.eqb c "}"). (* [^\}] *)
Definition cls_hex (c : ascii) : bool :=                              (* [0-9a-f] *)
  (in_range 48 57 c || in_range 97 102 c)%bool.
Definition cls_hex_colon_i (c : ascii) : bool :=          (* [0-9a-f:], IGNORECASE *)
  (cls_hex (Str.lower_char c) || Ascii.eqb c ":")%bool.
Definition cls_digit_dot (c : ascii) : bool :=                        (* [\d.] *)
  (cls_digit c || Ascii.eqb c ".")%bool.

(** ** Record validators *)

(** The white space that [int] skips around a number: TAB..CR and SPACE,
    and, among the code points above 127, NEL and NBSP. *)
Definition is_int_space (c : ascii) : bool :=
  (in_range 9 13 c || N.eqb (code c) 32 || N.eqb (code c) 133 || N.eqb (code c) 160)%bool.

Fixpoint lstrip_int (s : str) : str :=
  match s with
  | a :: s' => if is_int_space a then lstrip_int s' else s
  | [] => []
  end.

Definition digit_value (c : ascii) : Z := (Z.of_N (code c) - 48)%Z.

(** Decimal digits, with single underscores allowed between digits.  The
    result is the value and the number of digits read. *)
Fixpoint int_digits (s : str) (acc : Z) (after_digit : bool) (count : nat)
  : option (Z * nat) :=
  match s with
  | [] => if after_digit then Some (acc, count) else None
  | c :: s' =>
      if cls_digit c then int_digits s' (10 * acc + digit_value c)%Z true (S count)
      else if Ascii.eqb c "_" then
             if after_digit then int_digits s' acc false count else None
           else None
  end.

(** The default of [sys.get_int_max_str_digits()]. *)
Definition int_max_str_digits : nat := 4300.

(** [int(s)] for a string [s]; [None] stands for ValueError. *)
Definition py_int (s : str) : option Z :=
  let body := rev (lstrip_int (rev (lstrip_int s))) in
  let signed :=
    match body with
    | "+" :: ds => (false, ds)
    | "-" :: ds => (true, ds)
    | _ => (false, body)
    end in
  match int_digits (snd signed) 0%Z false 0 with
  | Some (n, count) =>
      if Nat.leb count int_max_str_digits
      then Some (if fst signed then (- n)%Z else n)
      else None
  | None => None
  end.

(** [all(0 <= int(p) <= 255 for p in parts)]; [None] when an [int] raises
    before a component out of range is met. *)
Fixpoint all_octets (parts : list str) : option bool :=
  match parts with
  | [] => Some true
  | p :: ps =>
      match py_int p with
      | None => None
      | Some n => if ((0 <=? n) && (n <=? 255))%Z%bool then all_octets ps else Some false
      end
  end.

Definition validate_ip_address (ip : str) : bool :=
  let parts := Str.split "." ip in
  if negb (Nat.eqb (length parts) 4) then false
  else match all_octets parts with
       | Some b => b
       | None => false
       end.

(** [[0-9a-f]{2}(:[0-9a-f]{2}){5}] *)
Definition mac_regex : regex :=
  Seq (times 2 (Chr cls_hex))
      (times 5 (Group 1 (Seq (Chr (Ascii.eqb ":")) (times 2 (Chr cls_hex))))).

Definition normalize_mac (mac : str) : option str :=
  let mac := Str.replace "-" ":" (Str.lower (Str.strip mac)) in
  if negb (fullmatch mac_regex mac) then None else Some mac.

(** The expression that [build_reservation_block], [add_reservation] and
    [remove_reservation] each start with:
    [f"{hostname}.{domain}" if domain and not hostname.endswith(f".{domain}")
     else hostname]. *)
Definition make_fqdn (hostname : str) (domain : option str) : str :=
  match domain with
  | Some d =>
      if (Str.truthy d && negb (Str.endswith hostname ("." :: d)))%bool
      then hostname ++ "." :: d
      else hostname
  | None => hostname
  end.

Definition build_reservation_block (hostname mac ip : str) (domain : option str) : str :=
  let fqdn := make_fqdn hostname domain in
  txt"host " ++ fqdn ++ txt" {" ++ [nl]
  ++ txt"  hardware ethernet " ++ mac ++ txt";" ++ [nl]
  ++ txt"  fixed-address " ++ ip ++ txt";" ++ [nl]
  ++ txt"}" ++ [nl].

(** ** Config text model *)

Definition reservation := (str * str * str)%type.

(** [(^|\n)(host\s+NAME\s*\{[\s\S]*?\n\})\n], MULTILINE, with NAME the
    escaped host name. *)
Definition block_regex (name : str) : regex :=
  seqs [ Group 1 (Alt Bol (Chr (Ascii.eqb nl)));
         Group 2 (seqs [ lit (txt"host"); plus cls_space; lit name;
                         Star true cls_space; Chr (Ascii.eqb "{");
                         Star false cls_any; Chr (Ascii.eqb nl);
                         Chr (Ascii.eqb "}") ]);
         Chr (Ascii.eqb nl) ].

Definition find_reservation_block (content hostname_or_fqdn : str) : Z * Z :=
  match search (block_regex hostname_or_fqdn) content with
  | None => (-1, -1)%Z
  | Some x => (start_of (length content) x 2, end_of (length content) x)
  end.

(** [host\s+(\S+)\s*\{[^\}]*?hardware\s+ethernet\s+([0-9a-f:]+)\s*;[^\}]*?fixed-address\s+([\d.]+)\s*;[^\}]*?\}],
    MULTILINE | IGNORECASE | DOTALL; the same literal is compiled by
    [find_reservation_by_mac] and by [extract_all_reservations]. *)
Definition reservation_regex : regex :=
  seqs [ lit_i (txt"host"); plus cls_space; Group 1 (plus cls_nonspace);
         Star true cls_space; lit_i (txt"{");
         Star false cls_not_rbrace;
         lit_i (txt"hardware"); plus cls_space; lit_i (txt"ethernet"); plus cls_space;
         Group 2 (plus cls_hex_colon_i); Star true cls_space; lit_i (txt";");
         Star false cls_not_rbrace;
         lit_i (txt"fixed-address"); plus cls_space;
         Group 3 (plus cls_digit_dot); Star true cls_space; lit_i (txt";");
         Star false cls_not_rbrace; lit_i (txt"}") ].

(** The loop of [find_reservation_by_mac] over the matches. *)
Fixpoint first_with_mac (ms : list rmatch_result) (norm_mac : str) : option reservation :=
  match ms with
  | [] => None
  | x :: ms' =>
      let found_hostname := group x 1 in
      let found_mac := Str.lower (group x 2) in
      let found_ip := group x 3 in
      if Str.eqb found_mac norm_mac
      then Some (found_hostname, found_mac, found_ip)
      else first_with_mac ms' norm_mac
  end.

Definition find_reservation_by_mac (content mac : str) : option reservation :=
  match normalize_mac mac with
  | None => None
  | Some norm_mac => first_with_mac (finditer reservation_regex content) norm_mac
  end.

Definition extract_all_reservations (content : str) : list reservation :=
  map (fun x => (group x 1, Str.lower (group x 2), group x 3))
      (finditer reservation_regex content).

(** ** Mutation engine *)

(** [get_user_confirmation]: the terminal is the list of the lines still to
    be read; running out of lines is EOFError. *)
Fixpoint get_user_confirmation (stdin : list str) : bool * list str :=
  match stdin with
  | [] => (false, [])
  | line :: rest =>
      let response := Str.lower (Str.strip line) in
      if (Str.eqb response (txt"yes") || Str.eqb response (txt"y"))%bool then (true, rest)
      else if (Str.eqb response (txt"no") || Str.eqb response (txt"n"))%bool then (false, rest)
      else get_user_confirmation rest
  end.

Definition remove_reservation (content hostname : str) (domain : option str) : str * bool :=
  let fqdn := make_fqdn hostname domain in
  let '(start, end_) := find_reservation_block content fqdn in
  if (start =? -1)%Z then (content, false)
  else (Str.slice_to content start ++ Str.slice_from content end_, true).

(** The tail of [add_reservation], from "Now add/update the reservation". *)
Definition apply_reservation (content hostname mac ip : str) (domain : option str)
  : str * bool * option str :=
  let fqdn := make_fqdn hostname domain in
  let '(start, end_) := find_reservation_block content fqdn in
  let block := build_reservation_block hostname mac ip domain in
  if negb (start =? -1)%Z then
    let prefix :=
      if ((start >? 0)%Z
          && negb (match Str.index content (start - 1) with
                   | Some c => Ascii.eqb c nl
                   | None => false
                   end))%bool
      then [nl] else [] in
    let new_content := Str.slice_to content start ++ prefix ++ block
                       ++ Str.slice_from content end_ in
    let changed := negb (Str.eqb (prefix ++ block) (Str.slice content start end_)) in
    (new_content, changed, None)
  else
    let content :=
      if (Str.truthy content && negb (Str.endswith content [nl]))%bool
      then content ++ [nl] else content in
    (content ++ block, true, None).

Definition first_label (name : str) : str := hd [] (Str.split "." name).

Definition add_reservation (content hostname mac ip : str) (domain : option str)
           (interactive : bool) (stdin : list str)
  : (str * bool * option str) * list str :=
  let fqdn := make_fqdn hostname domain in
  match find_reservation_by_mac content mac with
  | Some (existing_hostname, existing_mac, existing_ip) =>
      if (Str.eqb existing_hostname fqdn && Str.eqb existing_ip ip)%bool then
        ((content, false, None), stdin)
      else if Str.eqb existing_hostname fqdn then
        (apply_reservation content hostname mac ip domain, stdin)
      else if interactive then
        let '(yes, stdin') := get_user_confirmation stdin in
        if negb yes then
          ((content, false, Some (txt"User declined to overwrite conflicting reservation")),
           stdin')
        else
          let '(content', removed) :=
            remove_reservation content (first_label existing_hostname) domain in
          if negb removed then
            ((content', false,
              Some (txt"Failed to remove conflicting reservation for " ++ existing_hostname)),
             stdin')
          else (apply_reservation content' hostname mac ip domain, stdin')
      else
        ((content, false,
          Some (txt"Conflict: MAC " ++ mac ++ txt" is already used by " ++ existing_hostname
                ++ txt". Run in interactive mode to resolve conflicts.")),
         stdin)
  | None => (apply_reservation content hostname mac ip domain, stdin)
  end.

(** ** Safety pipeline and command driver *)

Inductive action : Type := Add | Remove | Export.

(** The parsed command line ([argparse.Namespace]). *)
Record args : Type := MkArgs {
  arg_hostname : option str;
  arg_mac : option str;
  arg_ip : option str;
  arg_file : option str;
  arg_action : action;
  arg_output : option str;
  arg_no_header : bool;
  arg_config_file : option str;
  arg_domain : option str;
  arg_no_backup : bool;
  arg_non_interactive : bool;
  arg_skip_validation : bool
}.

(** The files on disk (path to content) and the lines waiting on the
    terminal. *)
Record world : Type := MkWorld {
  files : str -> option str;
  stdin : list str
}.

(** What the run does not decide: the syntax oracle ([dhcpd -t], as its
    verdict on a file content), the clock, the environment variables, the
    CSV reader and writer, and whether each file operation goes through. *)
Record env : Type := MkEnv {
  oracle : str -> bool;
  clock : str;
  env_conf_path : option str;
  env_domain : option str;
  default_conf_path : str;
  csv_rows : str -> option (list (list str));
  csv_render : list reservation -> bool -> str;
  read_ok : bool;
  backup_ok : bool;
  write_ok : bool;
  restore_ok : bool;
  export_ok : bool
}.

Definition fs_write (path content : str) (fs : str -> option str) : str -> option str :=
  fun p => if Str.eqb p path then Some content else fs p.

(** [os.path.isfile] *)
Definition isfile (w : world) (path : str) : bool :=
  match files w path with Some _ => true | None => false end.

(** [load_config_text]; [None] stands for an exception. *)
Definition load_config_text (e : env) (w : world) (config_path : str) : option str :=
  if read_ok e then files w config_path else None.

(** [save_config_text]; [None] stands for an exception. *)
Definition save_config_text (e : env) (w : world) (config_path content : str)
  : option world :=
  if write_ok e
  then Some (MkWorld (fs_write config_path content (files w)) (stdin w))
  else None.

(** [make_backup]; [None] stands for an exception. *)
Definition make_backup (e : env) (w : world) (config_path : str) : option (str * world) :=
  let backup_path := config_path ++ txt"." ++ clock e ++ txt".bak" in
  match files w config_path with
  | Some content =>
      if backup_ok e
      then Some (backup_path, MkWorld (fs_write backup_path content (files w)) (stdin w))
      else None
  | None => None
  end.

(** [validate_dhcpd_syntax], as its first component [is_valid]. *)
Definition validate_dhcpd_syntax (e : env) (w : world) (config_path : str) : bool :=
  match files w config_path with
  | Some content => oracle e content
  | None => false
  end.

Definition restore_from_backup (e : env) (w : world) (config_path backup_path : str)
  : bool * world :=
  match files w backup_path with
  | Some content =>
      if restore_ok e
      then (true, MkWorld (fs_write config_path content (files w)) (stdin w))
      else (false, w)
  | None => (false, w)
  end.

(** [x or ''] for an optional string. *)
Definition or_empty (x : option str) : str :=
  match x with Some s => s | None => [] end.

(** Truth value of an optional string. *)
Definition opt_truthy (x : option str) : bool :=
  match x with Some s => Str.truthy s | None => false end.

(** [a or b] on optional strings. *)
Definition opt_or (a b : option str) : option str :=
  if opt_truthy a then a else b.

(** One row of [parse_csv], after the header: [None] is a skipped row. *)
Definition csv_row_record (row : list str) : option reservation :=
  match row with
  | c0 :: c1 :: c2 :: _ =>
      let hostname := Str.strip c0 in
      let mac := Str.strip c1 in
      let ip := Str.strip c2 in
      match normalize_mac mac with
      | Some norm_mac =>
          if (negb (Str.truthy hostname) || negb (Str.truthy norm_mac)
              || negb (validate_ip_address ip))%bool
          then None
          else Some (hostname, norm_mac, ip)
      | None => None
      end
  | _ => None
  end.

Fixpoint csv_records (rows : list (list str)) : list reservation :=
  match rows with
  | [] => []
  | row :: rows' =>
      match csv_row_record row with
      | Some r => r :: csv_records rows'
      | None => csv_records rows'
      end
  end.

(** [parse_csv]: the rows read from the file (header detection is the CSV
    library's), validated one by one; [None] stands for an exception. *)
Definition parse_csv (e : env) (file_path : str) : option (list reservation) :=
  match csv_rows e file_path with
  | Some rows =>
      match csv_records rows with
      | [] => None
      | rs => Some rs
      end
  | None => None
  end.

Definition record := (str * option str * option str)%type.

(** "Determine records to process"; [None] is [return 1]. *)
Definition determine_records (e : env) (a : args) : option (list record) :=
  if opt_truthy (arg_file a) then
    match parse_csv e (or_empty (arg_file a)) with
    | Some batch => Some (map (fun '(hostname, mac, ip) => (hostname, Some mac, Some ip)) batch)
    | None => None
    end
  else
    match arg_action a with
    | Add =>
        if (negb (opt_truthy (arg_hostname a)) || negb (opt_truthy (arg_mac a))
            || negb (opt_truthy (arg_ip a)))%bool
        then None
        else match normalize_mac (or_empty (arg_mac a)) with
             | None => None
             | Some norm_mac =>
                 if negb (validate_ip_address (or_empty (arg_ip a))) then None
                 else Some [(Str.strip (or_empty (arg_hostname a)), Some norm_mac,
                             Some (Str.strip (or_empty (arg_ip a))))]
             end
    | _ =>
        if negb (opt_truthy (arg_hostname a)) then None
        else Some [(Str.strip (or_empty (arg_hostname a)), None, None)]
    end.

(** The state of the record loop: the buffer, the two counters and the
    terminal. *)
Record loop_state : Type := MkLoop {
  buf : str;
  ok : nat;
  fail : nat;
  term : list str
}.

(** One turn of [for (hostname, mac, ip) in records]. *)
Definition process_record (act : action) (domain : str) (interactive_mode : bool)
           (st : loop_state) (r : record) : loop_state :=
  let '(hostname, mac, ip) := r in
  match act with
  | Add =>
      let '((new_content, changed, error), stdin') :=
        add_reservation (buf st) hostname (or_empty mac) (or_empty ip) (Some domain)
                        interactive_mode (term st) in
      if opt_truthy error then MkLoop (buf st) (ok st) (S (fail st)) stdin'
      else if changed then MkLoop new_content (S (ok st)) (fail st) stdin'
           else MkLoop (buf st) (S (ok st)) (fail st) stdin'
  | _ =>
      let '(new_content, changed) := remove_reservation (buf st) hostname (Some domain) in
      if changed then MkLoop new_content (S (ok st)) (fail st) (term st)
      else MkLoop (buf st) (S (ok st)) (fail st) (term st)
  end.

Definition process_records (act : action) (domain : str) (interactive_mode : bool)
           (records : list record) (st : loop_state) : loop_state :=
  fold_left (process_record act domain interactive_mode) records st.

(** [main] from "Load config" on, for the actions add and remove. *)
Definition run_batch (e : env) (a : args) (config_path domain : str)
           (records : list record) (w : world) : Z * world :=
  match load_config_text e w config_path with
  | None => (1%Z, w)
  | Some content =>
      if (negb (arg_skip_validation a) && negb (validate_dhcpd_syntax e w config_path))%bool
      then (1%Z, w)
      else
        let backup :=
          if negb (arg_no_backup a) then
            match make_backup e w config_path with
            | Some (backup_path, w') => Some (Some backup_path, w')
            | None => None
            end
          else Some (None, w) in
        match backup with
        | None => (1%Z, w)
        | Some (backup_path, w1) =>
            let st := process_records (arg_action a) domain (negb (arg_non_interactive a))
                                      records (MkLoop content 0 0 (stdin w1)) in
            let w1' := MkWorld (files w1) (term st) in
            match save_config_text e w1' config_path (buf st) with
            | None => (1%Z, w1')
            | Some w2 =>
                if (negb (arg_skip_validation a)
                    && negb (validate_dhcpd_syntax e w2 config_path))%bool
                then
                  match backup_path with
                  | Some bp =>
                      if isfile w2 bp
                      then (1%Z, snd (restore_from_backup e w2 config_path bp))
                      else (1%Z, w2)
                  | None => (1%Z, w2)
                  end
                else ((if Nat.eqb (fail st) 0 then 0 else 1)%Z, w2)
            end
        end
  end.

(** The export action of [main]. *)
Definition run_export (e : env) (a : args) (config_path : str) (w : world) : Z * world :=
  match load_config_text e w config_path with
  | None => (1%Z, w)
  | Some content =>
      match extract_all_reservations content with
      | [] => (0%Z, w)
      | reservations =>
          if export_ok e then
            match arg_output a with
            | Some out =>
                if Str.truthy out
                then (0%Z, MkWorld (fs_write out (csv_render e reservations
                                                             (negb (arg_no_header a)))
                                             (files w)) (stdin w))
                else (0%Z, w)
            | None => (0%Z, w)
            end
          else (1%Z, w)
      end
  end.

Definition main (e : env) (a : args) (w : world) : Z * world :=
  let config_path :=
    or_empty (opt_or (arg_config_file a)
                     (opt_or (env_conf_path e) (Some (default_conf_path e)))) in
  if negb (isfile w config_path) then (1%Z, w)
  else
    let domain :=
      or_empty (opt_or (arg_domain a)
                       (opt_or (env_domain e) (Some (txt"macfarm.example.com")))) in
    match arg_action a with
    | Export => run_export e a config_path w
    | _ =>
        match determine_records e a with
        | None => (1%Z, w)
        | Some records => run_batch e a config_path domain records w
        end
    end.

(** * Specification vocabulary *)

(** Whether the cursor stands at a line start after reading [u]. *)
Fixpoint advance (bol : bool) (u : str) : bool :=
  match u with
  | [] => bol
  | a :: u' => advance (Ascii.eqb a nl) u'
  end.

(** The text ahead does not continue a run of class [p]. *)
Definition stops (p : ascii -> bool) (s : str) : bool :=
  match s with
  | a :: _ => negb (p a)
  | [] => true
  end.

(** The texts a pattern can match, priorities set aside: [lang r c c'] when
    [r] can take the cursor from [c] to [c']. *)
Fixpoint lang (r : regex) (c c' : cursor) : Prop :=
  match r with
  | Eps => c' = c
  | Chr p => exists a, snd c = a :: snd c' /\ p a = true /\ fst c' = Ascii.eqb a nl
  | Seq r1 r2 => exists m, lang r1 c m /\ lang r2 m c'
  | Alt r1 r2 => lang r1 c c' \/ lang r2 c c'
  | Star _ p =>
      exists run, snd c = run ++ snd c' /\ forallb p run = true
                  /\ fst c' = advance (fst c) run
  | Group _ r1 => lang r1 c c'
  | Bol => c' = c /\ fst c = true
  end.

(** A dot-separated component that parses as an integer in [0,255]. *)
Definition octet (p : str) : Prop :=
  exists n, py_int p = Some n /\ (0 <= n <= 255)%Z.


Definition name_of (r : reservation) : str := fst (fst r).
Definition mac_of (r : reservation) : str := snd (fst r).
Definition ip_of (r : reservation) : str := snd r.

Definition spaces (ws : str) : bool := forallb Str.is_space ws.

(** The text holds a reservation block for [name]: at the start of a line,
    [host], white space, the name, optional white space, an opening brace,
    anything, and a line made of the closing brace alone. *)
Definition has_block (content name : str) : Prop :=
  exists pre ws1 ws2 body post,
    content = pre ++ txt"host" ++ ws1 ++ name ++ ws2 ++ txt"{" ++ body
              ++ [nl; "}"; nl] ++ post
    /\ (pre = [] \/ exists pre', pre = pre' ++ [nl])
    /\ ws1 <> [] /\ spaces ws1 = true /\ spaces ws2 = true.

(** The white space of a reservation block: after [host], before the
    opening brace, before [hardware], after [hardware], after [ethernet],
    before the first semicolon, before [fixed-address], after it, before the
    second semicolon, and before the closing brace. *)
Record layout : Type := MkLayout {
  sp_name : str;
  sp_brace : str;
  sp_body : str;
  sp_hw : str;
  sp_eth : str;
  sp_semi1 : str;
  sp_mid : str;
  sp_fixed : str;
  sp_semi2 : str;
  sp_end : str
}.

(** Every run is white space, and the runs that separate two words are not
    empty. *)
Definition wf_layout (l : layout) : bool :=
  (spaces (sp_name l) && Str.truthy (sp_name l)
   && spaces (sp_brace l) && Str.truthy (sp_brace l)
   && spaces (sp_body l)
   && spaces (sp_hw l) && Str.truthy (sp_hw l)
   && spaces (sp_eth l) && Str.truthy (sp_eth l)
   && spaces (sp_semi1 l)
   && spaces (sp_mid l)
   && spaces (sp_fixed l) && Str.truthy (sp_fixed l)
   && spaces (sp_semi2 l)
   && spaces (sp_end l))%bool.

(** A block with the hardware statement first, from [host] to the closing
    brace. *)
Definition block_hw_first (l : layout) (name mac ip : str) : str :=
  txt"host" ++ sp_name l ++ name ++ sp_brace l ++ txt"{" ++ sp_body l
  ++ txt"hardware" ++ sp_hw l ++ txt"ethernet" ++ sp_eth l ++ mac ++ sp_semi1 l ++ txt";"
  ++ sp_mid l
  ++ txt"fixed-address" ++ sp_fixed l ++ ip ++ sp_semi2 l ++ txt";"
  ++ sp_end l ++ txt"}".

(** The same block with the fixed-address statement first. *)
Definition block_ip_first (l : layout) (name mac ip : str) : str :=
  txt"host" ++ sp_name l ++ name ++ sp_brace l ++ txt"{" ++ sp_body l
  ++ txt"fixed-address" ++ sp_fixed l ++ ip ++ sp_semi2 l ++ txt";"
  ++ sp_mid l
  ++ txt"hardware" ++ sp_hw l ++ txt"ethernet" ++ sp_eth l ++ mac ++ sp_semi1 l ++ txt";"
  ++ sp_end l ++ txt"}".

(** The layout that [build_reservation_block] writes. *)
Definition canonical : layout :=
  MkLayout (txt" ") (txt" ") (nl :: txt"  ") (txt" ") (txt" ") []
           (nl :: txt"  ") (txt" ") [] [nl].

(** Equality of two characters, letter case set aside. *)
Definition eq_ci (c a : ascii) : bool :=
  Ascii.eqb (Str.lower_char c) (Str.lower_char a).

(** The text begins with the keyword [host], in any letter case, followed
    by a white-space character. *)
Definition host_kw (s : str) : bool :=
  match s with
  | c1 :: c2 :: c3 :: c4 :: c5 :: _ =>
      (eq_ci c1 "h" && eq_ci c2 "o" && eq_ci c3 "s" && eq_ci c4 "t"
       && Str.is_space c5)%bool
  | _ => false
  end.

(** The keyword occurs somewhere in the text. *)
Fixpoint has_host_kw (s : str) : bool :=
  (host_kw s || match s with
                | [] => false
                | _ :: s' => has_host_kw s'
                end)%bool.

(** A document as the editor sees it: reservation blocks, each preceded by
    text free of the [host] keyword, and a last stretch of such text. *)
Record item : Type := MkItem {
  it_gap : str;
  it_layout : layout;
  it_res : reservation
}.

Definition render_item (it : item) : str :=
  it_gap it ++ block_hw_first (it_layout it) (name_of (it_res it)) (mac_of (it_res it))
                              (ip_of (it_res it)).

Definition render_doc (items : list item) (tail : str) : str :=
  concat (map render_item items) ++ tail.

(** A block that the reservation pattern reads: a non-empty name without
    white space, a MAC of hexadecimal digits and colons, an address of
    digits and dots. *)
Definition readable (r : reservation) : bool :=
  (Str.truthy (name_of r) && forallb cls_nonspace (name_of r)
   && Str.truthy (mac_of r) && forallb cls_hex_colon_i (mac_of r)
   && Str.truthy (ip_of r) && forallb cls_digit_dot (ip_of r))%bool.

Definition wf_item (it : item) : bool :=
  (negb (has_host_kw (it_gap it)) && wf_layout (it_layout it) && readable (it_res it))%bool.

(** What the extraction reports for a block: the MAC in lower case. *)
Definition reported (r : reservation) : reservation :=
  (name_of r, Str.lower (mac_of r), ip_of r).

(** A small run used to exercise the pipeline: a configuration with one
    reservation, and a batch of three records whose second one conflicts
    with it. *)
Definition demo_path : str := txt"/etc/dhcp/dhcpd.conf".

Definition demo_content : str :=
  build_reservation_block (txt"a") (txt"aa:bb:cc:dd:ee:01") (txt"10.0.0.1")
                          (Some (txt"example.com")).

Definition demo_env (verdict : str -> bool) : env :=
  MkEnv verdict (txt"20240101-120000") None None demo_path
        (fun _ => None) (fun _ _ => []) true true true true true.

Definition demo_world : world :=
  MkWorld (fs_write demo_path demo_content (fun _ => None)) [].

Definition demo_args (no_backup : bool) : args :=
  MkArgs None None None (Some (txt"hosts.csv")) Add None false None None
         no_backup true false.

Definition demo_records : list record :=
  [ (txt"b", Some (txt"aa:bb:cc:dd:ee:02"), Some (txt"10.0.0.2"));
    (txt"c", Some (txt"aa:bb:cc:dd:ee:01"), Some (txt"10.0.0.3"));
    (txt"d", Some (txt"aa:bb:cc:dd:ee:04"), Some (txt"10.0.0.4")) ].

(** The opening of a block as [find_reservation_block] looks for it:
    [(^|\n)host\s+NAME\s*\{], the block pattern cut after the brace. *)
Definition header_regex (name : str) : regex :=
  seqs [ Alt Bol (Chr (Ascii.eqb nl)); lit (txt"host"); plus cls_space; lit name;
         Star true cls_space; Chr (Ascii.eqb "{") ].

(** The text holds a header line for [name], closed by a block end or not. *)
Definition has_header (content name : str) : bool :=
  match search (header_regex name) content with
  | Some _ => true
  | None => false
  end.

(** A text that is empty or ends with a newline. *)
Definition ends_line (g : str) : bool :=
  match rev g with
  | [] => true
  | c :: _ => Ascii.eqb c nl
  end.

(** Text between reservations: whole lines without the [host] keyword. *)
Definition plain_text (g : str) : bool :=
  (negb (has_host_kw g) && ends_line g)%bool.

(** A block as [build_reservation_block] writes it for the name, MAC and
    address of [r]. *)
Definition written (r : reservation) : str :=
  block_hw_first canonical (name_of r) (mac_of r) (ip_of r) ++ [nl].

(** A file as the tool leaves it: written blocks, each after some plain
    text, and plain text at the end. *)
Definition entry : Type := (str * reservation)%type.

Definition render_managed (entries : list entry) (tail : str) : str :=
  concat (map (fun e : entry => fst e ++ written (snd e)) entries) ++ tail.

Definition cls_name (c : ascii) : bool :=
  (cls_nonspace c && negb (Ascii.eqb c "{"))%bool.

(** A record as the tool accepts it and reads it back: a non-empty name
    without white space or opening brace, a normalised MAC, a valid address
    of digits and dots. *)
Definition managed_record (r : reservation) : bool :=
  (Str.truthy (name_of r) && forallb cls_name (name_of r)
   && match normalize_mac (mac_of r) with
      | Some m => Str.eqb m (mac_of r)
      | None => false
      end
   && validate_ip_address (ip_of r) && forallb cls_digit_dot (ip_of r))%bool.

Definition managed (entries : list entry) (tail : str) : bool :=
  (forallb (fun e : entry => plain_text (fst e) && managed_record (snd e)) entries
   && plain_text tail)%bool.

(** No match of the block pattern for [name] starts within [s] when [rest]
    follows it. *)
Definition quiet_for (name : str) (bol : bool) (s rest : str) : Prop :=
  forall u1 u2, s = u1 ++ u2 -> u2 <> [] ->
                match_here (block_regex name) (advance bol u1, u2 ++ rest) = None.

(** Six pairs of lower-case hexadecimal digits with a colon between the
    pairs: seventeen characters. *)
Definition canonical_mac (s : str) : bool :=
  match s with
  | [a1; a2; c1; b1; b2; c2; d1; d2; c3; e1; e2; c4; f1; f2; c5; g1; g2] =>
      (forallb cls_hex [a1; a2; b1; b2; d1; d2; e1; e2; f1; f2; g1; g2]
       && forallb (Ascii.eqb ":") [c1; c2; c3; c4; c5])%bool
  | _ => false
  end.

(** The texts a pattern can match together with the groups it records on
    the way: [captures r c g c' g'] when [r] can take the cursor from [c] to
    [c'] and the captures from [g] to [g']. *)
Fixpoint captures (r : regex) (c : cursor) (g : caps) (c' : cursor) (g' : caps) : Prop :=
  match r with
  | Eps => c' = c /\ g' = g
  | Chr p => (exists a, snd c = a :: snd c' /\ p a = true /\ fst c' = Ascii.eqb a nl)
             /\ g' = g
  | Seq r1 r2 => exists m gm, captures r1 c g m gm /\ captures r2 m gm c' g'
  | Alt r1 r2 => captures r1 c g c' g' \/ captures r2 c g c' g'
  | Star _ p => (exists u, snd c = u ++ snd c' /\ forallb p u = true
                           /\ fst c' = advance (fst c) u) /\ g' = g
  | Group n r1 => exists g1, captures r1 c g c' g1 /\ g' = (n, (snd c, snd c')) :: g1
  | Bol => fst c = true /\ c' = c /\ g' = g
  end.


(** * Properties *)

(** ** Text *)

Lemma ascii_eqb_true (a b : ascii) : Ascii.eqb a b = true -> a = b.
Proof. apply Ascii.eqb_eq. Qed.

Lemma str_eqb_eq (s t : str) : Str.eqb s t = true <-> s = t.
Proof.
  revert t; induction s as [|a s IH]; intros [|b t]; simpl; split; intro H;
    try reflexivity; try discriminate.
  - apply andb_true_iff in H as [Hab Hst].
    apply Ascii.eqb_eq in Hab. apply IH in Hst. congruence.
  - injection H as -> ->. rewrite Ascii.eqb_refl. simpl. now apply IH.
Qed.

Lemma str_eqb_refl (s : str) : Str.eqb s s = true.
Proof. now apply str_eqb_eq. Qed.

Lemma str_eqb_neq (s t : str) : Str.eqb s t = false <-> s <> t.
Proof.
  split.
  - intros H E. apply str_eqb_eq in E. congruence.
  - intro H. destruct (Str.eqb s t) eqn:E; [|reflexivity].
    apply str_eqb_eq in E. contradiction.
Qed.

Lemma advance_app (bol : bool) (u v : str) :
  advance bol (u ++ v) = advance (advance bol u) v.
Proof. revert bol; induction u as [|a u IH]; intro bol; simpl; [reflexivity|apply IH]. Qed.

Lemma startswith_app (p rest : str) : Str.startswith p (p ++ rest) = true.
Proof. induction p as [|a p IH]; simpl; [reflexivity|]. now rewrite Ascii.eqb_refl. Qed.

Lemma startswith_split (p s : str) :
  Str.startswith p s = true -> exists rest, s = p ++ rest.
Proof.
  revert s; induction p as [|a p IH]; intros s H; simpl in *.
  - now exists s.
  - destruct s as [|b s]; [discriminate|].
    apply andb_true_iff in H as [Hab H]. apply Ascii.eqb_eq in Hab. subst b.
    destruct (IH _ H) as [rest ->]. now exists rest.
Qed.

(** ** The matcher *)

Section MatcherFacts.
Context {R : Type}.
Implicit Types (k : cursor -> option R) (p : ascii -> bool).

Lemma star_greedy_stop p bol s k :
  stops p s = true -> star_greedy p bol s k = k (bol, s).
Proof.
  destruct s as [|a s]; simpl; [reflexivity|].
  intro H. apply negb_true_iff in H. now rewrite H.
Qed.

Lemma star_greedy_run p bol run rest k x :
  forallb p run = true -> stops p rest = true ->
  k (advance bol run, rest) = Some x ->
  star_greedy p bol (run ++ rest) k = Some x.
Proof.
  revert bol; induction run as [|a run IH]; intros bol Hrun Hstop Hk; simpl in *.
  - now rewrite star_greedy_stop.
  - apply andb_true_iff in Hrun as [Ha Hrun]. rewrite Ha.
    now rewrite (IH _ Hrun Hstop Hk).
Qed.

Lemma star_lazy_here p bol s k x :
  k (bol, s) = Some x -> star_lazy p bol s k = Some x.
Proof. intro H. destruct s; simpl; now rewrite H. Qed.

Lemma star_lazy_skip p bol u v k :
  forallb p u = true ->
  (forall u1 u2, u = u1 ++ u2 -> u2 <> [] -> k (advance bol u1, u2 ++ v) = None) ->
  star_lazy p bol (u ++ v) k = star_lazy p (advance bol u) v k.
Proof.
  revert bol; induction u as [|a u IH]; intros bol Hp Hfail; simpl in *; [reflexivity|].
  apply andb_true_iff in Hp as [Ha Hp].
  assert (H0 : k (bol, a :: u ++ v) = None)
    by (apply (Hfail [] (a :: u) eq_refl); discriminate).
  rewrite H0, Ha.
  apply IH; [exact Hp|].
  intros u1 u2 -> Hne. apply (Hfail (a :: u1) u2 eq_refl Hne).
Qed.
End MatcherFacts.

Section RmatchFacts.
Context {R : Type}.
Implicit Types (k : cursor -> caps -> option R).

Lemma rmatch_lit (s rest : str) bol g k :
  rmatch (lit s) (bol, s ++ rest) g k = k (advance bol s, rest) g.
Proof.
  revert bol; induction s as [|a s IH]; intro bol; simpl; [reflexivity|].
  rewrite Ascii.eqb_refl. apply IH.
Qed.

Lemma rmatch_lit_mismatch (s t : str) bol g k :
  Str.startswith s t = false -> rmatch (lit s) (bol, t) g k = None.
Proof.
  revert bol t; induction s as [|a s IH]; intros bol t H; simpl in *; [discriminate|].
  destruct t as [|b t]; [reflexivity|].
  destruct (Ascii.eqb a b) eqn:E; simpl in *; [|reflexivity].
  now apply IH.
Qed.

Lemma rmatch_lit_i (s rest : str) bol g k :
  rmatch (lit_i s) (bol, s ++ rest) g k = k (advance bol s, rest) g.
Proof.
  revert bol; induction s as [|a s IH]; intro bol; simpl; [reflexivity|].
  rewrite Ascii.eqb_refl. apply IH.
Qed.

Lemma rmatch_plus_run p bol run rest g k x :
  run <> [] -> forallb p run = true -> stops p rest = true ->
  k (advance bol run, rest) g = Some x ->
  rmatch (plus p) (bol, run ++ rest) g k = Some x.
Proof.
  destruct run as [|a run]; [congruence|]. intros _ Hrun Hstop Hk.
  simpl in *. apply andb_true_iff in Hrun as [Ha Hrun]. rewrite Ha.
  unfold step_over. simpl. now apply star_greedy_run.
Qed.

Lemma rmatch_star_run p bol run rest g k x :
  forallb p run = true -> stops p rest = true ->
  k (advance bol run, rest) g = Some x ->
  rmatch (Star true p) (bol, run ++ rest) g k = Some x.
Proof. intros. simpl. now apply star_greedy_run. Qed.
End RmatchFacts.

(** Soundness and completeness of the matcher for [lang]. *)
Section LangFacts.
Context {R : Type}.

Lemma star_greedy_sound p bol s (k : cursor -> option R) x :
  star_greedy p bol s k = Some x ->
  exists run rest, s = run ++ rest /\ forallb p run = true
                   /\ k (advance bol run, rest) = Some x.
Proof.
  revert bol; induction s as [|a s IH]; intros bol H; simpl in H.
  - exists [], []. auto.
  - destruct (p a) eqn:Ha.
    + destruct (star_greedy p (Ascii.eqb a nl) s k) eqn:E.
      * injection H as ->. destruct (IH _ E) as (run & rest & -> & Hrun & Hk).
        exists (a :: run), rest. simpl. rewrite Ha, Hrun. auto.
      * exists [], (a :: s). auto.
    + exists [], (a :: s). auto.
Qed.

Lemma star_lazy_sound p bol s (k : cursor -> option R) x :
  star_lazy p bol s k = Some x ->
  exists run rest, s = run ++ rest /\ forallb p run = true
                   /\ k (advance bol run, rest) = Some x.
Proof.
  revert bol; induction s as [|a s IH]; intros bol H; simpl in H.
  - destruct (k (bol, [])) eqn:E; [|discriminate].
    injection H as ->. exists [], []. auto.
  - destruct (k (bol, a :: s)) eqn:E.
    + injection H as ->. exists [], (a :: s). auto.
    + destruct (p a) eqn:Ha; [|discriminate].
      destruct (IH _ H) as (run & rest & -> & Hrun & Hk).
      exists (a :: run), rest. simpl. rewrite Ha, Hrun. auto.
Qed.

Lemma star_greedy_complete p bol run rest (k : cursor -> option R) :
  forallb p run = true -> k (advance bol run, rest) <> None ->
  star_greedy p bol (run ++ rest) k <> None.
Proof.
  revert bol; induction run as [|a run IH]; intros bol Hrun Hk; simpl in *.
  - destruct rest as [|b rest]; simpl; [exact Hk|].
    destruct (p b); [|exact Hk].
    destruct (star_greedy p (Ascii.eqb b nl) rest k); [discriminate|exact Hk].
  - apply andb_true_iff in Hrun as [Ha Hrun]. rewrite Ha.
    specialize (IH _ Hrun Hk).
    destruct (star_greedy p (Ascii.eqb a nl) (run ++ rest) k); [discriminate|contradiction].
Qed.

Lemma star_lazy_complete p bol run rest (k : cursor -> option R) :
  forallb p run = true -> k (advance bol run, rest) <> None ->
  star_lazy p bol (run ++ rest) k <> None.
Proof.
  revert bol; induction run as [|a run IH]; intros bol Hrun Hk; simpl in *.
  - destruct rest; simpl; destruct (k (bol, _)); congruence.
  - apply andb_true_iff in Hrun as [Ha Hrun].
    destruct (k (bol, a :: run ++ rest)); [discriminate|].
    rewrite Ha. now apply IH.
Qed.

Lemma rmatch_sound r : forall c g (k : cursor -> caps -> option R) x,
  rmatch r c g k = Some x ->
  exists c' g', lang r c c' /\ k c' g' = Some x.
Proof.
  induction r as [|p|r1 IH1 r2 IH2|r1 IH1 r2 IH2|[] p|n r1 IH1|];
    intros [bol s] g k x H; simpl in *.
  - eauto.
  - destruct s as [|a s]; [discriminate|].
    destruct (p a) eqn:Ha; [|discriminate].
    exists (step_over a s), g. split; [|exact H]. exists a. auto.
  - destruct (IH1 _ _ _ _ H) as (c1 & g1 & L1 & H1).
    destruct (IH2 _ _ _ _ H1) as (c2 & g2 & L2 & H2).
    exists c2, g2. split; [|exact H2]. now exists c1.
  - destruct (rmatch r1 (bol, s) g k) eqn:E.
    + injection H as ->. destruct (IH1 _ _ _ _ E) as (c1 & g1 & L1 & H1).
      exists c1, g1. auto.
    + destruct (IH2 _ _ _ _ H) as (c1 & g1 & L1 & H1).
      exists c1, g1. auto.
  - destruct (star_greedy_sound _ _ _ _ _ H) as (run & rest & -> & Hrun & Hk).
    exists (advance bol run, rest), g. split; [|exact Hk]. exists run. auto.
  - destruct (star_lazy_sound _ _ _ _ _ H) as (run & rest & -> & Hrun & Hk).
    exists (advance bol run, rest), g. split; [|exact Hk]. exists run. auto.
  - destruct (IH1 _ _ _ _ H) as (c1 & g1 & L1 & H1). eauto.
  - destruct bol; [|discriminate]. exists (true, s), g. auto.
Qed.

Lemma rmatch_complete r : forall c c' g (k : cursor -> caps -> option R),
  lang r c c' -> (forall g', k c' g' <> None) -> rmatch r c g k <> None.
Proof.
  induction r as [|p|r1 IH1 r2 IH2|r1 IH1 r2 IH2|[] p|n r1 IH1|];
    intros [bol s] [bol' s'] g k L Hk; simpl in *.
  - injection L as -> ->. apply Hk.
  - destruct L as (a & -> & Ha & ->). rewrite Ha. apply Hk.
  - destruct L as (m & L1 & L2).
    apply (IH1 _ _ _ _ L1). intro g'. now apply (IH2 _ _ _ _ L2).
  - destruct L as [L|L].
    + specialize (IH1 _ _ g _ L Hk).
      destruct (rmatch r1 (bol, s) g k); [discriminate|contradiction].
    + destruct (rmatch r1 (bol, s) g k); [discriminate|].
      now apply (IH2 _ _ _ _ L).
  - destruct L as (run & -> & Hrun & ->). apply star_greedy_complete; auto.
  - destruct L as (run & -> & Hrun & ->). apply star_lazy_complete; auto.
  - apply (IH1 _ _ _ _ L). intro g'. apply Hk.
  - destruct L as [E Hb]. inversion E; subst. apply Hk.
Qed.
End LangFacts.

Lemma match_here_sound r c x :
  match_here r c = Some x -> exists c', lang r c c' /\ m_from x = snd c /\ m_to x = snd c'.
Proof.
  unfold match_here. intro H.
  destruct (rmatch_sound _ _ _ _ _ H) as (c' & g' & L & E).
  injection E as <-. exists c'. auto.
Qed.

Lemma match_here_complete r c c' :
  lang r c c' -> match_here r c <> None.
Proof.
  intro L. unfold match_here. apply (rmatch_complete _ _ _ _ _ L). discriminate.
Qed.

(** ** Scanning *)

Lemma search_from_skip r bol u v :
  (forall u1 u2, u = u1 ++ u2 -> u2 <> [] ->
                 match_here r (advance bol u1, u2 ++ v) = None) ->
  search_from r bol (u ++ v) = search_from r (advance bol u) v.
Proof.
  revert bol; induction u as [|a u IH]; intros bol Hfail; simpl; [reflexivity|].
  assert (H0 : match_here r (bol, a :: u ++ v) = None)
    by (apply (Hfail [] (a :: u) eq_refl); discriminate).
  rewrite H0. apply IH.
  intros u1 u2 -> Hne. apply (Hfail (a :: u1) u2 eq_refl Hne).
Qed.

Lemma search_from_here r bol s x :
  match_here r (bol, s) = Some x -> search_from r bol s = Some x.
Proof. intro H. destruct s; simpl; now rewrite H. Qed.

Lemma search_from_none r bol s :
  search_from r bol s = None ->
  forall u1 u2, s = u1 ++ u2 -> match_here r (advance bol u1, u2) = None.
Proof.
  revert bol; induction s as [|a s IH]; intros bol H u1 u2 E.
  - destruct u1; [|discriminate]. simpl in E. subst u2. simpl in *.
    destruct (match_here r (bol, [])); [discriminate|reflexivity].
  - simpl in H. destruct (match_here r (bol, a :: s)) eqn:E0; [discriminate|].
    destruct u1 as [|b u1]; simpl in E.
    + subst u2. exact E0.
    + injection E as <- ->. simpl. now apply IH.
Qed.

Lemma finditer_from_skip r bol u v :
  finditer_from r bol (u ++ v) (length u) = finditer_from r (advance bol u) v 0.
Proof.
  revert bol; induction u as [|a u IH]; intro bol; simpl; [reflexivity|apply IH].
Qed.

Lemma finditer_from_miss r bol u v :
  (forall u1 u2, u = u1 ++ u2 -> u2 <> [] ->
                 match_here r (advance bol u1, u2 ++ v) = None) ->
  finditer_from r bol (u ++ v) 0 = finditer_from r (advance bol u) v 0.
Proof.
  revert bol; induction u as [|a u IH]; intros bol Hfail; simpl; [reflexivity|].
  assert (H0 : match_here r (bol, a :: u ++ v) = None)
    by (apply (Hfail [] (a :: u) eq_refl); discriminate).
  rewrite H0. apply IH.
  intros u1 u2 -> Hne. apply (Hfail (a :: u1) u2 eq_refl Hne).
Qed.

Lemma advance_last bol u a : advance bol (u ++ [a]) = Ascii.eqb a nl.
Proof. now rewrite advance_app. Qed.

Lemma advance_true_iff u :
  advance true u = true <-> u = [] \/ exists u', u = u' ++ [nl].
Proof.
  destruct u as [|b u0] using rev_ind.
  - split; auto.
  - rewrite advance_last. split.
    + intro H. apply Ascii.eqb_eq in H. subst b. right. now exists u0.
    + intros [H|(u'' & H)].
      * now destruct u0.
      * apply app_inj_tail in H as [_ ->]. reflexivity.
Qed.

Lemma search_from_sound r bol s x :
  search_from r bol s = Some x ->
  exists u1 u2 c', s = u1 ++ u2 /\ lang r (advance bol u1, u2) c'
                   /\ match_here r (advance bol u1, u2) = Some x
                   /\ (forall v1 v2, u1 = v1 ++ v2 -> v2 <> [] ->
                         match_here r (advance bol v1, v2 ++ u2) = None).
Proof.
  revert bol; induction s as [|a s IH]; intros bol H; simpl in H.
  - destruct (match_here r (bol, [])) eqn:E; [|discriminate]. injection H as ->.
    destruct (match_here_sound _ _ _ E) as (c' & L & _).
    exists [], [], c'. repeat split; auto. intros v1 v2 E'. now destruct v1, v2.
  - destruct (match_here r (bol, a :: s)) eqn:E.
    + injection H as ->. destruct (match_here_sound _ _ _ E) as (c' & L & _).
      exists [], (a :: s), c'. repeat split; auto. intros v1 v2 E'. now destruct v1, v2.
    + destruct (IH _ H) as (u1 & u2 & c' & -> & L & M & F).
      exists (a :: u1), u2, c'. repeat split; auto.
      intros [|b v1] v2 E' Hne; simpl in E'.
      * subst v2. exact E.
      * injection E' as <- ->. simpl. now apply F.
Qed.

Lemma search_from_complete r bol u1 u2 c' :
  lang r (advance bol u1, u2) c' -> search_from r bol (u1 ++ u2) <> None.
Proof.
  intros L H. apply (match_here_complete _ _ _ L).
  now apply (search_from_none _ _ _ H u1 u2).
Qed.

Lemma lang_lit s c c' :
  lang (lit s) c c' <-> snd c = s ++ snd c' /\ fst c' = advance (fst c) s.
Proof.
  revert c; induction s as [|a s IH]; intros [bol t]; destruct c' as [bol' t']; simpl.
  - split; [intro H; injection H as -> ->; auto | intros [-> ->]; reflexivity].
  - split.
    + intros ([b m] & (a' & E & Ha & Hb) & L). simpl in *.
      apply Ascii.eqb_eq in Ha. subst a' b t.
      apply IH in L as [E1 E2]. simpl in *. subst. auto.
    + intros [-> ->]. exists (Ascii.eqb a nl, s ++ t'). split.
      * exists a. simpl. rewrite Ascii.eqb_refl. auto.
      * apply IH. auto.
Qed.

Lemma lang_plus p c c' :
  lang (plus p) c c' <->
  exists run, run <> [] /\ snd c = run ++ snd c' /\ forallb p run = true
              /\ fst c' = advance (fst c) run.
Proof.
  destruct c as [bol t], c' as [bol' t']; simpl. split.
  - intros ([b m] & (a & E & Ha & Hb) & (run & E' & Hrun & Hb')). simpl in *. subst.
    exists (a :: run). simpl. rewrite Ha, Hrun. repeat split; auto. discriminate.
  - intros ([|a run] & Hne & -> & Hrun & ->); [congruence|]. simpl in Hrun.
    apply andb_true_iff in Hrun as [Ha Hrun].
    exists (Ascii.eqb a nl, run ++ t'). split.
    + exists a. auto.
    + exists run. auto.
Qed.

(** ** Locating a block by name *)

Lemma block_regex_lang name c c' :
  lang (block_regex name) c c' <->
  exists lead ws1 ws2 body,
    snd c = lead ++ txt"host" ++ ws1 ++ name ++ ws2 ++ txt"{" ++ body
            ++ [nl; "}"; nl] ++ snd c'
    /\ ((lead = [] /\ fst c = true) \/ lead = [nl])
    /\ ws1 <> [] /\ spaces ws1 = true /\ spaces ws2 = true /\ fst c' = true.
Proof.
  unfold block_regex. cbn [lang seqs]. split.
  - intros (c1 & L1 & c2 & (c3 & L3 & c4 & L4 & c5 & L5 & c6 & L6 & c7 & L7
                              & c8 & L8 & c9 & L9 & L10) & L11).
    apply lang_lit in L3 as [E3 B3]. apply lang_plus in L4 as (ws1 & N4 & E4 & S4 & B4).
    apply lang_lit in L5 as [E5 B5].
    destruct L6 as (ws2 & E6 & S6 & B6). destruct L7 as (a7 & E7 & A7 & B7).
    destruct L8 as (body & E8 & _ & B8). destruct L9 as (a9 & E9 & A9 & B9).
    destruct L10 as (a10 & E10 & A10 & B10). destruct L11 as (a11 & E11 & A11 & B11).
    apply Ascii.eqb_eq in A7, A9, A10, A11. subst a7 a9 a10 a11.
    assert (Hlead : exists lead, snd c = lead ++ snd c1
                                 /\ ((lead = [] /\ fst c = true) \/ lead = [nl])).
    { destruct L1 as [[-> Hb]|(a & E & A & _)].
      - exists []. auto.
      - apply Ascii.eqb_eq in A. subst a. exists [nl]. auto. }
    destruct Hlead as (lead & E1 & Hl).
    exists lead, ws1, ws2, body. rewrite E1, E3, E4, E5, E6, E7, E8, E9, E10, E11.
    rewrite B11, Ascii.eqb_refl. repeat split; auto.
  - intros (lead & ws1 & ws2 & body & E & Hl & N1 & S1 & S2 & B).
    destruct c as [bol s], c' as [bol' s']. cbn [fst snd] in *. subst s bol'.
    exists (advance bol lead, txt"host" ++ ws1 ++ name ++ ws2 ++ txt"{" ++ body
                              ++ [nl; "}"; nl] ++ s'). split.
    { destruct Hl as [[-> ->] | ->]; [left; auto|right].
      exists nl. auto. }
    set (b0 := advance bol lead).
    exists (false, [nl] ++ s'). split.
    2:{ exists nl. auto. }
    set (b1 := advance b0 (txt"host")).
    exists (b1, ws1 ++ name ++ ws2 ++ txt"{" ++ body ++ [nl; "}"; nl] ++ s').
    split; [apply lang_lit; auto|].
    exists (advance b1 ws1, name ++ ws2 ++ txt"{" ++ body ++ [nl; "}"; nl] ++ s').
    split; [apply lang_plus; exists ws1; auto|].
    exists (advance (advance b1 ws1) name, ws2 ++ txt"{" ++ body ++ [nl; "}"; nl] ++ s').
    split; [apply lang_lit; auto|].
    set (b3 := advance (advance b1 ws1) name).
    exists (advance b3 ws2, txt"{" ++ body ++ [nl; "}"; nl] ++ s').
    split; [exists ws2; auto|].
    exists (false, body ++ [nl; "}"; nl] ++ s').
    split; [exists "{"; auto|].
    exists (advance false body, [nl; "}"; nl] ++ s').
    split; [exists body; repeat split; auto; now apply forallb_forall|].
    exists (true, ["}"; nl] ++ s').
    split; [exists nl; auto|].
    exists "}". auto.
Qed.

Lemma find_reservation_block_found content name :
  fst (find_reservation_block content name) <> (-1)%Z -> has_block content name.
Proof.
  unfold find_reservation_block, search.
  destruct (search_from (block_regex name) true content) as [x|] eqn:E; [|simpl; congruence].
  intros _. destruct (search_from_sound _ _ _ _ E) as (u1 & u2 & c' & -> & L & _).
  apply block_regex_lang in L as (lead & ws1 & ws2 & body & E2 & Hl & N1 & S1 & S2 & _).
  simpl in E2. subst u2.
  exists (u1 ++ lead), ws1, ws2, body, (snd c'). rewrite <- !app_assoc.
  repeat split; auto.
  destruct Hl as [[-> Hb] | ->].
  - rewrite app_nil_r. simpl in Hb. now apply advance_true_iff.
  - right. now exists u1.
Qed.

Lemma has_block_found content name :
  has_block content name -> search (block_regex name) content <> None.
Proof.
  intros (pre & ws1 & ws2 & body & post & -> & Hpre & N1 & S1 & S2).
  unfold search. apply search_from_complete with (c' := (true, post)).
  apply block_regex_lang. exists [], ws1, ws2, body. simpl.
  repeat split; auto. left. split; auto. now apply advance_true_iff.
Qed.

Lemma find_reservation_block_absent content name :
  ~ has_block content name -> fst (find_reservation_block content name) = (-1)%Z.
Proof.
  intro H. destruct (Z.eq_dec (fst (find_reservation_block content name)) (-1)) as [E|E].
  - exact E.
  - exfalso. apply H. now apply find_reservation_block_found.
Qed.

Lemma remove_reservation_absent content hostname domain :
  ~ has_block content (make_fqdn hostname domain) ->
  remove_reservation content hostname domain = (content, false).
Proof.
  intro H. apply find_reservation_block_absent in H. unfold remove_reservation.
  destruct (find_reservation_block content (make_fqdn hostname domain)) as [a b].
  simpl in H. subst a. reflexivity.
Qed.

(** ** IP validation *)

Lemma all_octets_true parts :
  all_octets parts = Some true <-> Forall octet parts.
Proof.
  induction parts as [|p ps IH]; simpl.
  - split; auto.
  - destruct (py_int p) as [n|] eqn:E.
    + destruct ((0 <=? n) && (n <=? 255))%Z%bool eqn:Hr.
      * rewrite IH. split.
        -- intro H. constructor; [|exact H]. exists n. split; [exact E|].
           apply andb_true_iff in Hr as [H1 H2]. lia.
        -- intro H. now inversion H.
      * split; [discriminate|]. intro H. inversion H as [|? ? (n' & E' & Hn) _]. subst.
        assert (n' = n) by congruence. subst n'.
        apply andb_false_iff in Hr as [H1|H1]; lia.
    + split; [discriminate|]. intro H. inversion H as [|? ? (n' & E' & Hn) _]. congruence.
Qed.



(** ** Character classes *)

Ltac ascii_cases c :=
  destruct c as [[] [] [] [] [] [] [] []]; vm_compute; try reflexivity; try discriminate.

Lemma space_not_nonspace c : Str.is_space c = true -> cls_nonspace c = false.
Proof. unfold cls_nonspace. now intros ->. Qed.

Lemma nonspace_not_space c : cls_nonspace c = true -> cls_space c = false.
Proof. unfold cls_nonspace, cls_space. now destruct (Str.is_space c). Qed.

Lemma space_not_hex_colon c : Str.is_space c = true -> cls_hex_colon_i c = false.
Proof. ascii_cases c. Qed.

Lemma space_not_digit_dot c : Str.is_space c = true -> cls_digit_dot c = false.
Proof. ascii_cases c. Qed.

Lemma space_not_rbrace c : Str.is_space c = true -> cls_not_rbrace c = true.
Proof. ascii_cases c. Qed.

Lemma space_lower_ne c (a : ascii) :
  Str.is_space c = true -> Str.is_space (Str.lower_char a) = false ->
  Ascii.eqb (Str.lower_char c) (Str.lower_char a) = false.
Proof.
  intros Hc Ha. destruct (Ascii.eqb (Str.lower_char c) (Str.lower_char a)) eqn:E; [|reflexivity].
  apply Ascii.eqb_eq in E. rewrite <- E in Ha.
  revert Hc Ha. ascii_cases c.
Qed.

Lemma stops_app p ws t :
  forallb (fun c => negb (p c)) ws = true -> stops p t = true -> stops p (ws ++ t) = true.
Proof. destruct ws as [|a ws]; simpl; [auto|]. intros H _. now apply andb_true_iff in H as [H _]. Qed.

Lemma forallb_impl (p q : ascii -> bool) s :
  (forall c, p c = true -> q c = true) -> forallb p s = true -> forallb q s = true.
Proof.
  intros Hpq H. apply forallb_forall. intros c Hc.
  apply Hpq. now apply (proj1 (forallb_forall p s) H).
Qed.

Lemma span_text_app u v : span_text (u ++ v, v) = u.
Proof.
  unfold span_text. cbn [fst snd]. rewrite length_app.
  replace (length u + length v - length v) with (length u) by lia.
  rewrite firstn_app, firstn_all, Nat.sub_diag. cbn. apply app_nil_r.
Qed.

(** ** Recognising a reservation *)

Section GapFacts.
Context {R : Type}.
Implicit Types (k : cursor -> caps -> option R).

Lemma rmatch_lit_i_head (a c : ascii) s t bol g k :
  Ascii.eqb (Str.lower_char c) (Str.lower_char a) = false ->
  rmatch (lit_i (a :: s)) (bol, c :: t) g k = None.
Proof. intro H. simpl. now rewrite H. Qed.

Lemma rmatch_lit_i_nil (a : ascii) s bol g k :
  rmatch (lit_i (a :: s)) (bol, []) g k = None.
Proof. reflexivity. Qed.

(** A lazy repetition steps over white space when what follows begins
    with a word. *)
Lemma rmatch_lazy_gap p bol u v g (a : ascii) s k x :
  spaces u = true -> (forall c, Str.is_space c = true -> p c = true) ->
  Str.is_space (Str.lower_char a) = false ->
  rmatch (lit_i (a :: s)) (advance bol u, v) g k = Some x ->
  rmatch (Star false p) (bol, u ++ v) g (fun c' g' => rmatch (lit_i (a :: s)) c' g' k)
  = Some x.
Proof.
  intros Hu Hp Ha Hk. cbn [rmatch fst snd].
  rewrite star_lazy_skip.
  - now apply star_lazy_here.
  - now apply forallb_impl with (p := Str.is_space).
  - intros u1 [|c u2] E Hne; [congruence|]. subst u.
    unfold spaces in Hu. rewrite forallb_app in Hu.
    apply andb_true_iff in Hu as [_ Hu]. simpl in Hu.
    apply andb_true_iff in Hu as [Hc _].
    apply rmatch_lit_i_head. now apply space_lower_ne.
Qed.
End GapFacts.

Lemma wf_layout_fields l :
  wf_layout l = true ->
  (spaces (sp_name l) = true /\ sp_name l <> []) /\
  (spaces (sp_brace l) = true /\ sp_brace l <> []) /\
  spaces (sp_body l) = true /\
  (spaces (sp_hw l) = true /\ sp_hw l <> []) /\
  (spaces (sp_eth l) = true /\ sp_eth l <> []) /\
  spaces (sp_semi1 l) = true /\ spaces (sp_mid l) = true /\
  (spaces (sp_fixed l) = true /\ sp_fixed l <> []) /\
  spaces (sp_semi2 l) = true /\ spaces (sp_end l) = true.
Proof.
  unfold wf_layout. intro H.
  repeat (apply andb_true_iff in H as [H ?]).
  assert (T : forall s, Str.truthy s = true -> s <> []) by (intros [|] ?; discriminate).
  repeat split; auto.
Qed.

Lemma stops_nonempty p s t :
  s <> [] -> forallb (fun c => negb (p c)) s = true -> stops p (s ++ t) = true.
Proof.
  destruct s as [|a s]; [congruence|]. intros _ H. simpl in *.
  now apply andb_true_iff in H as [H _].
Qed.

Lemma stops_spaces_then p ws (c : ascii) t :
  spaces ws = true -> (forall a, Str.is_space a = true -> p a = false) -> p c = false ->
  stops p (ws ++ c :: t) = true.
Proof.
  intros Hws Hp Hc. destruct ws as [|a ws]; simpl.
  - now rewrite Hc.
  - simpl in Hws. apply andb_true_iff in Hws as [Ha _]. now rewrite (Hp _ Ha).
Qed.

Lemma reservation_regex_block l name mac ip bol rest :
  wf_layout l = true ->
  name <> [] -> forallb cls_nonspace name = true ->
  mac <> [] -> forallb cls_hex_colon_i mac = true ->
  ip <> [] -> forallb cls_digit_dot ip = true ->
  exists x,
    match_here reservation_regex (bol, block_hw_first l name mac ip ++ rest) = Some x
    /\ group x 1 = name /\ group x 2 = mac /\ group x 3 = ip /\ m_to x = rest.
Proof.
  intros Hl Nn Hn Nm Hm Ni Hi.
  destruct (wf_layout_fields _ Hl)
    as ((S1 & N1) & (S2 & N2) & S3 & (S4 & N4) & (S5 & N5) & S6 & S7 & (S8 & N8) & S9 & S10).
  unfold block_hw_first. rewrite <- !app_assoc.
  eexists. split.
  - unfold match_here, reservation_regex. cbn [seqs rmatch].
    rewrite rmatch_lit_i.
    eapply rmatch_plus_run; [exact N1 | exact S1 | |].
    { apply stops_nonempty; [exact Nn|].
      apply forallb_impl with (p := cls_nonspace); [|exact Hn].
      intros c Hc. unfold cls_space. now rewrite nonspace_not_space. }
    cbn [rmatch fst snd].
    eapply rmatch_plus_run; [exact Nn | exact Hn | |].
    { apply stops_nonempty; [exact N2|].
      apply forallb_impl with (p := Str.is_space); [|exact S2].
      intros c Hc. now rewrite space_not_nonspace. }
    cbn [rmatch fst snd].
    eapply star_greedy_run; [exact S2 | reflexivity |].
    rewrite rmatch_lit_i.
    apply rmatch_lazy_gap; [exact S3 | exact space_not_rbrace | reflexivity |].
    rewrite rmatch_lit_i. cbn [rmatch fst snd].
    eapply rmatch_plus_run; [exact N4 | exact S4 | reflexivity |].
    rewrite rmatch_lit_i. cbn [rmatch fst snd].
    eapply rmatch_plus_run; [exact N5 | exact S5 | |].
    { apply stops_nonempty; [exact Nm|].
      apply forallb_impl with (p := cls_hex_colon_i); [|exact Hm].
      intros c Hc. unfold cls_space. destruct (Str.is_space c) eqn:E; [|reflexivity].
      apply space_not_hex_colon in E. congruence. }
    cbn [rmatch fst snd].
    eapply rmatch_plus_run; [exact Nm | exact Hm | |].
    { apply stops_spaces_then; [exact S6 | exact space_not_hex_colon | reflexivity]. }
    cbn [rmatch fst snd].
    eapply star_greedy_run; [exact S6 | reflexivity |].
    rewrite rmatch_lit_i.
    apply rmatch_lazy_gap; [exact S7 | exact space_not_rbrace | reflexivity |].
    rewrite rmatch_lit_i. cbn [rmatch fst snd].
    eapply rmatch_plus_run; [exact N8 | exact S8 | |].
    { apply stops_nonempty; [exact Ni|].
      apply forallb_impl with (p := cls_digit_dot); [|exact Hi].
      intros c Hc. unfold cls_space. destruct (Str.is_space c) eqn:E; [|reflexivity].
      apply space_not_digit_dot in E. congruence. }
    cbn [rmatch fst snd].
    eapply rmatch_plus_run; [exact Ni | exact Hi | |].
    { apply stops_spaces_then; [exact S9 | exact space_not_digit_dot | reflexivity]. }
    cbn [rmatch fst snd].
    eapply star_greedy_run; [exact S9 | reflexivity |].
    rewrite rmatch_lit_i.
    apply rmatch_lazy_gap; [exact S10 | exact space_not_rbrace | reflexivity |].
    rewrite rmatch_lit_i. reflexivity.
  - unfold group. cbn [m_groups m_to lookup_group Nat.eqb].
    rewrite !span_text_app. auto.
Qed.

Lemma first_with_mac_find ms nm :
  first_with_mac ms nm =
  find (fun r => Str.eqb (mac_of r) nm)
       (map (fun x => (group x 1, Str.lower (group x 2), group x 3)) ms).
Proof. induction ms as [|x ms IH]; simpl; [reflexivity|]. unfold mac_of at 1. simpl. now rewrite IH. Qed.

Lemma find_reservation_by_mac_find content mac nm :
  normalize_mac mac = Some nm ->
  find_reservation_by_mac content mac =
  find (fun r => Str.eqb (mac_of r) nm) (extract_all_reservations content).
Proof. intro H. unfold find_reservation_by_mac. rewrite H. apply first_with_mac_find. Qed.

Lemma find_unique_mac (l : list reservation) a m ip :
  In (a, m, ip) l -> NoDup (map mac_of l) ->
  find (fun r => Str.eqb (mac_of r) m) l = Some (a, m, ip).
Proof.
  induction l as [|r l IH]; intros Hin Hnd; [contradiction|]. simpl in *.
  inversion Hnd as [|? ? Hnotin Hnd']. subst.
  destruct Hin as [->|Hin].
  - unfold mac_of at 1. simpl. now rewrite str_eqb_refl.
  - destruct (Str.eqb (mac_of r) m) eqn:E.
    + apply str_eqb_eq in E. exfalso. apply Hnotin. rewrite E.
      change m with (mac_of (a, m, ip)). now apply in_map.
    + now apply IH.
Qed.

(** ** Conflicts *)

(** C2. The conflict check misses a block whose fixed-address statement
    comes first: the text below binds the MAC to [a.example.com], the add
    asks for the same MAC under [b.example.com] in non-interactive mode,
    and instead of the conflict error the code reports a change without
    error and appends a second block for the MAC; the record loop counts
    the record as successful. *)
Lemma add_reservation_conflict_missed :
  let content := txt"host a.example.com {" ++ [nl]
                 ++ txt"  fixed-address 10.0.0.1;" ++ [nl]
                 ++ txt"  hardware ethernet aa:bb:cc:dd:ee:ff;" ++ [nl]
                 ++ txt"}" ++ [nl] in
  let added := build_reservation_block (txt"b") (txt"aa:bb:cc:dd:ee:ff") (txt"10.0.0.2")
                                       (Some (txt"example.com")) in
  content = block_ip_first canonical (txt"a.example.com") (txt"aa:bb:cc:dd:ee:ff")
                           (txt"10.0.0.1") ++ [nl]
  /\ make_fqdn (txt"b") (Some (txt"example.com")) <> txt"a.example.com"
  /\ add_reservation content (txt"b") (txt"aa:bb:cc:dd:ee:ff") (txt"10.0.0.2")
                     (Some (txt"example.com")) false []
     = ((content ++ added, true, None), [])
  /\ process_record Add (txt"example.com") false (MkLoop content 0 0 [])
                    (txt"b", Some (txt"aa:bb:cc:dd:ee:ff"), Some (txt"10.0.0.2"))
     = MkLoop (content ++ added) 1 0 [].
Proof.
  cbv zeta. split; [vm_compute; reflexivity|].
  split; [vm_compute; discriminate|].
  split; vm_compute; reflexivity.
Qed.

(** ** Removal *)

(** C7. Removing a host for which the text holds no reservation block
    returns the text as it was, with the flag false: not found, no error. *)
Theorem remove_reservation_absent_noop content hostname domain :
  ~ has_block content (make_fqdn hostname domain) ->
  remove_reservation content hostname domain = (content, false).
Proof.
  intro Habsent.
  pose proof (find_reservation_block_absent _ _ Habsent) as Hstart.
  unfold remove_reservation.
  destruct (find_reservation_block content (make_fqdn hostname domain)) as [start end_].
  cbn [fst] in Hstart. subst start.
  reflexivity.
Qed.

Lemma remove_reservation_absent_noop_witness :
  remove_reservation
    (build_reservation_block (txt"a") (txt"aa:bb:cc:dd:ee:ff") (txt"10.0.0.1")
                             (Some (txt"example.com")))
    (txt"b") (Some (txt"example.com"))
  = (build_reservation_block (txt"a") (txt"aa:bb:cc:dd:ee:ff") (txt"10.0.0.1")
                             (Some (txt"example.com")), false).
Proof.
  apply remove_reservation_absent_noop.
  intro H. apply has_block_found in H. vm_compute in H. congruence.
Defined.


(** ** Conflict resolution *)

(** C10, amended. When the confirmation is given, the old block is looked
    up under the first label of its name joined with the configured domain;
    whenever the text holds no block under that recomputed name, nothing is
    removed, [add_reservation] returns the error "Failed to remove
    conflicting reservation", and the text is returned as it was. *)
Theorem add_reservation_accepted_removal_fails
        content hostname mac ip domain stdin stdin' e em eip :
  find_reservation_by_mac content mac = Some (e, em, eip) ->
  e <> make_fqdn hostname domain ->
  get_user_confirmation stdin = (true, stdin') ->
  ~ has_block content (make_fqdn (first_label e) domain) ->
  remove_reservation content (first_label e) domain = (content, false)
  /\ add_reservation content hostname mac ip domain true stdin
     = ((content, false, Some (txt"Failed to remove conflicting reservation for " ++ e)),
        stdin').
Proof.
  intros Hfind Hne Hyes Habs.
  pose proof (remove_reservation_absent _ _ _ Habs) as Hrm.
  split; [exact Hrm|].
  unfold add_reservation. rewrite Hfind.
  assert (Str.eqb e (make_fqdn hostname domain) = false) as ->
      by (now apply str_eqb_neq).
  cbn [andb]. rewrite Hyes. cbn [negb]. rewrite Hrm. reflexivity.
Qed.

Lemma add_reservation_accepted_removal_fails_witness :
  let content := build_reservation_block (txt"a") (txt"aa:bb:cc:dd:ee:ff") (txt"10.0.0.1")
                                         (Some (txt"other.com")) in
  remove_reservation content (txt"a") (Some (txt"example.com")) = (content, false)
  /\ add_reservation content (txt"b") (txt"aa:bb:cc:dd:ee:ff") (txt"10.0.0.2")
                     (Some (txt"example.com")) true [txt"yes"]
     = ((content, false,
         Some (txt"Failed to remove conflicting reservation for a.other.com")), []).
Proof.
  refine (add_reservation_accepted_removal_fails
            (build_reservation_block (txt"a") (txt"aa:bb:cc:dd:ee:ff") (txt"10.0.0.1")
                                     (Some (txt"other.com")))
            (txt"b") (txt"aa:bb:cc:dd:ee:ff") (txt"10.0.0.2") (Some (txt"example.com"))
            [txt"yes"] [] (txt"a.other.com") (txt"aa:bb:cc:dd:ee:ff") (txt"10.0.0.1")
            _ _ _ _).
  - vm_compute. reflexivity.
  - vm_compute. discriminate.
  - vm_compute. reflexivity.
  - intro H. apply has_block_found in H. vm_compute in H. congruence.
Defined.

(** C10 as stated fails: the old block [a.other.com] differs from the
    recomputed name [a.example.com], yet the removal finds the block of
    another host that bears the recomputed name, deletes it, and the add goes
    through without error. *)
Lemma add_reservation_accepted_removes_other_block :
  let m1 := txt"aa:bb:cc:dd:ee:ff" in
  let m2 := txt"aa:bb:cc:dd:ee:00" in
  let d := Some (txt"example.com") in
  let content := build_reservation_block (txt"a") m1 (txt"10.0.0.1") (Some (txt"other.com"))
                 ++ build_reservation_block (txt"a") m2 (txt"10.0.0.3") d in
  find_reservation_by_mac content m1 = Some (txt"a.other.com", m1, txt"10.0.0.1")
  /\ txt"a.other.com" <> make_fqdn (txt"b") d
  /\ txt"a.other.com" <> make_fqdn (first_label (txt"a.other.com")) d
  /\ get_user_confirmation [txt"yes"] = (true, [])
  /\ remove_reservation content (first_label (txt"a.other.com")) d
     = (build_reservation_block (txt"a") m1 (txt"10.0.0.1") (Some (txt"other.com")), true)
  /\ add_reservation content (txt"b") m1 (txt"10.0.0.2") d true [txt"yes"]
     = ((build_reservation_block (txt"a") m1 (txt"10.0.0.1") (Some (txt"other.com"))
         ++ build_reservation_block (txt"b") m1 (txt"10.0.0.2") d, true, None), []).
Proof.
  cbv zeta. repeat split; try (vm_compute; reflexivity); vm_compute; discriminate.
Qed.

(** ** Normalised MAC addresses *)

Lemma hex_or_colon_facts c :
  (cls_hex c || Ascii.eqb c ":")%bool = true ->
  cls_hex_colon_i c = true /\ Str.lower_char c = c /\ cls_not_rbrace c = true
  /\ Str.is_space c = false.
Proof. ascii_cases c; intros _; repeat split. Qed.

Lemma fullmatch_mac_chars s :
  fullmatch mac_regex s = true ->
  s <> [] /\ forallb (fun c => cls_hex c || Ascii.eqb c ":")%bool s = true.
Proof.
  unfold fullmatch. intro H.
  destruct (rmatch mac_regex (true, s) [] _) as [u|] eqn:E; [|discriminate]. clear H.
  apply rmatch_sound in E as (c' & g' & L & K).
  destruct c' as [b' s']. cbn [snd] in K. destruct s'; [|discriminate]. clear K.
  unfold mac_regex in L. cbn [lang times] in L.
  repeat match goal with
         | H : exists _, _ |- _ => destruct H
         | H : _ /\ _ |- _ => destruct H
         end.
  repeat match goal with
         | H : Ascii.eqb _ _ = true |- _ => apply Ascii.eqb_eq in H
         end.
  subst. cbn [snd fst] in *.
  repeat match goal with
         | H : snd ?c = _ |- _ => destruct c; cbn [snd fst] in H
         end.
  subst. cbn [snd forallb].
  repeat match goal with
         | H : cls_hex _ = true |- _ => rewrite H; clear H
         end.
  split; [discriminate|reflexivity].
Qed.

Lemma map_fixed (f : ascii -> ascii) s :
  (forall c, In c s -> f c = c) -> map f s = s.
Proof.
  induction s as [|a s IH]; intro H; simpl; [reflexivity|].
  rewrite H by (now left). f_equal. apply IH. intros c Hc. apply H. now right.
Qed.

Lemma normalize_mac_shape m m' :
  normalize_mac m = Some m' ->
  m' <> [] /\ forallb cls_hex_colon_i m' = true /\ Str.lower m' = m'
  /\ forallb cls_not_rbrace m' = true.
Proof.
  unfold normalize_mac.
  destruct (fullmatch mac_regex _) eqn:E; [|discriminate]. cbn [negb].
  intro H. injection H as <-.
  apply fullmatch_mac_chars in E as [Hne Hall]. split; [exact Hne|].
  rewrite forallb_forall in Hall.
  repeat split.
  - apply forallb_forall. intros c Hc. now apply hex_or_colon_facts, Hall.
  - apply map_fixed. intros c Hc. now apply hex_or_colon_facts, Hall.
  - apply forallb_forall. intros c Hc. now apply hex_or_colon_facts, Hall.
Qed.

(** ** Names *)

Lemma make_fqdn_some hostname d :
  d <> [] ->
  make_fqdn hostname (Some d)
  = if Str.endswith hostname ("." :: d) then hostname else hostname ++ "." :: d.
Proof.
  intro Hd. unfold make_fqdn. destruct d; [congruence|]. cbn [Str.truthy andb].
  now destruct (Str.endswith hostname _).
Qed.

Lemma make_fqdn_nonspace hostname d :
  hostname <> [] -> forallb cls_nonspace hostname = true ->
  forallb cls_nonspace d = true ->
  make_fqdn hostname (Some d) <> []
  /\ forallb cls_nonspace (make_fqdn hostname (Some d)) = true.
Proof.
  intros Hne Hh Hd. unfold make_fqdn.
  destruct (_ && _)%bool.
  - split; [now destruct hostname|].
    rewrite forallb_app, Hh. cbn [forallb]. now rewrite Hd.
  - auto.
Qed.

Lemma build_reservation_block_canonical hostname mac ip domain :
  build_reservation_block hostname mac ip domain
  = block_hw_first canonical (make_fqdn hostname domain) mac ip ++ [nl].
Proof.
  unfold build_reservation_block, block_hw_first, canonical.
  cbn [sp_name sp_brace sp_body sp_hw sp_eth sp_semi1 sp_mid sp_fixed sp_semi2 sp_end].
  rewrite <- !app_assoc. reflexivity.
Qed.

Lemma canonical_wf : wf_layout canonical = true.
Proof. reflexivity. Qed.

(** ** Extraction *)

Lemma finditer_from_hit r bol u v x :
  u <> [] -> match_here r (bol, u ++ v) = Some x -> m_to x = v ->
  finditer_from r bol (u ++ v) 0 = x :: finditer_from r (advance bol u) v 0.
Proof.
  destruct u as [|a u]; [congruence|]. intros _ H E. cbn [finditer_from app].
  cbn [app] in H. rewrite H, E. f_equal.
  replace (length (a :: u ++ v) - length v - 1) with (length u)
    by (cbn [length]; rewrite length_app; lia).
  cbn [advance]. apply finditer_from_skip.
Qed.

Lemma reservation_regex_needs_host bol t :
  match t with
  | c :: _ => Ascii.eqb (Str.lower_char c) "h" = false
  | [] => True
  end ->
  match_here reservation_regex (bol, t) = None.
Proof.
  destruct t as [|c t]; intro H; [reflexivity|].
  unfold match_here, reservation_regex. cbn [seqs rmatch].
  now apply rmatch_lit_i_head.
Qed.

Lemma finditer_final_newline bol :
  finditer_from reservation_regex bol [nl] 0 = [].
Proof. reflexivity. Qed.

Lemma block_hw_first_nonempty l name mac ip : block_hw_first l name mac ip <> [].
Proof. unfold block_hw_first. discriminate. Qed.

Lemma extract_one_block l name mac ip :
  wf_layout l = true ->
  name <> [] -> forallb cls_nonspace name = true ->
  mac <> [] -> forallb cls_hex_colon_i mac = true ->
  ip <> [] -> forallb cls_digit_dot ip = true ->
  extract_all_reservations (block_hw_first l name mac ip ++ [nl])
  = [(name, Str.lower mac, ip)].
Proof.
  intros Hl Nn Hn Nm Hm Ni Hi.
  destruct (reservation_regex_block l name mac ip true [nl] Hl Nn Hn Nm Hm Ni Hi)
    as (x & Hx & G1 & G2 & G3 & Hto).
  unfold extract_all_reservations, finditer.
  rewrite (finditer_from_hit _ _ _ _ _ (block_hw_first_nonempty l name mac ip) Hx Hto).
  rewrite finditer_final_newline. cbn [map]. now rewrite G1, G2, G3.
Qed.

(** C5, amended. For a non-empty host name and a non-empty domain, both
    free of white space, a normalised MAC and a valid IP written with digits
    and dots only, extracting the reservations of the block that
    [build_reservation_block] writes gives back exactly the one triple, under
    the name completed with the domain unless it already ends with it. *)
Theorem extract_build_round_trip h m i d :
  h <> [] -> forallb cls_nonspace h = true ->
  d <> [] -> forallb cls_nonspace d = true ->
  normalize_mac m = Some m ->
  validate_ip_address i = true -> forallb cls_digit_dot i = true ->
  extract_all_reservations (build_reservation_block h m i (Some d))
  = [(if Str.endswith h ("." :: d) then h else h ++ "." :: d, m, i)].
Proof.
  intros Hh Hhs Hd Hds Hm Hv Hi.
  destruct (normalize_mac_shape _ _ Hm) as (Nm & Hmc & Hlow & _).
  destruct (make_fqdn_nonspace h d Hh Hhs Hds) as [Nf Hf].
  assert (Ni : i <> []) by (intros ->; vm_compute in Hv; discriminate).
  rewrite build_reservation_block_canonical.
  rewrite (extract_one_block canonical _ _ _ canonical_wf Nf Hf Nm Hmc Ni Hi).
  now rewrite Hlow, (make_fqdn_some h d Hd).
Qed.

Lemma extract_build_round_trip_witness :
  extract_all_reservations
    (build_reservation_block (txt"server01") (txt"00:11:22:33:44:55") (txt"192.168.1.100")
                             (Some (txt"macfarm.example.com")))
  = [(txt"server01.macfarm.example.com", txt"00:11:22:33:44:55", txt"192.168.1.100")].
Proof.
  refine (extract_build_round_trip (txt"server01") (txt"00:11:22:33:44:55")
            (txt"192.168.1.100") (txt"macfarm.example.com") _ _ _ _ _ _ _);
    vm_compute; try reflexivity; discriminate.
Defined.

(** C5 as stated fails: ["+1.2.3.4"] passes [validate_ip_address], but the
    block written for it is not read back; nor is a block whose domain holds
    a space. *)
Lemma extract_build_round_trip_fails :
  let h := txt"server01" in
  let m := txt"00:11:22:33:44:55" in
  (h <> [] /\ forallb (fun c => negb (Str.is_space c || Ascii.eqb c "{" || Ascii.eqb c "}")) h = true
   /\ normalize_mac m = Some m /\ validate_ip_address (txt"+1.2.3.4") = true
   /\ extract_all_reservations
        (build_reservation_block h m (txt"+1.2.3.4") (Some (txt"example.com"))) = [])
  /\ (validate_ip_address (txt"10.0.0.1") = true
      /\ extract_all_reservations
           (build_reservation_block h m (txt"10.0.0.1") (Some (txt"my domain"))) = []).
Proof.
  cbv zeta. repeat split; try (vm_compute; reflexivity). vm_compute. discriminate.
Qed.

(** ** Documents *)

Lemma has_host_kw_suffix u1 u2 :
  has_host_kw (u1 ++ u2) = false -> has_host_kw u2 = false.
Proof.
  induction u1 as [|a u1 IH]; intro H; [exact H|].
  cbn [app has_host_kw] in H. apply orb_false_iff in H as [_ H]. now apply IH.
Qed.

Lemma has_host_kw_here s : has_host_kw s = false -> host_kw s = false.
Proof. destruct s; cbn [has_host_kw]; intro H; now apply orb_false_iff in H as [H _]. Qed.

Lemma host_kw_straddle u t :
  u <> [] -> host_kw u = false -> host_kw (u ++ txt"host" ++ t) = false.
Proof.
  intros Hne H.
  destruct u as [|a1 [|a2 [|a3 [|a4 [|a5 u]]]]]; [congruence| | | | |exact H];
    cbn [app host_kw list_ascii_of_string];
    repeat rewrite andb_false_r; repeat rewrite andb_false_l; reflexivity.
Qed.

Lemma reservation_regex_needs_kw bol t :
  host_kw t = false -> match_here reservation_regex (bol, t) = None.
Proof.
  intro H. unfold match_here, reservation_regex. cbn [seqs rmatch].
  destruct t as [|c1 [|c2 [|c3 [|c4 [|c5 t]]]]];
    cbn [lit_i list_ascii_of_string rmatch snd fst plus step_over];
    try fold (eq_ci c1 "h"); try fold (eq_ci c2 "o"); try fold (eq_ci c3 "s");
    try fold (eq_ci c4 "t");
    repeat match goal with
           | |- (if ?b then _ else None) = None => destruct b eqn:?; [|reflexivity]
           | |- (match ?b with true => _ | false => None end) = None =>
               destruct b eqn:?; [|reflexivity]
           end; try reflexivity.
  cbn [host_kw] in H.
  repeat match goal with E : eq_ci _ _ = true |- _ => rewrite E in H; clear E end.
  cbn [andb] in H. unfold cls_space in *. congruence.
Qed.

Lemma readable_fields r :
  readable r = true ->
  name_of r <> [] /\ forallb cls_nonspace (name_of r) = true
  /\ mac_of r <> [] /\ forallb cls_hex_colon_i (mac_of r) = true
  /\ ip_of r <> [] /\ forallb cls_digit_dot (ip_of r) = true.
Proof.
  unfold readable. intro H. repeat (apply andb_true_iff in H as [H ?]).
  assert (T : forall s, Str.truthy s = true -> s <> []) by (intros [|] ?; discriminate).
  repeat split; auto.
Qed.

Lemma wf_item_fields it :
  wf_item it = true ->
  has_host_kw (it_gap it) = false /\ wf_layout (it_layout it) = true
  /\ readable (it_res it) = true.
Proof.
  unfold wf_item. intro H. repeat (apply andb_true_iff in H as [H ?]).
  apply negb_true_iff in H. auto.
Qed.

Lemma finditer_quiet_tail bol tail :
  has_host_kw tail = false -> finditer_from reservation_regex bol tail 0 = [].
Proof.
  intro H. rewrite <- (app_nil_r tail). rewrite finditer_from_miss.
  - reflexivity.
  - intros u1 u2 -> Hne. rewrite app_nil_r. apply reservation_regex_needs_kw.
    now apply has_host_kw_here, has_host_kw_suffix with (u1 := u1).
Qed.

Lemma finditer_quiet_gap bol gap l name mac ip rest :
  has_host_kw gap = false ->
  finditer_from reservation_regex bol (gap ++ block_hw_first l name mac ip ++ rest) 0
  = finditer_from reservation_regex (advance bol gap)
                  (block_hw_first l name mac ip ++ rest) 0.
Proof.
  intro H. apply finditer_from_miss.
  intros u1 u2 -> Hne. apply reservation_regex_needs_kw.
  unfold block_hw_first. rewrite <- !app_assoc.
  apply host_kw_straddle; [exact Hne|].
  now apply has_host_kw_here, has_host_kw_suffix with (u1 := u1).
Qed.

Lemma render_doc_cons it items tail :
  render_doc (it :: items) tail
  = it_gap it ++ block_hw_first (it_layout it) (name_of (it_res it)) (mac_of (it_res it))
                                (ip_of (it_res it)) ++ render_doc items tail.
Proof. unfold render_doc, render_item. cbn [map concat]. now rewrite <- !app_assoc. Qed.

Lemma extract_doc_from items tail : forall bol,
  Forall (fun it => wf_item it = true) items -> has_host_kw tail = false ->
  map (fun x => (group x 1, Str.lower (group x 2), group x 3))
      (finditer_from reservation_regex bol (render_doc items tail) 0)
  = map (fun it => reported (it_res it)) items.
Proof.
  induction items as [|it items IH]; intros bol Hwf Htail.
  - unfold render_doc. cbn [map concat app]. now rewrite finditer_quiet_tail.
  - inversion Hwf as [|? ? Hit Hwf']. subst.
    destruct (wf_item_fields _ Hit) as (Hgap & Hl & Hr).
    destruct (readable_fields _ Hr) as (Nn & Hn & Nm & Hm & Ni & Hi).
    rewrite render_doc_cons, (finditer_quiet_gap _ _ _ _ _ _ _ Hgap).
    destruct (reservation_regex_block (it_layout it) _ _ _ (advance bol (it_gap it))
                (render_doc items tail) Hl Nn Hn Nm Hm Ni Hi)
      as (x & Hx & G1 & G2 & G3 & Hto).
    rewrite (finditer_from_hit _ _ _ _ _ (block_hw_first_nonempty _ _ _ _) Hx Hto).
    cbn [map]. rewrite G1, G2, G3, IH by assumption. reflexivity.
Qed.

Lemma extract_doc items tail :
  Forall (fun it => wf_item it = true) items -> has_host_kw tail = false ->
  extract_all_reservations (render_doc items tail)
  = map (fun it => reported (it_res it)) items.
Proof. intros. unfold extract_all_reservations, finditer. now apply extract_doc_from. Qed.

Lemma reported_normalized r :
  normalize_mac (mac_of r) = Some (mac_of r) -> reported r = r.
Proof.
  intro H. destruct (normalize_mac_shape _ _ H) as (_ & _ & Hlow & _).
  destruct r as [[n m] i]. unfold reported, name_of, mac_of, ip_of in *.
  cbn [fst snd] in *. now rewrite Hlow.
Qed.

(** X25. Recognition of a block with the hardware statement first does not
    depend on the white space around its parts: in a text made of blocks
    [host <fqdn> { hardware ethernet <mac>; fixed-address <ip>; }] in any
    white-space layout with the name set off from the brace, each preceded
    by text without the [host] keyword, [extract_all_reservations] includes
    the triple of every block, and [find_reservation_by_mac] returns it when
    MAC values are unique. *)
Theorem block_recognition_hardware_first items tail it :
  Forall (fun it => wf_item it = true) items ->
  has_host_kw tail = false ->
  In it items ->
  normalize_mac (mac_of (it_res it)) = Some (mac_of (it_res it)) ->
  In (it_res it) (extract_all_reservations (render_doc items tail))
  /\ (NoDup (map (fun it => Str.lower (mac_of (it_res it))) items) ->
      find_reservation_by_mac (render_doc items tail) (mac_of (it_res it))
      = Some (it_res it)).
Proof.
  intros Hwf Htail Hin Hmac.
  pose proof (extract_doc items tail Hwf Htail) as Hex.
  assert (Hmem : In (it_res it) (extract_all_reservations (render_doc items tail))).
  { rewrite Hex. rewrite <- (reported_normalized _ Hmac) at 1.
    now apply in_map with (f := fun it => reported (it_res it)). }
  split; [exact Hmem|].
  intro Hnd.
  rewrite (find_reservation_by_mac_find _ _ _ Hmac).
  destruct (it_res it) as [[n m] i] eqn:Er. unfold mac_of at 1. cbn [fst snd] in *.
  apply find_unique_mac; [exact Hmem|].
  rewrite Hex, map_map. exact Hnd.
Qed.

Lemma block_recognition_hardware_first_witness :
  let spread := MkLayout (txt"   ") [nl] (txt" ") (txt"  ") (txt" ") (txt" ") [nl]
                         (txt" ") [] (txt" ") in
  let first := MkItem (txt"# lab machines" ++ [nl]) canonical
                      (txt"a.example.com", txt"aa:bb:cc:dd:ee:ff", txt"10.0.0.1") in
  let second := MkItem [nl; nl] spread
                       (txt"b.example.com", txt"aa:bb:cc:dd:ee:00", txt"10.0.0.2") in
  In (it_res second) (extract_all_reservations (render_doc [first; second] [nl]))
  /\ (NoDup (map (fun it => Str.lower (mac_of (it_res it))) [first; second]) ->
      find_reservation_by_mac (render_doc [first; second] [nl]) (mac_of (it_res second))
      = Some (it_res second)).
Proof.
  cbv zeta.
  apply block_recognition_hardware_first.
  - repeat constructor.
  - reflexivity.
  - right. left. reflexivity.
  - vm_compute. reflexivity.
Defined.

(** C3. With the fixed-address statement first, a block is not recognised
    by the reservation pattern: [extract_all_reservations] lists nothing and
    [find_reservation_by_mac] finds nothing, although the lookup by name,
    [find_reservation_block], finds the same block from its first to its
    last character. *)
Lemma block_recognition_ip_first_fails :
  let content := txt"host a.example.com {" ++ [nl]
                 ++ txt"  fixed-address 10.0.0.1;" ++ [nl]
                 ++ txt"  hardware ethernet aa:bb:cc:dd:ee:ff;" ++ [nl]
                 ++ txt"}" ++ [nl] in
  content = block_ip_first canonical (txt"a.example.com") (txt"aa:bb:cc:dd:ee:ff")
                           (txt"10.0.0.1") ++ [nl]
  /\ extract_all_reservations content = []
  /\ find_reservation_by_mac content (txt"aa:bb:cc:dd:ee:ff") = None
  /\ find_reservation_block content (txt"a.example.com")
     = (0%Z, Z.of_nat (length content)).
Proof. cbv zeta. repeat split; vm_compute; reflexivity. Qed.

(** ** The pipeline *)

Lemma fs_write_same path content fs : fs_write path content fs path = Some content.
Proof. unfold fs_write. now rewrite str_eqb_refl. Qed.

Lemma fs_write_other path content fs p :
  p <> path -> fs_write path content fs p = fs p.
Proof. intro H. unfold fs_write. apply str_eqb_neq in H. now rewrite H. Qed.

Lemma backup_path_fresh config_path ts :
  config_path <> config_path ++ txt"." ++ ts ++ txt".bak".
Proof.
  intro H. apply (f_equal (@length ascii)) in H.
  rewrite !length_app in H. cbn [length list_ascii_of_string] in H. lia.
Qed.

Lemma process_record_counts act d im st r :
  let st' := process_record act d im st r in
  (ok st' = S (ok st) /\ fail st' = fail st)
  \/ (ok st' = ok st /\ fail st' = S (fail st) /\ buf st' = buf st).
Proof.
  destruct r as [[hostname mac] ip]. unfold process_record.
  destruct act.
  - destruct (add_reservation _ _ _ _ _ _ _) as [[[new_content changed] error] stdin'].
    destruct (opt_truthy error); [right; auto|].
    destruct changed; left; auto.
  - destruct (remove_reservation _ _ _) as [new_content changed].
    destruct changed; left; auto.
  - destruct (remove_reservation _ _ _) as [new_content changed].
    destruct changed; left; auto.
Qed.

Lemma process_records_counts act d im records : forall st,
  let st' := process_records act d im records st in
  ok st' + fail st' = ok st + fail st + length records.
Proof.
  unfold process_records.
  induction records as [|r records IH]; intro st; cbn [fold_left length]; [lia|].
  rewrite IH.
  destruct (process_record_counts act d im st r) as [[H1 H2]|(H1 & H2 & _)]; lia.
Qed.

Lemma process_records_app act d im rs1 rs2 st :
  process_records act d im (rs1 ++ rs2) st
  = process_records act d im rs2 (process_records act d im rs1 st).
Proof. apply fold_left_app. Qed.


Lemma run_batch_exit_zero e a config_path domain records w :
  fst (run_batch e a config_path domain records w) = 0%Z <->
  exists content,
    read_ok e = true /\ files w config_path = Some content
    /\ (arg_skip_validation a = true \/ oracle e content = true)
    /\ (arg_no_backup a = true \/ backup_ok e = true)
    /\ write_ok e = true
    /\ let st := process_records (arg_action a) domain (negb (arg_non_interactive a))
                                 records (MkLoop content 0 0 (stdin w)) in
       (arg_skip_validation a = true \/ oracle e (buf st) = true)
       /\ fail st = 0.
Proof.
  unfold run_batch, load_config_text, validate_dhcpd_syntax, make_backup, save_config_text.
  cbv zeta.
  split.
  - destruct (read_ok e); [|cbn [negb andb fst] in *; discriminate].
    destruct (files w config_path) as [content|] eqn:Ef; [|cbn [negb andb fst] in *; discriminate].
    intro H. exists content.
    destruct (arg_skip_validation a) eqn:Eskip; cbn [negb andb] in H.
    + destruct (arg_no_backup a) eqn:Enb; cbn [negb] in H.
      * destruct (write_ok e); [|cbn [negb andb fst] in *; discriminate]. cbn [fst] in H.
        destruct (Nat.eqb _ 0) eqn:Ez; [|cbn [negb andb fst] in *; discriminate]. apply Nat.eqb_eq in Ez.
        repeat split; auto.
      * destruct (backup_ok e); [|cbn [negb andb fst] in *; discriminate]. cbn [stdin files] in H.
        destruct (write_ok e); [|cbn [negb andb fst] in *; discriminate]. cbn [fst] in H.
        destruct (Nat.eqb _ 0) eqn:Ez; [|cbn [negb andb fst] in *; discriminate]. apply Nat.eqb_eq in Ez.
        repeat split; auto.
    + destruct (oracle e content) eqn:Epre; cbn [negb] in H; [|cbn [negb andb fst] in *; discriminate].
      destruct (arg_no_backup a) eqn:Enb; cbn [negb] in H.
      * destruct (write_ok e); [|cbn [negb andb fst] in *; discriminate]. cbn [files] in H.
        rewrite fs_write_same in H.
        destruct (oracle e (buf _)) eqn:Epost; cbn [negb fst] in H; [|cbn [negb andb fst] in *; discriminate].
        destruct (Nat.eqb _ 0) eqn:Ez; [|cbn [negb andb fst] in *; discriminate]. apply Nat.eqb_eq in Ez.
        repeat split; auto.
      * destruct (backup_ok e); [|cbn [negb andb fst] in *; discriminate]. cbn [stdin files] in H.
        destruct (write_ok e); [|cbn [negb andb fst] in *; discriminate]. cbn [files] in H.
        rewrite fs_write_same in H.
        destruct (oracle e (buf _)) eqn:Epost; cbn [negb fst] in H.
        -- destruct (Nat.eqb _ 0) eqn:Ez; [|cbn [negb andb fst] in *; discriminate]. apply Nat.eqb_eq in Ez.
           repeat split; auto.
        -- destruct (isfile _ _); cbn [fst] in H; discriminate.
  - intros (content & -> & -> & Hpre & Hbk & -> & Hpost & Hfail).
    assert (Ev1 : (negb (arg_skip_validation a) && negb (oracle e content))%bool = false).
    { destruct Hpre as [->| ->]; [reflexivity|apply andb_false_r]. }
    rewrite Ev1.
    assert (Eb : exists bp w1,
               (if negb (arg_no_backup a)
                then if backup_ok e
                     then Some (Some (config_path ++ txt"." ++ clock e ++ txt".bak"),
                                MkWorld (fs_write (config_path ++ txt"." ++ clock e ++ txt".bak")
                                                  content (files w)) (stdin w))
                     else None
                else Some (None, w)) = Some (bp, w1) /\ stdin w1 = stdin w).
    { destruct Hbk as [->| ->].
      - exists None, w. auto.
      - destruct (arg_no_backup a); cbn [negb]; eauto. }
    destruct Eb as (bp & w1 & Eb & Es).
    match goal with |- context [match ?x with Some _ => _ | None => (1%Z, w) end] =>
      replace x with (Some (bp, w1)) end.
    2:{ rewrite <- Eb. destruct (negb (arg_no_backup a)); [|reflexivity].
        destruct (backup_ok e); reflexivity. }
    rewrite Es. cbn [files]. rewrite fs_write_same.
    assert (Ev2 : (negb (arg_skip_validation a)
                   && negb (oracle e (buf (process_records (arg_action a) domain
                            (negb (arg_non_interactive a)) records
                            (MkLoop content 0 0 (stdin w))))))%bool = false).
    { destruct Hpost as [->| ->]; [reflexivity|apply andb_false_r]. }
    rewrite Ev2. cbn [fst]. cbv zeta in Hfail. now rewrite Hfail.
Qed.

Lemma run_batch_exit_binary e a config_path domain records w :
  fst (run_batch e a config_path domain records w) = 0%Z
  \/ fst (run_batch e a config_path domain records w) = 1%Z.
Proof.
  unfold run_batch. cbv zeta.
  destruct (load_config_text e w config_path); [|now right].
  destruct (_ && _)%bool; [now right|].
  destruct (if negb (arg_no_backup a) then _ else _) as [[bp w1]|]; [|now right].
  destruct (save_config_text _ _ _ _); [|now right].
  destruct (_ && _)%bool.
  - destruct bp; [destruct (isfile _ _)|]; now right.
  - cbn [fst]. destruct (Nat.eqb _ 0); auto.
Qed.

Lemma main_exit_zero e a w :
  arg_action a <> Export ->
  let config_path :=
    or_empty (opt_or (arg_config_file a)
                     (opt_or (env_conf_path e) (Some (default_conf_path e)))) in
  let domain :=
    or_empty (opt_or (arg_domain a)
                     (opt_or (env_domain e) (Some (txt"macfarm.example.com")))) in
  fst (main e a w) = 0%Z <->
  isfile w config_path = true
  /\ exists records, determine_records e a = Some records
                     /\ fst (run_batch e a config_path domain records w) = 0%Z.
Proof.
  intros Hact. cbv zeta. unfold main.
  destruct (isfile w _) eqn:Ei; cbn [negb].
  - destruct (arg_action a) eqn:Ea; [| |congruence];
      (destruct (determine_records e a) as [records|] eqn:Ed;
       [split; [intro H; split; [reflexivity|]; exists records; auto
               | intros (_ & records' & Er & H); injection Er as <-; exact H]
       |split; [discriminate | intros (_ & ? & ? & _); discriminate]]).
  - split; [discriminate | intros [? _]; discriminate].
Qed.

(** C8. A record that fails (conflict, declined confirmation, or any other
    per-record error) leaves the buffer as it was and adds one to the
    failure count, a record that succeeds adds one to the success count, so
    every record of the batch gets exactly one outcome; a successful add or
    remove that changed the text makes the text it returned the buffer, and
    whatever the outcome of a record the records after it are processed
    from the state it left, buffer, counters and terminal; and the exit
    code is 0 exactly when no pipeline-level error occurred (the
    configuration was read, the syntax check passed before and after, the
    backup and the write went through) and no record failed, and 1
    otherwise. *)
Theorem batch_outcomes_and_exit_code e a config_path domain records w :
  (forall act im st r,
      let st' := process_record act domain im st r in
      (ok st' = S (ok st) /\ fail st' = fail st)
      \/ (ok st' = ok st /\ fail st' = S (fail st) /\ buf st' = buf st))
  /\ (forall im st hostname mac ip,
         let res := add_reservation (buf st) hostname (or_empty mac) (or_empty ip)
                                    (Some domain) im (term st) in
         let new_content := fst (fst (fst res)) in
         let changed := snd (fst (fst res)) in
         let error := snd (fst res) in
         let st' := process_record Add domain im st (hostname, mac, ip) in
         term st' = snd res
         /\ (opt_truthy error = true ->
             buf st' = buf st /\ ok st' = ok st /\ fail st' = S (fail st))
         /\ (opt_truthy error = false ->
             buf st' = (if changed then new_content else buf st)
             /\ ok st' = S (ok st) /\ fail st' = fail st))
  /\ (forall act im st hostname mac ip,
         act <> Add ->
         let res := remove_reservation (buf st) hostname (Some domain) in
         let st' := process_record act domain im st (hostname, mac, ip) in
         buf st' = (if snd res then fst res else buf st)
         /\ ok st' = S (ok st) /\ fail st' = fail st /\ term st' = term st)
  /\ (forall act im r rs st,
         process_records act domain im (r :: rs) st
         = process_records act domain im rs (process_record act domain im st r))
  /\ (forall act im rs st,
         let st' := process_records act domain im rs st in
         ok st' + fail st' = ok st + fail st + length rs)
  /\ (forall act im rs1 rs2 st,
         process_records act domain im (rs1 ++ rs2) st
         = process_records act domain im rs2 (process_records act domain im rs1 st))
  /\ (fst (run_batch e a config_path domain records w) = 0%Z <->
      exists content,
        read_ok e = true /\ files w config_path = Some content
        /\ (arg_skip_validation a = true \/ oracle e content = true)
        /\ (arg_no_backup a = true \/ backup_ok e = true)
        /\ write_ok e = true
        /\ let st := process_records (arg_action a) domain (negb (arg_non_interactive a))
                                     records (MkLoop content 0 0 (stdin w)) in
           (arg_skip_validation a = true \/ oracle e (buf st) = true)
           /\ fail st = 0)
  /\ (fst (run_batch e a config_path domain records w) = 0%Z
      \/ fst (run_batch e a config_path domain records w) = 1%Z)
  /\ (arg_action a <> Export ->
      fst (main e a w) = 0%Z ->
      exists records',
        determine_records e a = Some records'
        /\ fst (run_batch e a
                  (or_empty (opt_or (arg_config_file a)
                                    (opt_or (env_conf_path e) (Some (default_conf_path e)))))
                  (or_empty (opt_or (arg_domain a)
                                    (opt_or (env_domain e)
                                            (Some (txt"macfarm.example.com")))))
                  records' w) = 0%Z).
Proof.
  split; [intros; apply process_record_counts|].
  split.
  { intros im st hostname mac ip. cbv zeta. unfold process_record.
    destruct (add_reservation (buf st) hostname (or_empty mac) (or_empty ip)
                              (Some domain) im (term st))
      as [[[new_content changed] error] stdin'].
    cbn [fst snd]. destruct (opt_truthy error); cbn [term buf ok fail].
    - split; [reflexivity|]. split; [auto|discriminate].
    - destruct changed; cbn [term buf ok fail];
        (split; [reflexivity|]; split; [discriminate|auto]). }
  split.
  { intros act im st hostname mac ip Hact. cbv zeta. unfold process_record.
    destruct act; [contradiction| |];
      destruct (remove_reservation (buf st) hostname (Some domain)) as [nc ch];
      destruct ch; cbn [fst snd buf ok fail term]; auto. }
  split; [reflexivity|].
  split; [intros; apply process_records_counts|].
  split; [intros; apply process_records_app|].
  split; [apply run_batch_exit_zero|].
  split; [apply run_batch_exit_binary|].
  intros Hact H. apply (main_exit_zero e a w Hact) in H as [_ H]. exact H.
Qed.

Lemma load_config_text_some e w config_path content :
  load_config_text e w config_path = Some content ->
  read_ok e = true /\ files w config_path = Some content.
Proof. unfold load_config_text. destruct (read_ok e); [auto|discriminate]. Qed.

(** C1. When the syntax check of the file written after the mutations
    fails: if a backup was taken at the start of the run (and the copy back
    goes through), the file holds again exactly its content from before the
    run and the exit code is 1; if the backup was opted out, the exit code
    is 1 and the file keeps the content that failed the check. *)
Theorem rollback_on_invalid_result e a config_path domain records w content :
  load_config_text e w config_path = Some content ->
  arg_skip_validation a = false ->
  oracle e content = true ->
  write_ok e = true ->
  let st := process_records (arg_action a) domain (negb (arg_non_interactive a))
                            records (MkLoop content 0 0 (stdin w)) in
  oracle e (buf st) = false ->
  (arg_no_backup a = false -> backup_ok e = true -> restore_ok e = true ->
   fst (run_batch e a config_path domain records w) = 1%Z
   /\ files (snd (run_batch e a config_path domain records w)) config_path = Some content
   /\ files (snd (run_batch e a config_path domain records w))
            (config_path ++ txt"." ++ clock e ++ txt".bak") = Some content)
  /\ (arg_no_backup a = true ->
      fst (run_batch e a config_path domain records w) = 1%Z
      /\ files (snd (run_batch e a config_path domain records w)) config_path
         = Some (buf st)).
Proof.
  intros Hload Hskip Hpre Hwrite st Hpost.
  destruct (load_config_text_some _ _ _ _ Hload) as [Hread Hfile].
  assert (Hfresh := backup_path_fresh config_path (clock e)).
  assert (Hv : validate_dhcpd_syntax e w config_path = true)
    by (unfold validate_dhcpd_syntax; now rewrite Hfile).
  assert (Hb : forall c fs, fs_write config_path c fs
                             (config_path ++ txt"." ++ clock e ++ txt".bak")
                            = fs (config_path ++ txt"." ++ clock e ++ txt".bak"))
    by (intros; apply fs_write_other; exact (not_eq_sym Hfresh)).
  split.
  - intros Hnb Hbk Hrs.
    assert (E : run_batch e a config_path domain records w
                = (1%Z, MkWorld (fs_write config_path content
                                   (fs_write config_path (buf st)
                                      (fs_write (config_path ++ txt"." ++ clock e ++ txt".bak")
                                                content (files w))))
                                (term st))).
    { unfold run_batch. rewrite Hload, Hv, Hskip, Hnb. cbn [negb andb].
      unfold make_backup. rewrite Hfile, Hbk. cbv zeta. cbn [stdin files].
      fold st. unfold save_config_text. rewrite Hwrite. cbn [files].
      unfold validate_dhcpd_syntax. cbn [files]. rewrite fs_write_same, Hpost.
      cbn [negb andb]. unfold isfile, restore_from_backup. cbn [files stdin].
      rewrite !Hb, !fs_write_same, Hrs. reflexivity. }
    rewrite E. cbn [fst snd files]. rewrite Hb, Hb, !fs_write_same. auto.
  - intros Hnb.
    assert (E : run_batch e a config_path domain records w
                = (1%Z, MkWorld (fs_write config_path (buf st) (files w)) (term st))).
    { unfold run_batch. rewrite Hload, Hv, Hskip, Hnb. cbn [negb andb].
      cbv zeta. fold st. unfold save_config_text. rewrite Hwrite. cbn [files].
      unfold validate_dhcpd_syntax. cbn [files]. rewrite fs_write_same, Hpost.
      reflexivity. }
    rewrite E. cbn [fst snd files]. rewrite fs_write_same. auto.
Qed.

Lemma rollback_on_invalid_result_witness :
  let e := demo_env (fun c => Str.eqb c demo_content) in
  let r := run_batch e (demo_args false) demo_path (txt"example.com") demo_records
                     demo_world in
  fst r = 1%Z
  /\ files (snd r) demo_path = Some demo_content
  /\ files (snd r) (demo_path ++ txt"." ++ clock e ++ txt".bak") = Some demo_content.
Proof.
  cbv zeta.
  refine (proj1 (rollback_on_invalid_result
                   (demo_env (fun c => Str.eqb c demo_content)) (demo_args false)
                   demo_path (txt"example.com") demo_records demo_world demo_content
                   _ _ _ _ _) _ _ _); vm_compute; reflexivity.
Defined.

Lemma batch_outcomes_and_exit_code_witness :
  let e := demo_env (fun _ => true) in
  let st := process_records Add (txt"example.com") false demo_records
                            (MkLoop demo_content 0 0 []) in
  ok st = 2 /\ fail st = 1
  /\ buf st = demo_content
              ++ build_reservation_block (txt"b") (txt"aa:bb:cc:dd:ee:02") (txt"10.0.0.2")
                                         (Some (txt"example.com"))
              ++ build_reservation_block (txt"d") (txt"aa:bb:cc:dd:ee:04") (txt"10.0.0.4")
                                         (Some (txt"example.com"))
  /\ fst (run_batch e (demo_args false) demo_path (txt"example.com") demo_records
                    demo_world) = 1%Z.
Proof.
  cbv zeta.
  split; [vm_compute; reflexivity|]. split; [vm_compute; reflexivity|].
  split; [vm_compute; reflexivity|].
  destruct (batch_outcomes_and_exit_code (demo_env (fun _ => true)) (demo_args false)
              demo_path (txt"example.com") demo_records demo_world)
    as (_ & _ & _ & _ & _ & _ & Hzero & Hbin & _).
  destruct Hbin as [H0|H1]; [|exact H1].
  apply Hzero in H0 as (content & _ & Hc & _ & _ & _ & _ & Hfail).
  vm_compute in Hc. injection Hc as <-. vm_compute in Hfail. discriminate.
Defined.

(** ** Matching a block by name *)

Section BlockFacts.
Context {R : Type}.
Implicit Types (k : cursor -> caps -> option R).

Lemma rmatch_seq r1 r2 c g k :
  rmatch (Seq r1 r2) c g k = rmatch r1 c g (fun c' g' => rmatch r2 c' g' k).
Proof. reflexivity. Qed.

Lemma rmatch_group n r c g k :
  rmatch (Group n r) c g k
  = rmatch r c g (fun c' g' => k c' ((n, (snd c, snd c')) :: g')).
Proof. reflexivity. Qed.

Lemma rmatch_alt_left r1 r2 c g k x :
  rmatch r1 c g k = Some x -> rmatch (Alt r1 r2) c g k = Some x.
Proof. intro H. cbn [rmatch]. now rewrite H. Qed.

Lemma rmatch_alt_right r1 r2 c g k :
  rmatch r1 c g k = None -> rmatch (Alt r1 r2) c g k = rmatch r2 c g k.
Proof. intro H. cbn [rmatch]. now rewrite H. Qed.

Lemma rmatch_chr_lit (a : ascii) rest bol g k :
  rmatch (Chr (Ascii.eqb a)) (bol, a :: rest) g k = k (Ascii.eqb a nl, rest) g.
Proof. cbn [rmatch snd]. now rewrite Ascii.eqb_refl. Qed.

(** The lazy [[\s\S]*?] runs to the first line made of a closing brace:
    over a body without closing brace, that is the end of the block. *)
Lemma rmatch_lazy_until_close bol body rest g k x :
  forallb cls_not_rbrace body = true ->
  k (false, rest) g = Some x ->
  rmatch (Star false cls_any) (bol, body ++ nl :: "}" :: rest) g
         (fun c' g' => rmatch (Seq (Chr (Ascii.eqb nl)) (Chr (Ascii.eqb "}"))) c' g' k)
  = Some x.
Proof.
  intros Hbody Hk. cbn [rmatch fst snd].
  rewrite star_lazy_skip.
  - apply star_lazy_here. cbn [snd]. rewrite Ascii.eqb_refl. cbn [step_over snd].
    rewrite Ascii.eqb_refl. exact Hk.
  - now apply forallb_forall.
  - intros u1 [|c u2] E Hne; [congruence|]. subst body.
    rewrite forallb_app in Hbody. apply andb_true_iff in Hbody as [_ Hbody].
    cbn [forallb] in Hbody. apply andb_true_iff in Hbody as [_ Hbody].
    cbn [app snd]. destruct (Ascii.eqb nl c); [|reflexivity].
    cbn [step_over snd]. destruct u2 as [|d u2]; cbn [app].
    + reflexivity.
    + cbn [forallb] in Hbody. apply andb_true_iff in Hbody as [Hd _].
      unfold cls_not_rbrace in Hd. apply negb_true_iff in Hd.
      rewrite Ascii.eqb_sym in Hd. now rewrite Hd.
Qed.
End BlockFacts.

Lemma block_regex_hit name ws1 ws2 body rest bol0 start g0 :
  ws1 <> [] -> spaces ws1 = true -> spaces ws2 = true ->
  name <> [] -> forallb cls_nonspace name = true ->
  forallb cls_not_rbrace body = true ->
  let text := txt"host" ++ ws1 ++ name ++ ws2 ++ "{" :: body ++ nl :: "}" :: nl :: rest in
  rmatch (seqs [ Group 2 (seqs [ lit (txt"host"); plus cls_space; lit name;
                                 Star true cls_space; Chr (Ascii.eqb "{");
                                 Star false cls_any; Chr (Ascii.eqb nl);
                                 Chr (Ascii.eqb "}") ]);
                 Chr (Ascii.eqb nl) ])
         (bol0, text) g0
         (fun c' g => Some (MkMatch start (snd c') g))
  = Some (MkMatch start rest ((2, (text, nl :: rest)) :: g0)).
Proof.
  intros N1 S1 S2 Nn Hn Hbody text. subst text.
  cbn [seqs]. rewrite rmatch_seq, rmatch_group.
  rewrite rmatch_seq, rmatch_lit. cbv beta.
  rewrite rmatch_seq.
  eapply rmatch_plus_run; [exact N1 | exact S1 | |].
  { apply stops_nonempty; [exact Nn|].
    apply forallb_impl with (p := cls_nonspace); [|exact Hn].
    intros c Hc. unfold cls_space. now rewrite nonspace_not_space. }
  cbv beta. rewrite rmatch_seq, rmatch_lit. cbv beta.
  rewrite rmatch_seq.
  eapply rmatch_star_run; [exact S2 | reflexivity |].
  cbv beta. rewrite rmatch_seq, rmatch_chr_lit. cbv beta.
  rewrite rmatch_seq.
  apply rmatch_lazy_until_close; [exact Hbody|].
  cbn [snd]. rewrite rmatch_chr_lit. reflexivity.
Qed.

Lemma block_regex_split name :
  block_regex name
  = Seq (Group 1 (Alt Bol (Chr (Ascii.eqb nl))))
        (seqs [ Group 2 (seqs [ lit (txt"host"); plus cls_space; lit name;
                                Star true cls_space; Chr (Ascii.eqb "{");
                                Star false cls_any; Chr (Ascii.eqb nl);
                                Chr (Ascii.eqb "}") ]);
                Chr (Ascii.eqb nl) ]).
Proof. reflexivity. Qed.

Lemma block_regex_hit_bol name ws1 ws2 body rest :
  ws1 <> [] -> spaces ws1 = true -> spaces ws2 = true ->
  name <> [] -> forallb cls_nonspace name = true ->
  forallb cls_not_rbrace body = true ->
  let text := txt"host" ++ ws1 ++ name ++ ws2 ++ "{" :: body ++ nl :: "}" :: nl :: rest in
  match_here (block_regex name) (true, text)
  = Some (MkMatch text rest [(2, (text, nl :: rest)); (1, (text, text))]).
Proof.
  intros N1 S1 S2 Nn Hn Hbody text.
  unfold match_here. rewrite block_regex_split, rmatch_seq, rmatch_group.
  apply rmatch_alt_left. cbn [rmatch fst snd].
  now apply block_regex_hit.
Qed.

Lemma block_regex_hit_nl name ws1 ws2 body rest bol :
  ws1 <> [] -> spaces ws1 = true -> spaces ws2 = true ->
  name <> [] -> forallb cls_nonspace name = true ->
  forallb cls_not_rbrace body = true ->
  let text := txt"host" ++ ws1 ++ name ++ ws2 ++ "{" :: body ++ nl :: "}" :: nl :: rest in
  match_here (block_regex name) (bol, nl :: text)
  = Some (MkMatch (nl :: text) rest [(2, (text, nl :: rest)); (1, (nl :: text, text))]).
Proof.
  intros N1 S1 S2 Nn Hn Hbody text.
  unfold match_here. rewrite block_regex_split, rmatch_seq, rmatch_group.
  rewrite rmatch_alt_right.
  - rewrite rmatch_chr_lit. cbn [snd]. now apply block_regex_hit.
  - destruct bol; [|reflexivity]. cbn [rmatch fst snd seqs].
    now rewrite rmatch_lit_mismatch.
Qed.

(** ** A base text without header line *)

Lemma header_regex_lang_intro name bol lead a1 a2 rest :
  (lead = [] /\ bol = true) \/ lead = [nl] ->
  a1 <> [] -> spaces a1 = true -> spaces a2 = true ->
  lang (header_regex name)
       (bol, lead ++ txt"host" ++ a1 ++ name ++ a2 ++ "{" :: rest) (false, rest).
Proof.
  intros Hl N1 S1 S2. unfold header_regex. cbn [seqs lang].
  exists (advance bol lead, txt"host" ++ a1 ++ name ++ a2 ++ "{" :: rest). split.
  { destruct Hl as [[-> ->] | ->]; [left; auto|right]. exists nl. auto. }
  set (b0 := advance bol lead). set (b1 := advance b0 (txt"host")).
  exists (b1, a1 ++ name ++ a2 ++ "{" :: rest). split; [apply lang_lit; auto|].
  exists (advance b1 a1, name ++ a2 ++ "{" :: rest).
  split; [apply lang_plus; exists a1; auto|].
  exists (advance (advance b1 a1) name, a2 ++ "{" :: rest). split; [apply lang_lit; auto|].
  exists (advance (advance (advance b1 a1) name) a2, "{" :: rest).
  split; [exists a2; auto|]. exists "{". auto.
Qed.

Lemma prefix_before_nl (w y u z : str) :
  forallb (fun c => negb (Ascii.eqb c nl)) w = true ->
  w ++ y = u ++ nl :: z ->
  exists u', u = w ++ u' /\ y = u' ++ nl :: z.
Proof.
  revert u; induction w as [|a w IH]; intros u Hw E.
  - exists u. auto.
  - cbn [forallb] in Hw. apply andb_true_iff in Hw as [Ha Hw].
    destruct u as [|b u]; cbn [app] in E; injection E as Eh Et.
    + subst a. now rewrite Ascii.eqb_refl in Ha.
    + subst b. destruct (IH _ Hw Et) as (u' & -> & ->). now exists u'.
Qed.

Lemma split_at_nl (a y u z : str) :
  a ++ y = u ++ nl :: z ->
  (exists u', u = a ++ u' /\ y = u' ++ nl :: z)
  \/ (exists q, a = u ++ nl :: q /\ z = q ++ y).
Proof.
  revert u; induction a as [|c a IH]; intros u E.
  - left. exists u. auto.
  - destruct u as [|b u]; cbn [app] in E; injection E as Eh Et.
    + subst c z. right. exists a. auto.
    + subst b. destruct (IH _ Et) as [(u' & -> & ->)|(q & -> & ->)].
      * left. now exists u'.
      * right. now exists q.
Qed.

Lemma nonspace_no_nl name :
  forallb cls_nonspace name = true ->
  forallb (fun c => negb (Ascii.eqb c nl)) name = true.
Proof.
  apply forallb_impl. intros c Hc. destruct (Ascii.eqb c nl) eqn:E; [|reflexivity].
  apply Ascii.eqb_eq in E. subst c. discriminate.
Qed.

Lemma spaces_then_brace_not_h (a2 ws1 y z : str) :
  spaces a2 = true -> spaces ws1 = true ->
  a2 ++ "{" :: y = ws1 ++ "h" :: z -> False.
Proof.
  revert ws1; induction a2 as [|c a2 IH]; intros [|d ws1] S2 S1 E;
    cbn [app] in E; injection E as Eh Et.
  - discriminate.
  - subst d. discriminate.
  - subst c. discriminate.
  - cbn [spaces forallb] in S1, S2.
    apply andb_true_iff in S1 as [_ S1]. apply andb_true_iff in S2 as [_ S2].
    now apply (IH ws1).
Qed.

Lemma name_not_before_own_header name a2 ws1 y z :
  name <> [] -> forallb cls_nonspace name = true ->
  ws1 <> [] -> spaces ws1 = true -> spaces a2 = true ->
  name ++ a2 ++ "{" :: y = txt"host" ++ ws1 ++ name ++ z -> False.
Proof.
  intros Nn Hn N1 S1 S2 E.
  destruct ws1 as [|w ws1]; [congruence|].
  cbn [spaces forallb] in S1. apply andb_true_iff in S1 as [Sw S1].
  destruct name as [|n1 [|n2 [|n3 [|n4 [|n5 name]]]]]; [congruence| | | | |];
    cbn [app list_ascii_of_string] in E.
  - injection E as _ E. destruct a2 as [|c a2]; cbn [app] in E; injection E as Ec _.
    + discriminate.
    + subst c. discriminate.
  - injection E as _ _ E. destruct a2 as [|c a2]; cbn [app] in E; injection E as Ec _.
    + discriminate.
    + subst c. discriminate.
  - injection E as _ _ _ E. destruct a2 as [|c a2]; cbn [app] in E; injection E as Ec _.
    + discriminate.
    + subst c. discriminate.
  - injection E as E1 E2 E3 E4 E. subst n1 n2 n3 n4.
    apply (spaces_then_brace_not_h a2 (w :: ws1) y (txt"ost" ++ z) S2).
    + cbn [spaces forallb]. now rewrite Sw.
    + exact E.
  - injection E as _ _ _ _ E5 _. subst n5.
    cbn [forallb] in Hn. repeat (apply andb_true_iff in Hn as [? Hn]).
    unfold cls_nonspace in *. rewrite Sw in *. discriminate.
Qed.

Lemma spaces_app a b : spaces (a ++ b) = (spaces a && spaces b)%bool.
Proof. apply forallb_app. Qed.

(** In a base text that ends with a newline and holds no header line for
    [name], no match of the block pattern starts before that last newline,
    whatever block for [name] is appended. *)
Lemma block_regex_quiet_base name b0 ws1 tail u1 u2 :
  name <> [] -> forallb cls_nonspace name = true ->
  ws1 <> [] -> spaces ws1 = true ->
  search (header_regex name) (b0 ++ [nl]) = None ->
  b0 = u1 ++ u2 -> u2 <> [] ->
  match_here (block_regex name)
             (advance true u1, u2 ++ nl :: txt"host" ++ ws1 ++ name ++ tail) = None.
Proof.
  intros Nn Hn N1 S1 Hfree -> Hne.
  destruct (match_here _ _) as [x|] eqn:E; [exfalso|reflexivity].
  apply match_here_sound in E as (c' & L & _).
  apply block_regex_lang in L as (lead & a1 & a2 & body & E & Hl & Na & Sa1 & Sa2 & _).
  cbn [fst snd] in E, Hl.
  (* the keyword lies within the base *)
  assert (Hk : exists u3, u2 = lead ++ txt"host" ++ u3
                          /\ u3 ++ nl :: txt"host" ++ ws1 ++ name ++ tail
                             = a1 ++ name ++ a2 ++ txt"{" ++ body ++ [nl; "}"; nl] ++ snd c').
  { destruct Hl as [[-> Hb] | ->].
    - cbn [app] in E |- *. symmetry in E.
      apply (prefix_before_nl (txt"host")) in E as (u3 & -> & E); [|reflexivity].
      exists u3. auto.
    - destruct u2 as [|c u2]; [congruence|]. cbn [app] in E. injection E as -> E.
      symmetry in E.
      apply (prefix_before_nl (txt"host")) in E as (u3 & -> & E); [|reflexivity].
      exists u3. auto. }
  destruct Hk as (u3 & -> & E1). clear E.
  symmetry in E1. apply split_at_nl in E1 as [(u4 & -> & E2)|(q & -> & E2)].
  - (* the first blank run lies within the base *)
    apply prefix_before_nl in E2 as (u5 & -> & E3); [|now apply nonspace_no_nl].
    apply split_at_nl in E3 as [(u6 & -> & E4)|(q & -> & E4)].
    + destruct u6 as [|c u6]; cbn [app list_ascii_of_string] in E4; [discriminate|].
      injection E4 as <- _.
      apply (search_from_complete (header_regex name) true u1
               (lead ++ txt"host" ++ a1 ++ name ++ a2 ++ "{" :: u6 ++ [nl])
               (false, u6 ++ [nl])).
      * now apply header_regex_lang_intro.
      * rewrite <- Hfree. f_equal. rewrite <- !app_assoc. cbn [app]. reflexivity.
    + rewrite spaces_app in Sa2. apply andb_true_iff in Sa2 as [_ Sa2].
      cbn [spaces forallb] in Sa2. apply andb_true_iff in Sa2 as [_ Sq].
      destruct q as [|c q]; cbn [app list_ascii_of_string] in E4.
      * discriminate.
      * injection E4 as Ec _. subst c. discriminate.
  - (* the first blank run reaches the appended block *)
    rewrite spaces_app in Sa1. apply andb_true_iff in Sa1 as [_ Sa1].
    cbn [spaces forallb] in Sa1. apply andb_true_iff in Sa1 as [_ Sq].
    destruct q as [|c q]; cbn [app] in E2.
    + apply (name_not_before_own_header name a2 ws1
               (body ++ [nl; "}"; nl] ++ snd c') tail Nn Hn N1 S1 Sa2).
      now rewrite E2.
    + cbn [list_ascii_of_string app] in E2. injection E2 as Ec _. subst c. discriminate.
Qed.

(** ** Characters of a valid IP *)

Lemma split_forallb (p : ascii -> bool) sep s :
  p sep = true ->
  Forall (fun part => forallb p part = true) (Str.split sep s) ->
  forallb p s = true.
Proof.
  intro Hsep. induction s as [|a s IH]; intro H; [reflexivity|].
  cbn [Str.split] in H. cbn [forallb].
  destruct (Ascii.eqb a sep) eqn:E.
  - apply Ascii.eqb_eq in E. subst a. rewrite Hsep.
    inversion H; subst. now apply IH.
  - destruct (Str.split sep s) as [|w ws] eqn:Es.
    + inversion H as [|? ? Hw _]; subst. cbn [forallb] in Hw.
      apply andb_true_iff in Hw as [-> _]. apply IH. constructor.
    + inversion H as [|? ? Hw Hws]; subst. cbn [forallb] in Hw.
      apply andb_true_iff in Hw as [-> Hw]. apply IH. now constructor.
Qed.

Lemma lstrip_int_forallb (p : ascii -> bool) s :
  (forall c, is_int_space c = true -> p c = true) ->
  forallb p (lstrip_int s) = true -> forallb p s = true.
Proof.
  intro Hsp. induction s as [|a s IH]; intro H; [reflexivity|].
  cbn [lstrip_int] in H. destruct (is_int_space a) eqn:E.
  - cbn [forallb]. rewrite (Hsp _ E). now apply IH.
  - exact H.
Qed.

Lemma forallb_rev (p : ascii -> bool) s : forallb p (rev s) = forallb p s.
Proof.
  induction s as [|a s IH]; [reflexivity|].
  cbn [rev forallb]. rewrite forallb_app, IH. cbn [forallb].
  rewrite andb_true_r. apply andb_comm.
Qed.

Lemma int_digits_chars s : forall acc after count r,
  int_digits s acc after count = Some r ->
  forallb (fun c => cls_digit c || Ascii.eqb c "_")%bool s = true.
Proof.
  induction s as [|c s IH]; intros acc after count r H; [reflexivity|].
  cbn [int_digits] in H. cbn [forallb].
  destruct (cls_digit c); cbn [orb].
  - now apply IH in H.
  - destruct (Ascii.eqb c "_"); [|discriminate].
    destruct after; [|discriminate]. now apply IH in H.
Qed.

Lemma int_space_not_rbrace c : is_int_space c = true -> cls_not_rbrace c = true.
Proof. ascii_cases c. Qed.

Lemma digit_or_underscore_not_rbrace c :
  (cls_digit c || Ascii.eqb c "_")%bool = true -> cls_not_rbrace c = true.
Proof. ascii_cases c. Qed.

Lemma py_int_no_rbrace p n : py_int p = Some n -> forallb cls_not_rbrace p = true.
Proof.
  unfold py_int. intro H.
  apply lstrip_int_forallb; [exact int_space_not_rbrace|].
  rewrite <- forallb_rev.
  apply lstrip_int_forallb; [exact int_space_not_rbrace|].
  rewrite <- forallb_rev.
  set (body := rev (lstrip_int (rev (lstrip_int p)))) in *.
  destruct (int_digits _ _ _ _) as [[v count]|] eqn:E; [|discriminate]. clear H.
  apply int_digits_chars in E.
  assert (Hd : forall ds, forallb (fun c => cls_digit c || Ascii.eqb c "_")%bool ds = true ->
                          forallb cls_not_rbrace ds = true).
  { intro ds. apply forallb_impl. exact digit_or_underscore_not_rbrace. }
  destruct body as [|c ds]; [reflexivity|].
  destruct (Ascii.eqb c "+") eqn:Ep; [apply Ascii.eqb_eq in Ep; subst c|].
  { cbn [snd] in E. cbn [forallb]. now rewrite (Hd _ E). }
  destruct (Ascii.eqb c "-") eqn:Em; [apply Ascii.eqb_eq in Em; subst c|].
  { cbn [snd] in E. cbn [forallb]. now rewrite (Hd _ E). }
  assert (Es : snd match c :: ds with
                   | "+"%char :: ds0 => (false, ds0)
                   | "-"%char :: ds0 => (true, ds0)
                   | _ => (false, c :: ds)
                   end = c :: ds).
  { revert Ep Em. clear. ascii_cases c. }
  rewrite Es in E. now apply Hd.
Qed.

Lemma all_octets_no_rbrace parts :
  all_octets parts = Some true ->
  Forall (fun part => forallb cls_not_rbrace part = true) parts.
Proof.
  intro H. apply all_octets_true in H.
  induction H as [|p ps (n & Hp & _) _ IH]; constructor; [|exact IH].
  now apply py_int_no_rbrace with (n := n).
Qed.

Lemma validate_ip_no_rbrace ip :
  validate_ip_address ip = true -> forallb cls_not_rbrace ip = true.
Proof.
  unfold validate_ip_address. destruct (negb _); [discriminate|].
  destruct (all_octets _) as [[]|] eqn:E; try discriminate. intros _.
  apply split_forallb with (sep := "."%char); [reflexivity|].
  now apply all_octets_no_rbrace.
Qed.

(** ** Locating an appended block *)

Lemma find_block_appended base name ws1 ws2 body :
  base = [] \/ (exists b0, base = b0 ++ [nl]) ->
  has_header base name = false ->
  ws1 <> [] -> spaces ws1 = true -> spaces ws2 = true ->
  name <> [] -> forallb cls_nonspace name = true ->
  forallb cls_not_rbrace body = true ->
  let block := txt"host" ++ ws1 ++ name ++ ws2 ++ "{" :: body ++ nl :: "}" :: [nl] in
  find_reservation_block (base ++ block) name
  = (Z.of_nat (length base), Z.of_nat (length base + length block)).
Proof.
  intros Hbase Hfree N1 S1 S2 Nn Hn Hbody block.
  unfold find_reservation_block, search.
  destruct Hbase as [-> | (b0 & ->)].
  - cbn [app].
    pose proof (block_regex_hit_bol name ws1 ws2 body [] N1 S1 S2 Nn Hn Hbody) as Hhit.
    cbv zeta in Hhit. fold block in Hhit.
    rewrite (search_from_here _ _ _ _ Hhit).
    unfold start_of, end_of. cbn [m_groups m_to lookup_group Nat.eqb fst snd length].
    rewrite Nat.sub_diag, Nat.sub_0_r. reflexivity.
  - unfold has_header in Hfree.
    destruct (search (header_regex name) (b0 ++ [nl])) eqn:Hs; [discriminate|].
    rewrite <- app_assoc. cbn [app].
    rewrite search_from_skip.
    + pose proof (block_regex_hit_nl name ws1 ws2 body [] (advance true b0)
                                     N1 S1 S2 Nn Hn Hbody) as Hhit.
      cbv zeta in Hhit. fold block in Hhit.
      rewrite (search_from_here _ _ _ _ Hhit).
      unfold start_of, end_of. cbn [m_groups m_to lookup_group Nat.eqb fst snd].
      rewrite !length_app. cbn [length]. f_equal; f_equal; lia.
    + intros u1 u2 E Hne. subst block.
      now apply (block_regex_quiet_base name b0 ws1
                   (ws2 ++ "{" :: body ++ nl :: "}" :: [nl]) u1 u2).
Qed.

Lemma build_reservation_block_shape hostname mac ip domain :
  build_reservation_block hostname mac ip domain
  = txt"host" ++ txt" " ++ make_fqdn hostname domain ++ txt" "
    ++ "{" :: (nl :: txt"  hardware ethernet " ++ mac ++ txt";"
               ++ nl :: txt"  fixed-address " ++ ip ++ txt";")
    ++ nl :: "}" :: [nl].
Proof.
  unfold build_reservation_block. cbn [app]. rewrite <- !app_assoc.
  cbn [app]. rewrite <- !app_assoc. reflexivity.
Qed.

(** C6, amended. For a base text that is empty or ends with a newline and
    holds no header line [host <fqdn> {] (whether or not a block end follows
    it), and a record with a normalised MAC and a valid IP whose
    fully-qualified name is not empty and free of white space,
    [find_reservation_block] on the base followed by the built block returns
    exactly the appended span: from the length of the base to the end of the
    text. *)
Theorem find_reservation_block_appended base hostname mac ip domain :
  base = [] \/ (exists b0, base = b0 ++ [nl]) ->
  has_header base (make_fqdn hostname domain) = false ->
  make_fqdn hostname domain <> [] ->
  forallb cls_nonspace (make_fqdn hostname domain) = true ->
  normalize_mac mac = Some mac ->
  validate_ip_address ip = true ->
  let block := build_reservation_block hostname mac ip domain in
  find_reservation_block (base ++ block) (make_fqdn hostname domain)
  = (Str.len base, (Str.len base + Str.len block)%Z).
Proof.
  intros Hbase Hfree Nn Hn Hmac Hip block. subst block.
  destruct (normalize_mac_shape _ _ Hmac) as (_ & _ & _ & Hm).
  pose proof (validate_ip_no_rbrace _ Hip) as Hi.
  rewrite build_reservation_block_shape.
  rewrite find_block_appended; auto; try discriminate.
  - unfold Str.len. now rewrite Nat2Z.inj_add.
  - cbn [forallb]. rewrite !forallb_app. cbn [forallb]. rewrite !forallb_app.
    now rewrite Hm, Hi.
Qed.

Lemma find_reservation_block_appended_witness :
  let base := txt"# lab machines" ++ nl :: demo_content in
  let block := build_reservation_block (txt"b") (txt"aa:bb:cc:dd:ee:02") (txt"10.0.0.2")
                                       (Some (txt"example.com")) in
  find_reservation_block (base ++ block) (txt"b.example.com")
  = (Str.len base, (Str.len base + Str.len block)%Z).
Proof.
  cbv zeta.
  refine (find_reservation_block_appended
            (txt"# lab machines" ++ nl :: demo_content)
            (txt"b") (txt"aa:bb:cc:dd:ee:02") (txt"10.0.0.2") (Some (txt"example.com"))
            _ _ _ _ _ _).
  - right. exists (removelast (txt"# lab machines" ++ nl :: demo_content)).
    vm_compute. reflexivity.
  - vm_compute. reflexivity.
  - vm_compute. discriminate.
  - vm_compute. reflexivity.
  - vm_compute. reflexivity.
  - vm_compute. reflexivity.
Defined.

(** C6 as stated fails: the base ends with a newline and holds no block for
    the name (its header line is never closed), yet the span found after the
    append starts at that old header, not at the appended block. *)
Lemma find_reservation_block_appended_fails :
  let base := txt"host a.example.com {" ++ [nl] in
  let block := build_reservation_block (txt"a") (txt"aa:bb:cc:dd:ee:01") (txt"10.0.0.1")
                                       (Some (txt"example.com")) in
  find_reservation_block base (txt"a.example.com") = (-1, -1)%Z
  /\ Str.len base = 21%Z
  /\ find_reservation_block (base ++ block) (txt"a.example.com") = (0, 109)%Z.
Proof. cbv zeta. repeat split; vm_compute; reflexivity. Qed.

(** ** Managed files *)

Lemma host_kw_head c s : eq_ci c "h" = false -> host_kw (c :: s) = false.
Proof.
  intro H. destruct s as [|c2 [|c3 [|c4 [|c5 s]]]]; cbn [host_kw]; try reflexivity.
  now rewrite H.
Qed.

Lemma has_host_kw_nl g : has_host_kw (nl :: g) = has_host_kw g.
Proof. cbn [has_host_kw]. now rewrite host_kw_head. Qed.

Lemma managed_record_fields r :
  managed_record r = true ->
  name_of r <> [] /\ forallb cls_nonspace (name_of r) = true
  /\ forallb (fun c => negb (Ascii.eqb c "{")) (name_of r) = true
  /\ normalize_mac (mac_of r) = Some (mac_of r)
  /\ validate_ip_address (ip_of r) = true
  /\ ip_of r <> [] /\ forallb cls_digit_dot (ip_of r) = true.
Proof.
  unfold managed_record. intro H. repeat (apply andb_true_iff in H as [H ?]).
  destruct (normalize_mac (mac_of r)) as [m|] eqn:Em; [|discriminate].
  match goal with E : Str.eqb m _ = true |- _ => apply str_eqb_eq in E; subst m end.
  assert (Hn : name_of r <> []) by (destruct (name_of r); [discriminate|congruence]).
  assert (Hi : ip_of r <> []).
  { intro E. match goal with V : validate_ip_address _ = true |- _ => rewrite E in V;
      vm_compute in V; discriminate end. }
  repeat split; auto.
  - apply forallb_impl with (p := cls_name); [|assumption].
    intros c Hc. unfold cls_name in Hc. now apply andb_true_iff in Hc.
  - apply forallb_impl with (p := cls_name); [|assumption].
    intros c Hc. unfold cls_name in Hc. now apply andb_true_iff in Hc.
Qed.

Lemma managed_record_readable r : managed_record r = true -> readable r = true.
Proof.
  intro H. destruct (managed_record_fields _ H) as (Nn & Hn & _ & Hm & _ & Ni & Hi).
  destruct (normalize_mac_shape _ _ Hm) as (Nm & Hmc & _ & _).
  unfold readable. rewrite Hn, Hmc, Hi.
  destruct (name_of r); [congruence|]. destruct (mac_of r); [congruence|].
  destruct (ip_of r); [congruence|]. reflexivity.
Qed.

Lemma managed_record_reported r : managed_record r = true -> reported r = r.
Proof.
  intro H. destruct (managed_record_fields _ H) as (_ & _ & _ & Hm & _).
  now apply reported_normalized.
Qed.

Lemma managed_cons g r entries tail :
  managed ((g, r) :: entries) tail = true ->
  has_host_kw g = false /\ ends_line g = true /\ managed_record r = true
  /\ managed entries tail = true.
Proof.
  unfold managed. cbn [forallb fst snd]. intro H.
  apply andb_true_iff in H as [H Ht].
  apply andb_true_iff in H as [H He].
  apply andb_true_iff in H as [Hp Hr].
  unfold plain_text in Hp. apply andb_true_iff in Hp as [H1 H2].
  apply negb_true_iff in H1. repeat split; auto.
  now apply andb_true_iff.
Qed.

Lemma managed_nil tail :
  managed [] tail = true -> has_host_kw tail = false /\ ends_line tail = true.
Proof.
  unfold managed, plain_text. cbn [forallb andb]. intro H.
  apply andb_true_iff in H as [H1 H2]. now apply negb_true_iff in H1.
Qed.

Lemma render_managed_cons g r entries tail :
  render_managed ((g, r) :: entries) tail
  = g ++ block_hw_first canonical (name_of r) (mac_of r) (ip_of r)
      ++ nl :: render_managed entries tail.
Proof.
  unfold render_managed, written. cbn [map concat fst snd].
  rewrite <- !app_assoc. reflexivity.
Qed.

Lemma extract_managed_from entries tail : forall pre bol,
  pre = [] \/ pre = [nl] ->
  managed entries tail = true ->
  map (fun x => (group x 1, Str.lower (group x 2), group x 3))
      (finditer_from reservation_regex bol (pre ++ render_managed entries tail) 0)
  = map snd entries.
Proof.
  induction entries as [|[g r] entries IH]; intros pre bol Hpre Hm.
  - apply managed_nil in Hm as [Hk _]. unfold render_managed. cbn [map concat app].
    rewrite finditer_quiet_tail; [reflexivity|].
    destruct Hpre as [-> | ->]; [exact Hk|]. cbn [app]. now rewrite has_host_kw_nl.
  - apply managed_cons in Hm as (Hk & _ & Hr & Hm).
    pose proof (managed_record_readable _ Hr) as Hrd.
    destruct (readable_fields _ Hrd) as (Nn & Hn & Nm & Hmc & Ni & Hi).
    rewrite render_managed_cons, app_assoc.
    rewrite finditer_quiet_gap.
    2:{ destruct Hpre as [-> | ->]; [exact Hk|]. cbn [app]. now rewrite has_host_kw_nl. }
    destruct (reservation_regex_block canonical _ _ _ (advance bol (pre ++ g))
                (nl :: render_managed entries tail) canonical_wf Nn Hn Nm Hmc Ni Hi)
      as (x & Hx & G1 & G2 & G3 & Hto).
    rewrite (finditer_from_hit _ _ _ _ _ (block_hw_first_nonempty _ _ _ _) Hx Hto).
    cbn [map snd]. rewrite G1, G2, G3.
    change (nl :: render_managed entries tail) with ([nl] ++ render_managed entries tail).
    rewrite IH by auto.
    f_equal. change (reported r = r). now apply managed_record_reported.
Qed.

Lemma extract_managed entries tail :
  managed entries tail = true ->
  extract_all_reservations (render_managed entries tail) = map snd entries.
Proof.
  intro H. unfold extract_all_reservations, finditer.
  now apply (extract_managed_from entries tail [] true); [left|].
Qed.

(** ** Scanning a managed file for a name *)

Lemma host_space_needed (R : Type) b t g r (k : cursor -> caps -> option R) :
  host_kw t = false ->
  rmatch (lit (txt"host")) (b, t) g
         (fun c' g' => rmatch (Seq (plus cls_space) r) c' g' k) = None.
Proof.
  intro H.
  destruct t as [|c1 [|c2 [|c3 [|c4 [|c5 t]]]]];
    cbn [lit list_ascii_of_string rmatch snd fst step_over plus];
    repeat match goal with
           | |- (if ?b then _ else None) = None => destruct b eqn:?; [|reflexivity]
           end; try reflexivity.
  repeat match goal with E : Ascii.eqb _ _ = true |- _ => apply Ascii.eqb_eq in E end.
  subst. cbn [host_kw] in H. change (eq_ci "h" "h") with true in H.
  change (eq_ci "o" "o") with true in H. change (eq_ci "s" "s") with true in H.
  change (eq_ci "t" "t") with true in H. cbn [andb] in H.
  unfold cls_space in *. congruence.
Qed.

Lemma block_regex_needs_line name bol t :
  (bol = true -> host_kw t = false) ->
  (forall t', t = nl :: t' -> host_kw t' = false) ->
  match_here (block_regex name) (bol, t) = None.
Proof.
  intros H1 H2. unfold match_here.
  rewrite block_regex_split, rmatch_seq, rmatch_group.
  assert (K : forall b' s g,
             (host_kw s = false) ->
             rmatch (seqs [ Group 2 (seqs [ lit (txt"host"); plus cls_space; lit name;
                                            Star true cls_space; Chr (Ascii.eqb "{");
                                            Star false cls_any; Chr (Ascii.eqb nl);
                                            Chr (Ascii.eqb "}") ]);
                            Chr (Ascii.eqb nl) ])
                    (b', s) g
                    (fun c' g0 => Some (MkMatch t (snd c') g0)) = None).
  { intros b' s g Hs. cbn [seqs]. rewrite rmatch_seq, rmatch_group, rmatch_seq.
    now apply host_space_needed. }
  rewrite rmatch_alt_right.
  - cbn [rmatch snd]. destruct t as [|c t]; [reflexivity|].
    destruct (Ascii.eqb nl c) eqn:E; [|reflexivity].
    apply Ascii.eqb_eq in E. subst c. cbn [step_over snd]. apply K. now apply H2.
  - cbn [rmatch fst snd]. destruct bol; [|reflexivity]. apply K. now apply H1.
Qed.

Lemma host_kw_cut u x : host_kw (u ++ nl :: x) = host_kw (u ++ [nl]).
Proof.
  destruct u as [|a1 [|a2 [|a3 [|a4 [|a5 u]]]]]; cbn [app]; [| | | | |reflexivity];
    destruct x as [|x1 [|x2 [|x3 [|x4 x]]]]; cbn [host_kw]; try reflexivity;
    change (eq_ci nl "h") with false; change (eq_ci nl "o") with false;
    change (eq_ci nl "s") with false; change (eq_ci nl "t") with false;
    rewrite ?andb_false_r, ?andb_false_l; reflexivity.
Qed.

Lemma search_quiet name s : forall bol,
  has_host_kw s = false -> search_from (block_regex name) bol s = None.
Proof.
  induction s as [|a s IH]; intros bol H.
  - cbn [search_from]. now rewrite block_regex_needs_line.
  - cbn [search_from]. rewrite block_regex_needs_line.
    + apply IH. now apply has_host_kw_suffix with (u1 := [a]).
    + intros _. now apply has_host_kw_here.
    + intros t' E. injection E as -> ->.
      now apply has_host_kw_here, has_host_kw_suffix with (u1 := [nl]).
Qed.

Lemma quiet_app name b s1 s2 rest :
  quiet_for name b s1 (s2 ++ rest) -> quiet_for name (advance b s1) s2 rest ->
  quiet_for name b (s1 ++ s2) rest.
Proof.
  intros Q1 Q2 u1 u2 E Hne.
  apply app_eq_app in E as (l & [[E1 E2] | [E1 E2]]); subst.
  - destruct l as [|c l].
    + rewrite app_nil_r in Q2. cbn [app] in *. now apply (Q2 [] s2 eq_refl).
    + rewrite <- app_assoc. apply Q1; [reflexivity|discriminate].
  - rewrite advance_app. now apply Q2.
Qed.

Lemma advance_no_nl b u :
  u <> [] -> forallb (fun c => negb (Ascii.eqb c nl)) u = true -> advance b u = false.
Proof.
  destruct u as [|a u] using rev_ind; [congruence|]. intros _ H.
  rewrite advance_last. rewrite forallb_app in H. apply andb_true_iff in H as [_ H].
  cbn [forallb] in H. rewrite andb_true_r in H. now apply negb_true_iff in H.
Qed.

Lemma quiet_plain name b s rest :
  forallb (fun c => negb (Ascii.eqb c nl)) s = true ->
  (b = true -> host_kw (s ++ rest) = false) ->
  quiet_for name b s rest.
Proof.
  intros Hs Hb u1 u2 -> Hne.
  rewrite forallb_app in Hs. apply andb_true_iff in Hs as [Hs1 Hs2].
  apply block_regex_needs_line.
  - destruct u1 as [|c u1]; [now rewrite app_nil_l in Hb|].
    rewrite advance_no_nl by (auto; discriminate). discriminate.
  - intros t' E. destruct u2 as [|c u2]; [congruence|]. cbn [app] in E.
    injection E as -> _. cbn [forallb] in Hs2. now rewrite Ascii.eqb_refl in Hs2.
Qed.

Lemma quiet_nl name b rest :
  host_kw rest = false -> quiet_for name b [nl] rest.
Proof.
  intros H u1 u2 E Hne.
  destruct u1 as [|c u1].
  - cbn [app] in E. subst u2. apply block_regex_needs_line.
    + intros _. now apply host_kw_head.
    + intros t' E. now injection E as <-.
  - destruct u1; cbn [app] in E; injection E as _ E; [now subst u2|].
    now destruct u1.
Qed.

Lemma quiet_gap name b g0 x :
  has_host_kw (g0 ++ [nl]) = false -> quiet_for name b g0 (nl :: x).
Proof.
  intros H u1 u2 -> Hne. rewrite <- app_assoc in H.
  pose proof (has_host_kw_suffix _ _ H) as H2.
  apply block_regex_needs_line.
  - intros _. rewrite host_kw_cut. now apply has_host_kw_here.
  - intros t' E. destruct u2 as [|c u2]; [congruence|]. cbn [app] in E.
    injection E as -> <-. rewrite host_kw_cut.
    now apply has_host_kw_here, has_host_kw_suffix with (u1 := [nl]).
Qed.

Section OtherName.
Context {R : Type}.
Implicit Types (k : cursor -> caps -> option R).

Lemma rmatch_plus_single p (a : ascii) s bol g k :
  p a = true -> stops p s = true ->
  rmatch (plus p) (bol, a :: s) g k = k (Ascii.eqb a nl, s) g.
Proof.
  intros Ha Hs. unfold plus. cbn [rmatch snd fst step_over]. rewrite Ha.
  now rewrite star_greedy_stop.
Qed.

(** The header of a block written for another name does not match. *)
Lemma lit_other_name target : forall name b x g r k,
  forallb cls_nonspace target = true ->
  forallb cls_name name = true ->
  name <> target ->
  rmatch (lit target) (b, name ++ " " :: x) g
         (fun c' g' => rmatch (Seq (Star true cls_space) (Seq (Chr (Ascii.eqb "{")) r))
                              c' g' k)
  = None.
Proof.
  induction target as [|a target IH]; intros [|c name] b x g r k Ht Hn Hne;
    try congruence.
  - cbn [lit rmatch app fst snd star_greedy].
    cbn [forallb] in Hn. apply andb_true_iff in Hn as [Hc _].
    unfold cls_name in Hc. apply andb_true_iff in Hc as [Hs Hb].
    unfold cls_space. unfold cls_nonspace in Hs. apply negb_true_iff in Hs. rewrite Hs.
    cbn [snd]. apply negb_true_iff in Hb. rewrite Ascii.eqb_sym in Hb. now rewrite Hb.
  - cbn [lit rmatch app snd].
    cbn [forallb] in Ht. apply andb_true_iff in Ht as [Ha _].
    destruct (Ascii.eqb a " ") eqn:E; [|reflexivity].
    apply Ascii.eqb_eq in E. subst a. discriminate.
  - cbn [lit app]. rewrite rmatch_seq. cbn [rmatch snd].
    destruct (Ascii.eqb a c) eqn:E; [|reflexivity].
    apply Ascii.eqb_eq in E. subst c. cbn [step_over].
    cbn [forallb] in Ht, Hn.
    apply andb_true_iff in Ht as [_ Ht]. apply andb_true_iff in Hn as [_ Hn].
    apply IH; auto. congruence.
Qed.

Lemma block_body_other_name target name x b g k :
  forallb cls_nonspace target = true ->
  name <> [] -> forallb cls_name name = true ->
  name <> target ->
  rmatch (seqs [ Group 2 (seqs [ lit (txt"host"); plus cls_space; lit target;
                                 Star true cls_space; Chr (Ascii.eqb "{");
                                 Star false cls_any; Chr (Ascii.eqb nl);
                                 Chr (Ascii.eqb "}") ]);
                 Chr (Ascii.eqb nl) ])
         (b, txt"host" ++ " " :: name ++ " " :: x) g k
  = None.
Proof.
  intros Ht Nn Hn Hne. cbn [seqs].
  rewrite rmatch_seq, rmatch_group, rmatch_seq, rmatch_lit. cbv beta.
  rewrite rmatch_seq, rmatch_plus_single; [|reflexivity|].
  - rewrite rmatch_seq. now apply lit_other_name.
  - destruct name as [|c name]; [congruence|]. cbn [app stops].
    cbn [forallb] in Hn. apply andb_true_iff in Hn as [Hc _].
    unfold cls_name in Hc. apply andb_true_iff in Hc as [Hs _].
    unfold cls_space. exact Hs.
Qed.
End OtherName.

Lemma block_regex_other_bol target name x :
  forallb cls_nonspace target = true ->
  name <> [] -> forallb cls_name name = true ->
  name <> target ->
  match_here (block_regex target) (true, txt"host" ++ " " :: name ++ " " :: x) = None.
Proof.
  intros Ht Nn Hn Hne. unfold match_here.
  rewrite block_regex_split, rmatch_seq, rmatch_group, rmatch_alt_right.
  - reflexivity.
  - cbn [rmatch fst]. now apply block_body_other_name.
Qed.

Lemma block_regex_other_nl target name x bol :
  forallb cls_nonspace target = true ->
  name <> [] -> forallb cls_name name = true ->
  name <> target ->
  match_here (block_regex target) (bol, nl :: txt"host" ++ " " :: name ++ " " :: x) = None.
Proof.
  intros Ht Nn Hn Hne. unfold match_here.
  rewrite block_regex_split, rmatch_seq, rmatch_group, rmatch_alt_right.
  - rewrite rmatch_chr_lit. now apply block_body_other_name.
  - destruct bol; [|reflexivity]. cbn [rmatch fst snd seqs].
    now rewrite rmatch_lit_mismatch.
Qed.

Lemma quiet_cons name b (a : ascii) s rest :
  match_here (block_regex name) (b, a :: s ++ rest) = None ->
  quiet_for name (Ascii.eqb a nl) s rest ->
  quiet_for name b (a :: s) rest.
Proof.
  intros H Q [|c u1] u2 E Hne; cbn [app] in E.
  - subst u2. exact H.
  - injection E as <- ->. cbn [advance]. now apply Q.
Qed.

Lemma cls_name_nonspace name :
  forallb cls_name name = true -> forallb cls_nonspace name = true.
Proof.
  apply forallb_impl. intros c Hc. unfold cls_name in Hc.
  now apply andb_true_iff in Hc.
Qed.

Lemma hex_colon_no_nl mac :
  forallb cls_hex_colon_i mac = true ->
  forallb (fun c => negb (Ascii.eqb c nl)) mac = true.
Proof. apply forallb_impl. intro c. ascii_cases c. Qed.

Lemma digit_dot_no_nl ip :
  forallb cls_digit_dot ip = true ->
  forallb (fun c => negb (Ascii.eqb c nl)) ip = true.
Proof. apply forallb_impl. intro c. ascii_cases c. Qed.

Lemma digit_dot_not_rbrace ip :
  forallb cls_digit_dot ip = true -> forallb cls_not_rbrace ip = true.
Proof. apply forallb_impl. intro c. ascii_cases c. Qed.

Lemma canonical_block_lines name mac ip :
  block_hw_first canonical name mac ip
  = "h" :: (txt"ost " ++ name ++ txt" {") ++ [nl]
        ++ (txt"  hardware ethernet " ++ mac ++ txt";") ++ [nl]
        ++ (txt"  fixed-address " ++ ip ++ txt";") ++ [nl] ++ txt"}".
Proof.
  unfold block_hw_first, canonical.
  cbn [sp_name sp_brace sp_body sp_hw sp_eth sp_semi1 sp_mid sp_fixed sp_semi2 sp_end].
  repeat first [rewrite <- app_assoc | progress cbn [app]]. reflexivity.
Qed.

Lemma canonical_block_shape name mac ip rest :
  block_hw_first canonical name mac ip ++ nl :: rest
  = txt"host" ++ txt" " ++ name ++ txt" "
    ++ "{" :: (nl :: txt"  hardware ethernet " ++ mac ++ txt";"
               ++ nl :: txt"  fixed-address " ++ ip ++ txt";")
    ++ nl :: "}" :: nl :: rest.
Proof.
  unfold block_hw_first, canonical.
  cbn [sp_name sp_brace sp_body sp_hw sp_eth sp_semi1 sp_mid sp_fixed sp_semi2 sp_end].
  repeat first [rewrite <- app_assoc | progress cbn [app]]. reflexivity.
Qed.

Lemma advance_canonical_block b name mac ip :
  advance b (block_hw_first canonical name mac ip) = false.
Proof. unfold block_hw_first. rewrite !advance_app. reflexivity. Qed.

(** Within a block written for another name, no match for [target]
    starts. *)
Lemma quiet_block target r rest :
  forallb cls_nonspace target = true ->
  managed_record r = true ->
  name_of r <> target ->
  quiet_for target true (block_hw_first canonical (name_of r) (mac_of r) (ip_of r))
            (nl :: rest).
Proof.
  intros Ht Hr Hne.
  destruct (managed_record_fields _ Hr) as (Nn & Hn & Hb & Hm & _ & Ni & Hi).
  destruct (normalize_mac_shape _ _ Hm) as (_ & Hmc & _ & _).
  assert (Hname : forallb cls_name (name_of r) = true).
  { apply forallb_forall. intros c Hc. unfold cls_name.
    rewrite (proj1 (forallb_forall _ _) Hn c Hc).
    now rewrite (proj1 (forallb_forall _ _) Hb c Hc). }
  pose proof (nonspace_no_nl _ Hn) as Hn1.
  pose proof (hex_colon_no_nl _ Hmc) as Hm1.
  pose proof (digit_dot_no_nl _ Hi) as Hi1.
  pose proof (block_regex_other_bol target (name_of r)
                (txt"{" ++ [nl]
                 ++ (txt"  hardware ethernet " ++ mac_of r ++ txt";") ++ [nl]
                 ++ (txt"  fixed-address " ++ ip_of r ++ txt";") ++ [nl] ++ txt"}"
                 ++ nl :: rest) Ht Nn Hname Hne) as Hhead.
  rewrite canonical_block_lines.
  apply quiet_cons.
  { rewrite <- Hhead. f_equal. f_equal. rewrite <- !app_assoc. reflexivity. }
  apply quiet_app.
  { apply quiet_plain; [|intro H; vm_compute in H; discriminate].
    rewrite !forallb_app, Hn1. reflexivity. }
  apply quiet_app; [apply quiet_nl; reflexivity|].
  apply quiet_app.
  { apply quiet_plain; [|intros _; reflexivity].
    rewrite !forallb_app, Hm1. reflexivity. }
  apply quiet_app; [apply quiet_nl; reflexivity|].
  apply quiet_app.
  { apply quiet_plain; [|intros _; reflexivity].
    rewrite !forallb_app, Hi1. reflexivity. }
  apply quiet_app; [apply quiet_nl; now apply host_kw_head|].
  apply quiet_plain; [reflexivity|intros _; now apply host_kw_head].
Qed.

Lemma ends_line_cases g :
  ends_line g = true -> g = [] \/ exists g0, g = g0 ++ [nl].
Proof.
  unfold ends_line. destruct g as [|a g] using rev_ind; [now left|].
  rewrite rev_app_distr. cbn [rev app]. intro H. apply Ascii.eqb_eq in H. subst a.
  right. now exists g.
Qed.

Lemma ends_line_app_nl g : ends_line (g ++ [nl]) = true.
Proof. unfold ends_line. rewrite rev_app_distr. reflexivity. Qed.

(** What precedes a block in a managed file: nothing at the very start, or
    plain text closed by a newline. *)
Lemma approach_cases pre bol g :
  (pre = [] /\ bol = true) \/ pre = [nl] ->
  has_host_kw g = false -> ends_line g = true ->
  (pre ++ g = [] /\ bol = true)
  \/ exists g0, pre ++ g = g0 ++ [nl] /\ has_host_kw (g0 ++ [nl]) = false.
Proof.
  intros Hpre Hk He. apply ends_line_cases in He.
  destruct Hpre as [[-> ->] | ->]; destruct He as [-> | (g0 & ->)].
  - now left.
  - right. exists g0. auto.
  - right. exists []. auto.
  - right. exists (nl :: g0). cbn [app]. split; [reflexivity|].
    now rewrite has_host_kw_nl.
Qed.

Lemma search_skip_block target r rest gap bol :
  (gap = [] /\ bol = true)
  \/ (exists g0, gap = g0 ++ [nl] /\ has_host_kw (g0 ++ [nl]) = false) ->
  forallb cls_nonspace target = true ->
  managed_record r = true ->
  name_of r <> target ->
  search_from (block_regex target) bol
              (gap ++ block_hw_first canonical (name_of r) (mac_of r) (ip_of r)
                   ++ nl :: rest)
  = search_from (block_regex target) false (nl :: rest).
Proof.
  intros Hgap Ht Hr Hne.
  assert (Hin : search_from (block_regex target) true
                  (block_hw_first canonical (name_of r) (mac_of r) (ip_of r)
                   ++ nl :: rest)
                = search_from (block_regex target) false (nl :: rest)).
  { rewrite search_from_skip by (now apply quiet_block).
    now rewrite advance_canonical_block. }
  destruct Hgap as [[-> ->] | (g0 & -> & Hk)].
  - exact Hin.
  - rewrite <- app_assoc. cbn [app].
    rewrite search_from_skip by (now apply quiet_gap).
    destruct (managed_record_fields _ Hr) as (Nn & Hn & Hb & _).
    assert (Hname : forallb cls_name (name_of r) = true).
    { apply forallb_forall. intros c Hc. unfold cls_name.
      rewrite (proj1 (forallb_forall _ _) Hn c Hc).
      now rewrite (proj1 (forallb_forall _ _) Hb c Hc). }
    assert (Hnl : match_here (block_regex target)
                    (advance bol g0,
                     nl :: block_hw_first canonical (name_of r) (mac_of r) (ip_of r)
                        ++ nl :: rest) = None).
    { rewrite canonical_block_shape. now apply block_regex_other_nl. }
    cbn [search_from]. rewrite Hnl, Ascii.eqb_refl. exact Hin.
Qed.

Lemma search_managed_miss target entries tail : forall pre bol,
  (pre = [] /\ bol = true) \/ pre = [nl] ->
  managed entries tail = true ->
  forallb cls_nonspace target = true ->
  (forall e, In e entries -> name_of (snd e) <> target) ->
  search_from (block_regex target) bol (pre ++ render_managed entries tail) = None.
Proof.
  induction entries as [|[g r] entries IH]; intros pre bol Hpre Hm Ht Hnone.
  - apply managed_nil in Hm as [Hk _]. unfold render_managed. cbn [map concat app].
    apply search_quiet. destruct Hpre as [[-> _] | ->]; [exact Hk|].
    cbn [app]. now rewrite has_host_kw_nl.
  - apply managed_cons in Hm as (Hk & He & Hr & Hm).
    rewrite render_managed_cons, app_assoc.
    rewrite search_skip_block; auto.
    + change (nl :: render_managed entries tail)
        with ([nl] ++ render_managed entries tail).
      apply IH; auto. intros e He'. apply Hnone. now right.
    + now apply approach_cases.
    + apply (Hnone (g, r)). now left.
Qed.

Lemma find_reservation_block_managed_miss target entries tail :
  managed entries tail = true ->
  forallb cls_nonspace target = true ->
  (forall e, In e entries -> name_of (snd e) <> target) ->
  find_reservation_block (render_managed entries tail) target = (-1, -1)%Z.
Proof.
  intros Hm Ht Hnone. unfold find_reservation_block, search.
  pose proof (search_managed_miss target entries tail [] true
                (or_introl (conj eq_refl eq_refl)) Hm Ht Hnone) as H.
  cbn [app] in H. now rewrite H.
Qed.

Lemma canonical_body_no_rbrace mac ip :
  forallb cls_not_rbrace mac = true -> forallb cls_not_rbrace ip = true ->
  forallb cls_not_rbrace (nl :: txt"  hardware ethernet " ++ mac ++ txt";"
                             ++ nl :: txt"  fixed-address " ++ ip ++ txt";") = true.
Proof.
  intros Hm Hi. cbn [forallb]. rewrite !forallb_app. cbn [forallb].
  rewrite !forallb_app. now rewrite Hm, Hi.
Qed.

Lemma search_hit_block r rest gap bol :
  (gap = [] /\ bol = true)
  \/ (exists g0, gap = g0 ++ [nl] /\ has_host_kw (g0 ++ [nl]) = false) ->
  managed_record r = true ->
  exists x,
    search_from (block_regex (name_of r)) bol
                (gap ++ block_hw_first canonical (name_of r) (mac_of r) (ip_of r)
                     ++ nl :: rest) = Some x
    /\ lookup_group 2 (m_groups x)
       = Some (block_hw_first canonical (name_of r) (mac_of r) (ip_of r) ++ nl :: rest,
               nl :: rest)
    /\ m_to x = rest.
Proof.
  intros Hgap Hr.
  destruct (managed_record_fields _ Hr) as (Nn & Hn & _ & Hm & _ & _ & Hi).
  destruct (normalize_mac_shape _ _ Hm) as (_ & _ & _ & Hmb).
  pose proof (canonical_body_no_rbrace _ _ Hmb (digit_dot_not_rbrace _ Hi)) as Hbody.
  assert (N1 : txt" " <> []) by discriminate.
  destruct Hgap as [[-> ->] | (g0 & -> & Hk)].
  - cbn [app]. rewrite canonical_block_shape.
    eexists. split; [|split].
    + apply search_from_here.
      apply (block_regex_hit_bol (name_of r) (txt" ") (txt" ") _ rest N1
                                 eq_refl eq_refl Nn Hn Hbody).
    + reflexivity.
    + reflexivity.
  - rewrite <- app_assoc. cbn [app].
    rewrite search_from_skip by (now apply quiet_gap).
    rewrite canonical_block_shape.
    eexists. split; [|split].
    + apply search_from_here.
      apply (block_regex_hit_nl (name_of r) (txt" ") (txt" ") _ rest (advance bol g0) N1
                                eq_refl eq_refl Nn Hn Hbody).
    + reflexivity.
    + reflexivity.
Qed.

Lemma render_managed_app before after tail :
  render_managed (before ++ after) tail
  = render_managed before [] ++ render_managed after tail.
Proof.
  unfold render_managed. rewrite map_app, concat_app, app_nil_r.
  now rewrite <- app_assoc.
Qed.

Lemma managed_app before after tail :
  managed (before ++ after) tail = true ->
  managed before [] = true /\ managed after tail = true.
Proof.
  unfold managed. rewrite forallb_app. intro H.
  apply andb_true_iff in H as [H Ht]. apply andb_true_iff in H as [Hb Ha].
  rewrite Hb, Ha, Ht. auto.
Qed.

Lemma search_managed_hit before g r after tail : forall pre bol,
  (pre = [] /\ bol = true) \/ pre = [nl] ->
  managed (before ++ (g, r) :: after) tail = true ->
  (forall e, In e before -> name_of (snd e) <> name_of r) ->
  exists x,
    search_from (block_regex (name_of r)) bol
                (pre ++ render_managed (before ++ (g, r) :: after) tail) = Some x
    /\ lookup_group 2 (m_groups x)
       = Some (written r ++ render_managed after tail, nl :: render_managed after tail)
    /\ m_to x = render_managed after tail.
Proof.
  induction before as [|[g' r'] before IH]; intros pre bol Hpre Hm Hnone.
  - cbn [app] in *. apply managed_cons in Hm as (Hk & He & Hr & Hm).
    rewrite render_managed_cons, app_assoc.
    replace (written r ++ render_managed after tail)
      with (block_hw_first canonical (name_of r) (mac_of r) (ip_of r)
              ++ nl :: render_managed after tail)
      by (unfold written; now rewrite <- app_assoc).
    apply search_hit_block; auto. now apply approach_cases.
  - cbn [app] in *. apply managed_cons in Hm as (Hk & He & Hr & Hm).
    destruct (managed_app _ _ _ Hm) as [_ Hm2].
    apply managed_cons in Hm2 as (_ & _ & Hr0 & _).
    destruct (managed_record_fields _ Hr0) as (_ & Hn0 & _).
    rewrite render_managed_cons, app_assoc.
    rewrite search_skip_block; auto.
    + change (nl :: render_managed (before ++ (g, r) :: after) tail)
        with ([nl] ++ render_managed (before ++ (g, r) :: after) tail).
      apply IH; auto. intros e He'. apply Hnone. now right.
    + now apply approach_cases.
    + apply (Hnone (g', r')). now left.
Qed.

(** *** Slices at a known position *)

Lemma clamp_at u v : Str.clamp (u ++ v) (Z.of_nat (length u)) = length u.
Proof.
  unfold Str.clamp, Str.len. rewrite length_app.
  destruct (Z.ltb_spec (Z.of_nat (length u)) 0); lia.
Qed.

Lemma slice_to_at u v : Str.slice_to (u ++ v) (Z.of_nat (length u)) = u.
Proof.
  unfold Str.slice_to. rewrite clamp_at, firstn_app, Nat.sub_diag, firstn_all.
  cbn [firstn]. apply app_nil_r.
Qed.

Lemma slice_from_at u v : Str.slice_from (u ++ v) (Z.of_nat (length u)) = v.
Proof.
  unfold Str.slice_from. rewrite clamp_at, skipn_app, Nat.sub_diag, skipn_all.
  reflexivity.
Qed.

Lemma slice_at u m v :
  Str.slice (u ++ m ++ v) (Z.of_nat (length u)) (Z.of_nat (length (u ++ m))) = m.
Proof.
  unfold Str.slice. rewrite clamp_at.
  replace (Str.clamp (u ++ m ++ v) (Z.of_nat (length (u ++ m)))) with (length (u ++ m))
    by (rewrite app_assoc; now rewrite clamp_at).
  rewrite skipn_app, Nat.sub_diag, skipn_all. cbn [skipn app].
  rewrite length_app.
  replace (length u + length m - length u) with (length m) by lia.
  rewrite firstn_app, Nat.sub_diag, firstn_all. cbn [firstn]. apply app_nil_r.
Qed.

Lemma index_before u c v :
  Str.index ((u ++ [c]) ++ v) (Z.of_nat (length (u ++ [c])) - 1) = Some c.
Proof.
  unfold Str.index, Str.len. rewrite !length_app. cbn [length].
  destruct (Z.ltb_spec (Z.of_nat (length u + 1) - 1) 0) as [H|H]; [lia|].
  replace ((0 <=? Z.of_nat (length u + 1) - 1)%Z) with true
    by (symmetry; apply Z.leb_le; lia).
  replace ((Z.of_nat (length u + 1) - 1 <? Z.of_nat (length u + 1 + length v))%Z) with true
    by (symmetry; apply Z.ltb_lt; lia).
  cbn [andb].
  replace (Z.to_nat (Z.of_nat (length u + 1) - 1)) with (length u) by lia.
  rewrite <- app_assoc. rewrite nth_error_app2 by lia. now rewrite Nat.sub_diag.
Qed.

Lemma ends_line_no_newline_needed s :
  ends_line s = true ->
  (Str.truthy s && negb (Str.endswith s [nl]))%bool = false.
Proof.
  intro H. apply ends_line_cases in H as [-> | (g0 & ->)]; [reflexivity|].
  unfold Str.endswith. rewrite rev_app_distr. cbn [rev app Str.startswith].
  change (Ascii.eqb nl nl) with true. cbn [andb negb]. apply andb_false_r.
Qed.

Lemma ends_line_written r g : ends_line (g ++ written r) = true.
Proof. unfold written. rewrite app_assoc. apply ends_line_app_nl. Qed.

Lemma ends_line_app u v : ends_line u = true -> ends_line v = true ->
  ends_line (u ++ v) = true.
Proof.
  intros Hu Hv. apply ends_line_cases in Hv as [-> | (g0 & ->)].
  - now rewrite app_nil_r.
  - rewrite app_assoc. apply ends_line_app_nl.
Qed.

Lemma ends_line_render_managed entries tail :
  managed entries tail = true -> ends_line (render_managed entries tail) = true.
Proof.
  induction entries as [|[g r] entries IH]; intro Hm.
  - apply managed_nil in Hm as [_ He]. exact He.
  - apply managed_cons in Hm as (_ & _ & _ & Hm).
    change ((g, r) :: entries) with ([(g, r)] ++ entries).
    rewrite render_managed_app.
    apply ends_line_app; [|now apply IH].
    unfold render_managed. cbn [map concat fst snd]. rewrite !app_nil_r.
    apply ends_line_written.
Qed.

Lemma render_managed_split before g r after tail :
  render_managed (before ++ (g, r) :: after) tail
  = (render_managed before [] ++ g) ++ written r ++ render_managed after tail.
Proof.
  rewrite render_managed_app, render_managed_cons.
  unfold written. rewrite <- !app_assoc. reflexivity.
Qed.

Lemma find_reservation_block_managed_hit before g r after tail :
  managed (before ++ (g, r) :: after) tail = true ->
  (forall e, In e before -> name_of (snd e) <> name_of r) ->
  find_reservation_block (render_managed (before ++ (g, r) :: after) tail) (name_of r)
  = (Z.of_nat (length (render_managed before [] ++ g)),
     Z.of_nat (length ((render_managed before [] ++ g) ++ written r))).
Proof.
  intros Hm Hnone. unfold find_reservation_block, search.
  destruct (search_managed_hit before g r after tail [] true
              (or_introl (conj eq_refl eq_refl)) Hm Hnone) as (x & Hx & Hg & Ht).
  cbn [app] in Hx. rewrite Hx.
  unfold start_of, end_of. rewrite Hg, Ht. cbn [fst].
  rewrite render_managed_split. rewrite !length_app.
  f_equal; f_equal; lia.
Qed.

Lemma approach_text before g :
  managed before [] = true -> ends_line g = true ->
  render_managed before [] ++ g = []
  \/ exists p, render_managed before [] ++ g = p ++ [nl].
Proof.
  intros Hm Hg.
  pose proof (ends_line_app _ _ (ends_line_render_managed _ _ Hm) Hg) as H.
  now apply ends_line_cases in H.
Qed.

(** *** A written block determines its record *)

Lemma app_cut_unique (P : ascii -> bool) c : forall a a' b b',
  forallb P a = true -> forallb P a' = true -> P c = false ->
  a ++ c :: b = a' ++ c :: b' -> a = a' /\ b = b'.
Proof.
  induction a as [|x a IH]; intros [|x' a'] b b' Ha Ha' Hc E; cbn [app forallb] in *.
  - injection E as E. auto.
  - injection E as E1 E2. subst x'. rewrite Hc in Ha'. discriminate.
  - injection E as E1 E2. subst x. rewrite Hc in Ha. discriminate.
  - injection E as E1 E2. subst x'.
    apply andb_true_iff in Ha as [_ Ha]. apply andb_true_iff in Ha' as [_ Ha'].
    destruct (IH a' b b' Ha Ha' Hc E2) as [-> ->]. auto.
Qed.

Lemma written_same_name_inj name m1 i1 m2 i2 :
  forallb cls_hex_colon_i m1 = true -> forallb cls_hex_colon_i m2 = true ->
  written (name, m1, i1) = written (name, m2, i2) -> m1 = m2 /\ i1 = i2.
Proof.
  intros H1 H2 E. unfold written, name_of, mac_of, ip_of in E. cbn [fst snd] in E.
  rewrite !canonical_block_shape in E.
  do 4 apply app_inv_head in E.
  injection E as E.
  repeat first [rewrite <- app_assoc in E | progress cbn [app] in E].
  apply (app_cut_unique cls_hex_colon_i ";" m1 m2 _ _ H1 H2 eq_refl) in E as [-> E].
  split; [reflexivity|].
  injection E as E. now apply app_inv_tail in E.
Qed.

(** *** Adding to a managed file *)

Lemma managed_extend entries tail new :
  managed entries tail = true -> managed_record new = true ->
  managed (entries ++ [(tail, new)]) [] = true.
Proof.
  unfold managed. intros Hm Hr. apply andb_true_iff in Hm as [He Ht].
  rewrite forallb_app, He. cbn [forallb fst snd]. now rewrite Ht, Hr.
Qed.

Lemma render_managed_extend entries tail new :
  render_managed entries tail ++ written new
  = render_managed (entries ++ [(tail, new)]) [].
Proof.
  unfold render_managed. rewrite map_app, concat_app. cbn [map concat fst snd].
  rewrite !app_nil_r. now rewrite <- app_assoc.
Qed.

Lemma managed_replace before g r after tail new :
  managed (before ++ (g, r) :: after) tail = true -> managed_record new = true ->
  managed (before ++ (g, new) :: after) tail = true.
Proof.
  unfold managed. rewrite !forallb_app. cbn [forallb fst snd]. intros Hm Hr.
  apply andb_true_iff in Hm as [Hm Ht]. apply andb_true_iff in Hm as [Hb Hm].
  apply andb_true_iff in Hm as [Hg Ha]. apply andb_true_iff in Hg as [Hg _].
  now rewrite Hb, Hg, Hr, Ha, Ht.
Qed.

Lemma split_first_named (entries : list entry) target :
  (forall e, In e entries -> name_of (snd e) <> target)
  \/ exists before g r after,
       entries = before ++ (g, r) :: after /\ name_of r = target
       /\ forall e, In e before -> name_of (snd e) <> target.
Proof.
  induction entries as [|[g r] entries IH].
  - left. intros e [].
  - destruct (Str.eqb (name_of r) target) eqn:E.
    + apply str_eqb_eq in E. right. exists [], g, r, entries.
      split; [reflexivity|]. split; [exact E|]. intros e [].
    + apply str_eqb_neq in E. destruct IH as [IH | (before & g' & r' & after & -> & Hn & Hb)].
      * left. intros e [<- | He]; [exact E | now apply IH].
      * right. exists ((g, r) :: before), g', r', after.
        split; [reflexivity|]. split; [exact Hn|].
        intros e [<- | He]; [exact E | now apply Hb].
Qed.

Lemma find_by_mac_managed entries tail mac :
  managed entries tail = true -> normalize_mac mac = Some mac ->
  find_reservation_by_mac (render_managed entries tail) mac
  = find (fun r => Str.eqb (mac_of r) mac) (map snd entries).
Proof.
  intros Hm Hn. rewrite (find_reservation_by_mac_find _ _ _ Hn).
  now rewrite extract_managed.
Qed.

Lemma find_first_new (before : list entry) g new after :
  (forall e, In e before -> mac_of (snd e) <> mac_of new) ->
  find (fun r => Str.eqb (mac_of r) (mac_of new)) (map snd (before ++ (g, new) :: after))
  = Some new.
Proof.
  induction before as [|[g' r'] before IH]; intro H; cbn [app map find snd].
  - now rewrite str_eqb_refl.
  - assert (E : Str.eqb (mac_of r') (mac_of new) = false).
    { apply str_eqb_neq. apply (H (g', r')). now left. }
    rewrite E. apply IH. intros e He. apply H. now right.
Qed.

Lemma apply_reservation_at P old R hostname mac ip domain :
  find_reservation_block (P ++ old ++ R) (make_fqdn hostname domain)
  = (Z.of_nat (length P), Z.of_nat (length (P ++ old))) ->
  (P = [] \/ exists p, P = p ++ [nl]) ->
  apply_reservation (P ++ old ++ R) hostname mac ip domain
  = (P ++ build_reservation_block hostname mac ip domain ++ R,
     negb (Str.eqb (build_reservation_block hostname mac ip domain) old), None).
Proof.
  intros Hf HP. unfold apply_reservation. cbv zeta. rewrite Hf.
  replace (negb (Z.of_nat (length P) =? -1)%Z) with true
    by (symmetry; apply negb_true_iff, Z.eqb_neq; lia).
  rewrite slice_to_at, slice_at.
  assert (Hsf : Str.slice_from (P ++ old ++ R) (Z.of_nat (length (P ++ old))) = R)
    by (rewrite app_assoc; apply slice_from_at).
  rewrite Hsf.
  assert (Hp : ((Z.of_nat (length P) >? 0)%Z
                && negb (match Str.index (P ++ old ++ R) (Z.of_nat (length P) - 1) with
                         | Some c => Ascii.eqb c nl
                         | None => false
                         end))%bool = false).
  { destruct HP as [-> | (p & ->)]; [reflexivity|].
    rewrite index_before. change (Ascii.eqb nl nl) with true. apply andb_false_r. }
  rewrite Hp. reflexivity.
Qed.

Lemma build_written hostname mac ip domain :
  build_reservation_block hostname mac ip domain
  = written (make_fqdn hostname domain, mac, ip).
Proof. rewrite build_reservation_block_canonical. reflexivity. Qed.

Lemma apply_managed_append entries tail hostname mac ip domain :
  managed entries tail = true ->
  managed_record (make_fqdn hostname domain, mac, ip) = true ->
  (forall e, In e entries -> name_of (snd e) <> make_fqdn hostname domain) ->
  apply_reservation (render_managed entries tail) hostname mac ip domain
  = (render_managed (entries ++ [(tail, (make_fqdn hostname domain, mac, ip))]) [],
     true, None).
Proof.
  intros Hm Hr Hnone.
  destruct (managed_record_fields _ Hr) as (_ & Hns & _).
  unfold name_of in Hns. cbn [fst] in Hns.
  unfold apply_reservation. cbv zeta.
  rewrite (find_reservation_block_managed_miss _ _ _ Hm Hns Hnone).
  change (negb (-1 =? -1)%Z) with false. cbv iota.
  rewrite (ends_line_no_newline_needed _ (ends_line_render_managed _ _ Hm)).
  now rewrite build_written, render_managed_extend.
Qed.

Lemma apply_managed_update before g r after tail hostname mac ip domain :
  managed (before ++ (g, r) :: after) tail = true ->
  name_of r = make_fqdn hostname domain ->
  (forall e, In e before -> name_of (snd e) <> make_fqdn hostname domain) ->
  apply_reservation (render_managed (before ++ (g, r) :: after) tail)
                    hostname mac ip domain
  = (render_managed (before ++ (g, (make_fqdn hostname domain, mac, ip)) :: after) tail,
     negb (Str.eqb (written (make_fqdn hostname domain, mac, ip)) (written r)), None).
Proof.
  intros Hm Hname Hnone.
  destruct (managed_app _ _ _ Hm) as [Hb Ha].
  apply managed_cons in Ha as (_ & Hg & _ & _).
  rewrite <- Hname in Hnone.
  pose proof (find_reservation_block_managed_hit _ _ _ _ _ Hm Hnone) as Hf.
  rewrite Hname in Hf. rewrite render_managed_split in Hf.
  rewrite !render_managed_split.
  rewrite (apply_reservation_at _ _ _ hostname mac ip domain Hf (approach_text _ _ Hb Hg)).
  now rewrite build_written.
Qed.

Lemma add_reservation_present before g after tail hostname mac ip domain interactive stdin :
  managed (before ++ (g, (make_fqdn hostname domain, mac, ip)) :: after) tail = true ->
  (forall e, In e before -> mac_of (snd e) <> mac) ->
  add_reservation
    (render_managed (before ++ (g, (make_fqdn hostname domain, mac, ip)) :: after) tail)
    hostname mac ip domain interactive stdin
  = ((render_managed (before ++ (g, (make_fqdn hostname domain, mac, ip)) :: after) tail,
      false, None), stdin).
Proof.
  intros Hm Hb.
  destruct (managed_app _ _ _ Hm) as [_ Ha].
  apply managed_cons in Ha as (_ & _ & Hr & _).
  destruct (managed_record_fields _ Hr) as (_ & _ & _ & Hn & _).
  unfold mac_of in Hn. cbn [fst snd] in Hn.
  unfold add_reservation. cbv zeta.
  rewrite (find_by_mac_managed _ _ _ Hm Hn).
  pose proof (find_first_new before g (make_fqdn hostname domain, mac, ip) after Hb) as F.
  change (mac_of (make_fqdn hostname domain, mac, ip)) with mac in F.
  match goal with
  | |- context [find ?f ?l] =>
      replace (find f l) with (Some (make_fqdn hostname domain, mac, ip))
        by (symmetry; exact F)
  end.
  now rewrite !str_eqb_refl.
Qed.

Lemma add_reservation_applies entries tail hostname mac ip domain interactive stdin :
  managed entries tail = true ->
  normalize_mac mac = Some mac ->
  (forall e, In e entries -> mac_of (snd e) = mac ->
             name_of (snd e) = make_fqdn hostname domain) ->
  ~ In (make_fqdn hostname domain, mac, ip) (map snd entries) ->
  add_reservation (render_managed entries tail) hostname mac ip domain interactive stdin
  = (apply_reservation (render_managed entries tail) hostname mac ip domain, stdin).
Proof.
  intros Hm Hn Hc Hnew. unfold add_reservation. cbv zeta.
  rewrite (find_by_mac_managed _ _ _ Hm Hn).
  destruct (find _ _) as [[[n m] i]|] eqn:F; [|reflexivity].
  apply find_some in F as [Hin Hmac]. apply str_eqb_eq in Hmac.
  unfold mac_of in Hmac. cbn [fst snd] in Hmac. subst m.
  pose proof Hin as Hin'. apply in_map_iff in Hin' as (e & He & Hine).
  assert (Hname : n = make_fqdn hostname domain).
  { specialize (Hc e Hine). rewrite He in Hc. now apply Hc. }
  subst n. rewrite str_eqb_refl. cbn [andb].
  destruct (Str.eqb i ip) eqn:Ei; [|reflexivity].
  apply str_eqb_eq in Ei. subst i. contradiction.
Qed.

(** X1. On a file made of blocks as the tool writes them, adding a record
    that is not there yet, and whose MAC no other host holds, changes the
    text; adding the same record again to the result reports no change, no
    error, and leaves the text as it is.  The terminal is never read. *)
Theorem add_reservation_twice_managed entries tail hostname mac ip domain interactive stdin :
  managed entries tail = true ->
  managed_record (make_fqdn hostname domain, mac, ip) = true ->
  (forall e, In e entries -> mac_of (snd e) = mac ->
             name_of (snd e) = make_fqdn hostname domain) ->
  ~ In (make_fqdn hostname domain, mac, ip) (map snd entries) ->
  exists t1,
    add_reservation (render_managed entries tail) hostname mac ip domain interactive stdin
    = ((t1, true, None), stdin)
    /\ add_reservation t1 hostname mac ip domain interactive stdin
       = ((t1, false, None), stdin).
Proof.
  intros Hm Hr Hc Hnew.
  destruct (managed_record_fields _ Hr) as (_ & _ & _ & Hn & _).
  change (mac_of (make_fqdn hostname domain, mac, ip)) with mac in Hn.
  rewrite (add_reservation_applies _ _ _ _ _ _ interactive stdin Hm Hn Hc Hnew).
  destruct (split_first_named entries (make_fqdn hostname domain))
    as [Hnone | (before & g & r & after & -> & Hname & Hb)].
  - (* no block of that name: the block is appended *)
    exists (render_managed (entries ++ [(tail, (make_fqdn hostname domain, mac, ip))]) []).
    split.
    + now rewrite (apply_managed_append _ _ _ _ _ _ Hm Hr Hnone).
    + apply add_reservation_present.
      * now apply managed_extend.
      * intros e He Hmac. apply (Hnone e He). now apply Hc.
  - (* a block of that name: it is replaced where it stands *)
    exists (render_managed (before ++ (g, (make_fqdn hostname domain, mac, ip)) :: after) tail).
    split.
    + rewrite (apply_managed_update _ _ _ _ _ _ _ _ _ Hm Hname Hb).
      assert (Hdiff : Str.eqb (written (make_fqdn hostname domain, mac, ip)) (written r)
                      = false).
      { apply str_eqb_neq. intro E. apply Hnew.
        destruct (managed_app _ _ _ Hm) as [_ Ha].
        apply managed_cons in Ha as (_ & _ & Hr0 & _).
        destruct (managed_record_fields _ Hr0) as (_ & _ & _ & Hn0 & _).
        destruct (normalize_mac_shape _ _ Hn) as (_ & Hx & _).
        destruct (normalize_mac_shape _ _ Hn0) as (_ & Hx0 & _).
        destruct r as [[n0 m0] i0]. unfold name_of in Hname. cbn [fst] in Hname. subst n0.
        change (mac_of (make_fqdn hostname domain, m0, i0)) with m0 in Hx0.
        destruct (written_same_name_inj _ _ _ _ _ Hx Hx0 E) as [-> ->].
        rewrite map_app. apply in_or_app. right. now left. }
      now rewrite Hdiff.
    + apply add_reservation_present.
      * now apply (managed_replace _ _ r).
      * intros e He Hmac. apply (Hb e He). apply Hc; [|exact Hmac].
        apply in_or_app. now left.
Qed.

Lemma add_reservation_twice_managed_witness :
  exists t1,
    add_reservation
      (render_managed [(txt"# hosts" ++ [nl],
                        (txt"b.example.com", txt"aa:bb:cc:dd:ee:02", txt"10.0.0.9"))] [])
      (txt"b") (txt"aa:bb:cc:dd:ee:02") (txt"10.0.0.2") (Some (txt"example.com")) false []
    = ((t1, true, None), [])
    /\ add_reservation t1 (txt"b") (txt"aa:bb:cc:dd:ee:02") (txt"10.0.0.2")
                       (Some (txt"example.com")) false []
       = ((t1, false, None), []).
Proof.
  apply (add_reservation_twice_managed
           [(txt"# hosts" ++ [nl],
             (txt"b.example.com", txt"aa:bb:cc:dd:ee:02", txt"10.0.0.9"))] []
           (txt"b") (txt"aa:bb:cc:dd:ee:02") (txt"10.0.0.2") (Some (txt"example.com"))
           false []).
  - vm_compute. reflexivity.
  - vm_compute. reflexivity.
  - intros e [<- | []] _. vm_compute. reflexivity.
  - intros [H | []]. vm_compute in H. discriminate.
Defined.

(** *** Removing from a managed file *)

Lemma has_host_kw_app_line g0 g2 :
  has_host_kw (g0 ++ [nl]) = false -> has_host_kw g2 = false ->
  has_host_kw ((g0 ++ [nl]) ++ g2) = false.
Proof.
  induction g0 as [|a g0 IH]; intros H1 H2.
  - cbn [app]. now rewrite has_host_kw_nl.
  - cbn [app has_host_kw] in *. apply orb_false_iff in H1 as [Hh Ht].
    apply orb_false_iff. split.
    + rewrite <- app_assoc. cbn [app].
      change (a :: g0 ++ nl :: g2) with ((a :: g0) ++ nl :: g2).
      rewrite host_kw_cut. exact Hh.
    + now apply IH.
Qed.

Lemma plain_text_app g g2 :
  plain_text g = true -> plain_text g2 = true -> plain_text (g ++ g2) = true.
Proof.
  unfold plain_text. intros H1 H2.
  apply andb_true_iff in H1 as [K1 E1]. apply andb_true_iff in H2 as [K2 E2].
  apply negb_true_iff in K1, K2.
  apply andb_true_iff. split.
  - apply negb_true_iff. apply ends_line_cases in E1 as [-> | (g0 & ->)]; [exact K2|].
    now apply has_host_kw_app_line.
  - now apply ends_line_app.
Qed.

Lemma managed_plain_head g r after tail :
  managed ((g, r) :: after) tail = true -> plain_text g = true.
Proof.
  unfold managed. cbn [forallb fst snd]. intro H.
  apply andb_true_iff in H as [H _]. apply andb_true_iff in H as [H _].
  now apply andb_true_iff in H as [H _].
Qed.

Lemma managed_join before after tail :
  managed before [] = true -> managed after tail = true ->
  managed (before ++ after) tail = true.
Proof.
  unfold managed. intros Hb Ha. rewrite forallb_app.
  apply andb_true_iff in Hb as [Hb _]. now rewrite Hb.
Qed.

Lemma managed_cons_intro g r after tail :
  plain_text g = true -> managed_record r = true -> managed after tail = true ->
  managed ((g, r) :: after) tail = true.
Proof.
  unfold managed. intros Hg Hr Ha. cbn [forallb fst snd]. now rewrite Hg, Hr.
Qed.

(** The text left when a block is cut out is again a managed file, with the
    other records in their order. *)
Lemma managed_cut before g r after tail :
  managed (before ++ (g, r) :: after) tail = true ->
  exists entries' tail',
    render_managed before [] ++ g ++ render_managed after tail
    = render_managed entries' tail'
    /\ managed entries' tail' = true
    /\ map snd entries' = map snd (before ++ after).
Proof.
  intro Hm. destruct (managed_app _ _ _ Hm) as [Hb Ha].
  pose proof (managed_plain_head _ _ _ _ Ha) as Hg.
  apply managed_cons in Ha as (_ & _ & _ & Ha).
  destruct after as [|[g2 r2] after].
  - exists before, (g ++ tail). split; [|split].
    + unfold render_managed. cbn [map concat app]. now rewrite !app_nil_r.
    + unfold managed in *. apply andb_true_iff in Hb as [Hb _].
      apply andb_true_iff in Ha as [_ Ht]. rewrite Hb. cbn [andb].
      now apply plain_text_app.
    + now rewrite app_nil_r.
  - exists (before ++ (g ++ g2, r2) :: after), tail. split; [|split].
    + rewrite !render_managed_app. f_equal.
      unfold render_managed. cbn [map concat fst snd]. now rewrite <- !app_assoc.
    + pose proof (managed_plain_head _ _ _ _ Ha) as Hg2.
      apply managed_cons in Ha as (_ & _ & Hr2 & Ha).
      apply managed_join; [exact Hb|].
      apply managed_cons_intro; auto using plain_text_app.
    + rewrite !map_app. reflexivity.
Qed.

Lemma remove_reservation_at P old R hostname domain :
  find_reservation_block (P ++ old ++ R) (make_fqdn hostname domain)
  = (Z.of_nat (length P), Z.of_nat (length (P ++ old))) ->
  remove_reservation (P ++ old ++ R) hostname domain = (P ++ R, true).
Proof.
  intro Hf. unfold remove_reservation. cbv zeta. rewrite Hf.
  replace (Z.of_nat (length P) =? -1)%Z with false by (symmetry; apply Z.eqb_neq; lia).
  rewrite slice_to_at.
  assert (Hsf : Str.slice_from (P ++ old ++ R) (Z.of_nat (length (P ++ old))) = R)
    by (rewrite app_assoc; apply slice_from_at).
  now rewrite Hsf.
Qed.

Lemma remove_managed before g r after tail hostname domain :
  managed (before ++ (g, r) :: after) tail = true ->
  name_of r = make_fqdn hostname domain ->
  (forall e, In e before -> name_of (snd e) <> make_fqdn hostname domain) ->
  remove_reservation (render_managed (before ++ (g, r) :: after) tail) hostname domain
  = (render_managed before [] ++ g ++ render_managed after tail, true).
Proof.
  intros Hm Hname Hnone. rewrite <- Hname in Hnone.
  pose proof (find_reservation_block_managed_hit _ _ _ _ _ Hm Hnone) as Hf.
  rewrite Hname, render_managed_split in Hf.
  rewrite render_managed_split.
  rewrite (remove_reservation_at _ _ _ hostname domain Hf).
  now rewrite <- app_assoc.
Qed.

(** X2. On a managed file holding no block of the new name and no block with
    the new MAC, [add_reservation] puts the written block at the very end of
    the text, leaves what was there untouched, and the listing of the new
    text is the old listing followed by the new record. *)
Theorem add_reservation_appends entries tail hostname mac ip domain interactive stdin :
  managed entries tail = true ->
  managed_record (make_fqdn hostname domain, mac, ip) = true ->
  (forall e, In e entries ->
             name_of (snd e) <> make_fqdn hostname domain /\ mac_of (snd e) <> mac) ->
  add_reservation (render_managed entries tail) hostname mac ip domain interactive stdin
  = ((render_managed entries tail ++ build_reservation_block hostname mac ip domain,
      true, None), stdin)
  /\ extract_all_reservations
       (render_managed entries tail ++ build_reservation_block hostname mac ip domain)
     = extract_all_reservations (render_managed entries tail)
       ++ [(make_fqdn hostname domain, mac, ip)].
Proof.
  intros Hm Hr Hfree.
  destruct (managed_record_fields _ Hr) as (_ & _ & _ & Hn & _).
  change (mac_of (make_fqdn hostname domain, mac, ip)) with mac in Hn.
  assert (Hnone : forall e, In e entries -> name_of (snd e) <> make_fqdn hostname domain)
    by (intros e He; now destruct (Hfree e He)).
  split.
  - rewrite (add_reservation_applies _ _ _ _ _ _ interactive stdin Hm Hn).
    + rewrite (apply_managed_append _ _ _ _ _ _ Hm Hr Hnone).
      now rewrite build_written, render_managed_extend.
    + intros e He Hmac. now destruct (Hfree e He).
    + intro Hin. apply in_map_iff in Hin as (e & He & Hin).
      apply (Hnone e Hin). now rewrite He.
  - rewrite build_written, render_managed_extend.
    rewrite (extract_managed _ _ (managed_extend _ _ _ Hm Hr)).
    rewrite (extract_managed _ _ Hm). now rewrite map_app.
Qed.

Lemma add_reservation_appends_witness :
  add_reservation demo_content (txt"b") (txt"aa:bb:cc:dd:ee:02") (txt"10.0.0.2")
                  (Some (txt"example.com")) false []
  = ((demo_content ++ build_reservation_block (txt"b") (txt"aa:bb:cc:dd:ee:02")
                        (txt"10.0.0.2") (Some (txt"example.com")), true, None), [])
  /\ extract_all_reservations
       (demo_content ++ build_reservation_block (txt"b") (txt"aa:bb:cc:dd:ee:02")
                          (txt"10.0.0.2") (Some (txt"example.com")))
     = extract_all_reservations demo_content
       ++ [(txt"b.example.com", txt"aa:bb:cc:dd:ee:02", txt"10.0.0.2")].
Proof.
  apply (add_reservation_appends
           [([], (txt"a.example.com", txt"aa:bb:cc:dd:ee:01", txt"10.0.0.1"))] []
           (txt"b") (txt"aa:bb:cc:dd:ee:02") (txt"10.0.0.2") (Some (txt"example.com"))
           false []).
  - vm_compute. reflexivity.
  - vm_compute. reflexivity.
  - intros e [<- | []]. split; vm_compute; discriminate.
Defined.

(** X3. When the managed file already holds a block of that name with other
    data, and no other block holds the new MAC, [add_reservation] rewrites
    that block where it stands: every other block and all the text between
    the blocks stay as they were, and the listing shows the new record in
    the place of the old one. *)
Theorem add_reservation_updates_in_place
        before g r after tail hostname mac ip domain interactive stdin :
  managed (before ++ (g, r) :: after) tail = true ->
  managed_record (make_fqdn hostname domain, mac, ip) = true ->
  name_of r = make_fqdn hostname domain ->
  r <> (make_fqdn hostname domain, mac, ip) ->
  (forall e, In e before -> name_of (snd e) <> make_fqdn hostname domain) ->
  (forall e, In e (before ++ after) -> mac_of (snd e) <> mac) ->
  add_reservation (render_managed (before ++ (g, r) :: after) tail)
                  hostname mac ip domain interactive stdin
  = ((render_managed (before ++ (g, (make_fqdn hostname domain, mac, ip)) :: after) tail,
      true, None), stdin)
  /\ extract_all_reservations
       (render_managed (before ++ (g, (make_fqdn hostname domain, mac, ip)) :: after) tail)
     = map snd before ++ (make_fqdn hostname domain, mac, ip) :: map snd after.
Proof.
  intros Hm Hr Hname Hdiff Hb Hmac.
  destruct (managed_record_fields _ Hr) as (_ & _ & _ & Hn & _).
  change (mac_of (make_fqdn hostname domain, mac, ip)) with mac in Hn.
  split.
  - rewrite (add_reservation_applies _ _ _ _ _ _ interactive stdin Hm Hn).
    + rewrite (apply_managed_update _ _ _ _ _ _ _ _ _ Hm Hname Hb).
      assert (E : Str.eqb (written (make_fqdn hostname domain, mac, ip)) (written r) = false).
      { apply str_eqb_neq. intro E. apply Hdiff.
        destruct (managed_app _ _ _ Hm) as [_ Ha].
        apply managed_cons in Ha as (_ & _ & Hr0 & _).
        destruct (managed_record_fields _ Hr0) as (_ & _ & _ & Hn0 & _).
        destruct (normalize_mac_shape _ _ Hn) as (_ & Hx & _).
        destruct (normalize_mac_shape _ _ Hn0) as (_ & Hx0 & _).
        destruct r as [[n0 m0] i0]. unfold name_of in Hname. cbn [fst] in Hname. subst n0.
        change (mac_of (make_fqdn hostname domain, m0, i0)) with m0 in Hx0.
        now destruct (written_same_name_inj _ _ _ _ _ Hx Hx0 E) as [-> ->]. }
      now rewrite E.
    + intros e He Hmacs. apply in_app_or in He as [He | [<- | He]].
      * exfalso. apply (Hmac e); [apply in_or_app; now left | exact Hmacs].
      * exact Hname.
      * exfalso. apply (Hmac e); [apply in_or_app; now right | exact Hmacs].
    + intro Hin. rewrite map_app in Hin. cbn [map snd] in Hin.
      apply in_app_or in Hin as [Hin | [Hin | Hin]].
      * apply in_map_iff in Hin as (e & He & Hin).
        apply (Hmac e); [apply in_or_app; now left | now rewrite He].
      * now apply Hdiff.
      * apply in_map_iff in Hin as (e & He & Hin).
        apply (Hmac e); [apply in_or_app; now right | now rewrite He].
  - pose proof (extract_managed _ _ (managed_replace _ _ r _ _ _ Hm Hr)) as E.
    rewrite map_app in E. exact E.
Qed.

Lemma add_reservation_updates_in_place_witness :
  add_reservation demo_content (txt"a") (txt"aa:bb:cc:dd:ee:01") (txt"10.0.0.7")
                  (Some (txt"example.com")) true []
  = ((build_reservation_block (txt"a") (txt"aa:bb:cc:dd:ee:01") (txt"10.0.0.7")
                              (Some (txt"example.com")), true, None), [])
  /\ extract_all_reservations
       (build_reservation_block (txt"a") (txt"aa:bb:cc:dd:ee:01") (txt"10.0.0.7")
                                (Some (txt"example.com")))
     = [(txt"a.example.com", txt"aa:bb:cc:dd:ee:01", txt"10.0.0.7")].
Proof.
  apply (add_reservation_updates_in_place
           [] [] (txt"a.example.com", txt"aa:bb:cc:dd:ee:01", txt"10.0.0.1") [] []
           (txt"a") (txt"aa:bb:cc:dd:ee:01") (txt"10.0.0.7") (Some (txt"example.com"))
           true []).
  - vm_compute. reflexivity.
  - vm_compute. reflexivity.
  - vm_compute. reflexivity.
  - vm_compute. discriminate.
  - intros e [].
  - intros e [].
Defined.

(** X4. Removing a host right after it was appended gives back the text as
    it was before the addition, byte for byte. *)
Theorem remove_reservation_undoes_append entries tail hostname mac ip domain :
  managed entries tail = true ->
  managed_record (make_fqdn hostname domain, mac, ip) = true ->
  (forall e, In e entries -> name_of (snd e) <> make_fqdn hostname domain) ->
  remove_reservation
    (render_managed entries tail ++ build_reservation_block hostname mac ip domain)
    hostname domain
  = (render_managed entries tail, true).
Proof.
  intros Hm Hr Hnone.
  rewrite build_written, render_managed_extend.
  pose proof (remove_managed entries tail (make_fqdn hostname domain, mac, ip) [] []
                hostname domain (managed_extend _ _ _ Hm Hr) eq_refl Hnone) as E.
  etransitivity; [exact E|]. f_equal.
  unfold render_managed. cbn [map concat app]. now rewrite !app_nil_r.
Qed.

Lemma remove_reservation_undoes_append_witness :
  remove_reservation
    (demo_content ++ build_reservation_block (txt"b") (txt"aa:bb:cc:dd:ee:02")
                       (txt"10.0.0.2") (Some (txt"example.com")))
    (txt"b") (Some (txt"example.com"))
  = (demo_content, true).
Proof.
  apply (remove_reservation_undoes_append
           [([], (txt"a.example.com", txt"aa:bb:cc:dd:ee:01", txt"10.0.0.1"))] []
           (txt"b") (txt"aa:bb:cc:dd:ee:02") (txt"10.0.0.2") (Some (txt"example.com"))).
  - vm_compute. reflexivity.
  - vm_compute. reflexivity.
  - intros e [<- | []]. vm_compute. discriminate.
Defined.

(** X5. On a managed file, [remove_reservation] cuts out the first block of
    the given name and nothing else: it reports a change, the text before
    and after the block is kept, and the listing of the result is the old
    listing without that one record. *)
Theorem remove_reservation_cuts_one_block before g r after tail hostname domain :
  managed (before ++ (g, r) :: after) tail = true ->
  name_of r = make_fqdn hostname domain ->
  (forall e, In e before -> name_of (snd e) <> make_fqdn hostname domain) ->
  extract_all_reservations (render_managed (before ++ (g, r) :: after) tail)
  = map snd before ++ r :: map snd after
  /\ remove_reservation (render_managed (before ++ (g, r) :: after) tail) hostname domain
     = (render_managed before [] ++ g ++ render_managed after tail, true)
  /\ extract_all_reservations (render_managed before [] ++ g ++ render_managed after tail)
     = map snd before ++ map snd after.
Proof.
  intros Hm Hname Hnone. split; [|split].
  - pose proof (extract_managed _ _ Hm) as E. rewrite map_app in E. exact E.
  - now apply remove_managed.
  - destruct (managed_cut _ _ _ _ _ Hm) as (entries' & tail' & -> & Hm' & Hmap).
    rewrite (extract_managed _ _ Hm'), Hmap. now rewrite map_app.
Qed.

Lemma remove_reservation_cuts_one_block_witness :
  extract_all_reservations
    (render_managed
       [(txt"# lab" ++ [nl], (txt"a.example.com", txt"aa:bb:cc:dd:ee:01", txt"10.0.0.1"));
        ([nl], (txt"b.example.com", txt"aa:bb:cc:dd:ee:02", txt"10.0.0.2"))]
       (txt"# end" ++ [nl]))
  = [] ++ (txt"a.example.com", txt"aa:bb:cc:dd:ee:01", txt"10.0.0.1")
       :: [(txt"b.example.com", txt"aa:bb:cc:dd:ee:02", txt"10.0.0.2")]
  /\ remove_reservation
       (render_managed
          [(txt"# lab" ++ [nl], (txt"a.example.com", txt"aa:bb:cc:dd:ee:01", txt"10.0.0.1"));
           ([nl], (txt"b.example.com", txt"aa:bb:cc:dd:ee:02", txt"10.0.0.2"))]
          (txt"# end" ++ [nl]))
       (txt"a") (Some (txt"example.com"))
     = (render_managed [] [] ++ (txt"# lab" ++ [nl])
          ++ render_managed
               [([nl], (txt"b.example.com", txt"aa:bb:cc:dd:ee:02", txt"10.0.0.2"))]
               (txt"# end" ++ [nl]), true)
  /\ extract_all_reservations
       (render_managed [] [] ++ (txt"# lab" ++ [nl])
          ++ render_managed
               [([nl], (txt"b.example.com", txt"aa:bb:cc:dd:ee:02", txt"10.0.0.2"))]
               (txt"# end" ++ [nl]))
     = [] ++ [(txt"b.example.com", txt"aa:bb:cc:dd:ee:02", txt"10.0.0.2")].
Proof.
  apply (remove_reservation_cuts_one_block
           [] (txt"# lab" ++ [nl])
           (txt"a.example.com", txt"aa:bb:cc:dd:ee:01", txt"10.0.0.1")
           [([nl], (txt"b.example.com", txt"aa:bb:cc:dd:ee:02", txt"10.0.0.2"))]
           (txt"# end" ++ [nl]) (txt"a") (Some (txt"example.com"))).
  - vm_compute. reflexivity.
  - vm_compute. reflexivity.
  - intros e [].
Defined.

(** X6. Removing the same host a second time changes nothing: when no later
    block carries the same name, the second [remove_reservation] reports no
    change and returns the text it was given. *)
Theorem remove_reservation_twice before g r after tail hostname domain :
  managed (before ++ (g, r) :: after) tail = true ->
  name_of r = make_fqdn hostname domain ->
  (forall e, In e (before ++ after) -> name_of (snd e) <> make_fqdn hostname domain) ->
  exists t1,
    remove_reservation (render_managed (before ++ (g, r) :: after) tail) hostname domain
    = (t1, true)
    /\ remove_reservation t1 hostname domain = (t1, false).
Proof.
  intros Hm Hname Hnone.
  exists (render_managed before [] ++ g ++ render_managed after tail). split.
  - apply remove_managed; auto. intros e He. apply Hnone. apply in_or_app. now left.
  - destruct (managed_app _ _ _ Hm) as [_ Ha].
    apply managed_cons in Ha as (_ & _ & Hr & _).
    destruct (managed_record_fields _ Hr) as (_ & Hns & _). rewrite Hname in Hns.
    destruct (managed_cut _ _ _ _ _ Hm) as (entries' & tail' & -> & Hm' & Hmap).
    assert (Hnone' : forall e, In e entries' ->
                               name_of (snd e) <> make_fqdn hostname domain).
    { intros e He.
      assert (Hin : In (snd e) (map snd (before ++ after)))
        by (rewrite <- Hmap; now apply in_map).
      apply in_map_iff in Hin as (e' & He' & Hin). rewrite <- He'. now apply Hnone. }
    unfold remove_reservation. cbv zeta.
    now rewrite (find_reservation_block_managed_miss _ _ _ Hm' Hns Hnone').
Qed.

Lemma remove_reservation_twice_witness :
  exists t1,
    remove_reservation demo_content (txt"a") (Some (txt"example.com")) = (t1, true)
    /\ remove_reservation t1 (txt"a") (Some (txt"example.com")) = (t1, false).
Proof.
  apply (remove_reservation_twice
           [] [] (txt"a.example.com", txt"aa:bb:cc:dd:ee:01", txt"10.0.0.1") [] []
           (txt"a") (Some (txt"example.com"))).
  - vm_compute. reflexivity.
  - vm_compute. reflexivity.
  - intros e [].
Defined.

(** *** MAC normalisation *)

Lemma fullmatch_mac_canonical s :
  fullmatch mac_regex s = true -> canonical_mac s = true.
Proof.
  unfold fullmatch. intro H.
  destruct (rmatch mac_regex (true, s) [] _) as [u|] eqn:E; [|discriminate]. clear H.
  apply rmatch_sound in E as (c' & g' & L & K).
  destruct c' as [b' s']. cbn [snd] in K. destruct s'; [|discriminate]. clear K.
  unfold mac_regex in L. cbn [lang times] in L.
  repeat match goal with
         | H : exists _, _ |- _ => destruct H
         | H : _ /\ _ |- _ => destruct H
         end.
  repeat match goal with
         | H : Ascii.eqb _ _ = true |- _ => apply Ascii.eqb_eq in H
         end.
  subst. cbn [snd fst] in *.
  repeat match goal with
         | H : snd ?c = _ |- _ => destruct c; cbn [snd fst] in H
         end.
  subst. cbn [snd canonical_mac forallb].
  repeat match goal with
         | H : cls_hex _ = true |- _ => rewrite H; clear H
         end.
  reflexivity.
Qed.

Lemma canonical_mac_fullmatch s :
  canonical_mac s = true -> fullmatch mac_regex s = true.
Proof.
  intro H.
  do 17 (destruct s as [|? s]; [discriminate|]). destruct s; [|discriminate].
  cbn [canonical_mac forallb] in H.
  repeat match type of H with
         | (_ && _)%bool = true => apply andb_true_iff in H as [? H]
         end.
  repeat match goal with
         | H : (_ && _)%bool = true |- _ => apply andb_true_iff in H as [? H]
         | H : Ascii.eqb _ _ = true |- _ => apply Ascii.eqb_eq in H; subst
         end.
  unfold fullmatch, mac_regex. cbn [times rmatch fst snd].
  repeat (cbn [step_over fst snd];
          match goal with
          | H : cls_hex ?a = true |- context [cls_hex ?a] => rewrite H; clear H
          | |- context [Ascii.eqb ":" ":"] => change (Ascii.eqb ":" ":") with true
          end; cbv iota).
  reflexivity.
Qed.

Lemma lstrip_fixed s :
  (forall c, In c s -> Str.is_space c = false) -> Str.lstrip s = s.
Proof.
  destruct s as [|a s]; intro H; [reflexivity|].
  cbn [Str.lstrip]. now rewrite (H a (or_introl eq_refl)).
Qed.

Lemma strip_fixed s :
  (forall c, In c s -> Str.is_space c = false) -> Str.strip s = s.
Proof.
  intro H. unfold Str.strip. rewrite (lstrip_fixed s H).
  rewrite lstrip_fixed by (intros c Hc; apply H; now apply in_rev).
  apply rev_involutive.
Qed.

Lemma hex_colon_not_dash c :
  (cls_hex c || Ascii.eqb c ":")%bool = true ->
  (if Ascii.eqb c "-" then ":"%char else c) = c.
Proof. ascii_cases c. Qed.

Lemma canonical_mac_fixed s :
  canonical_mac s = true -> Str.replace "-" ":" (Str.lower (Str.strip s)) = s.
Proof.
  intro H. apply canonical_mac_fullmatch, fullmatch_mac_chars in H as [_ H].
  rewrite forallb_forall in H.
  rewrite strip_fixed by (intros c Hc; now apply hex_or_colon_facts, H).
  unfold Str.lower. rewrite (map_fixed Str.lower_char)
    by (intros c Hc; now apply hex_or_colon_facts, H).
  apply map_fixed. intros c Hc. now apply hex_colon_not_dash, H.
Qed.

Lemma normalize_mac_of_canonical s :
  canonical_mac s = true -> normalize_mac s = Some s.
Proof.
  intro H. unfold normalize_mac. rewrite (canonical_mac_fixed s H).
  now rewrite (canonical_mac_fullmatch s H).
Qed.

Lemma normalize_mac_some_canonical m m' :
  normalize_mac m = Some m' -> canonical_mac m' = true.
Proof.
  unfold normalize_mac.
  destruct (fullmatch mac_regex _) eqn:E; [|discriminate]. cbn [negb].
  intro H. injection H as <-. now apply fullmatch_mac_canonical.
Qed.

(** X7. The values [normalize_mac] returns are exactly the canonical MAC
    addresses: six pairs of lower-case hexadecimal digits, colons between
    them, seventeen characters; and each of them is accepted as it is. *)
Theorem normalize_mac_range s :
  (exists m, normalize_mac m = Some s) <-> canonical_mac s = true.
Proof.
  split.
  - intros [m H]. unfold normalize_mac in H.
    destruct (fullmatch mac_regex _) eqn:E; [|discriminate].
    cbn [negb] in H. injection H as <-. now apply fullmatch_mac_canonical.
  - intro H. exists s. unfold normalize_mac.
    rewrite (canonical_mac_fixed s H). now rewrite (canonical_mac_fullmatch s H).
Qed.

(** X8. Normalising is idempotent: a MAC that [normalize_mac] returned is
    returned unchanged when normalised again. *)
Theorem normalize_mac_idempotent m m' :
  normalize_mac m = Some m' -> normalize_mac m' = Some m'.
Proof.
  intro H. apply normalize_mac_some_canonical in H.
  unfold normalize_mac. rewrite (canonical_mac_fixed m' H).
  now rewrite (canonical_mac_fullmatch m' H).
Qed.

Lemma normalize_mac_idempotent_witness :
  normalize_mac (txt" AA-BB-CC-DD-EE-0F ") = Some (txt"aa:bb:cc:dd:ee:0f")
  /\ normalize_mac (txt"aa:bb:cc:dd:ee:0f") = Some (txt"aa:bb:cc:dd:ee:0f").
Proof.
  split; [vm_compute; reflexivity|].
  apply (normalize_mac_idempotent (txt" AA-BB-CC-DD-EE-0F ")). vm_compute. reflexivity.
Defined.

Lemma lstrip_map (f : ascii -> ascii) s :
  (forall c, Str.is_space (f c) = Str.is_space c) ->
  Str.lstrip (map f s) = map f (Str.lstrip s).
Proof.
  intro Hf. induction s as [|a s IH]; [reflexivity|].
  cbn [map Str.lstrip]. rewrite Hf. destruct (Str.is_space a); [exact IH|reflexivity].
Qed.

Lemma strip_map (f : ascii -> ascii) s :
  (forall c, Str.is_space (f c) = Str.is_space c) ->
  Str.strip (map f s) = map f (Str.strip s).
Proof.
  intro Hf. unfold Str.strip.
  rewrite (lstrip_map f s Hf), <- map_rev, (lstrip_map f _ Hf). now rewrite map_rev.
Qed.

Lemma space_after_dash c :
  Str.is_space (if Ascii.eqb c ":" then "-"%char else c) = Str.is_space c.
Proof. ascii_cases c. Qed.

Lemma space_after_lower c : Str.is_space (Str.lower_char c) = Str.is_space c.
Proof. ascii_cases c. Qed.

Lemma dash_then_normal c :
  (if Ascii.eqb (Str.lower_char (if Ascii.eqb c ":" then "-"%char else c)) "-"
   then ":"%char
   else Str.lower_char (if Ascii.eqb c ":" then "-"%char else c))
  = (if Ascii.eqb (Str.lower_char c) "-" then ":"%char else Str.lower_char c).
Proof. ascii_cases c. Qed.

Lemma lower_char_idempotent c : Str.lower_char (Str.lower_char c) = Str.lower_char c.
Proof. ascii_cases c. Qed.

(** X9. The separator style and the letter case of the input do not matter
    to [normalize_mac]: writing the colons as dashes, or giving the letters
    in lower case beforehand, leads to the same result (or the same
    rejection). *)
Theorem normalize_mac_separator_and_case m :
  normalize_mac (Str.replace ":" "-" m) = normalize_mac m
  /\ normalize_mac (Str.lower m) = normalize_mac m.
Proof.
  split.
  - unfold normalize_mac. cbv zeta. unfold Str.lower, Str.replace.
    rewrite !(strip_map _ m space_after_dash). rewrite !map_map.
    rewrite (map_ext _ _ dash_then_normal). reflexivity.
  - unfold normalize_mac. cbv zeta. unfold Str.lower, Str.replace.
    rewrite !(strip_map _ m space_after_lower). rewrite !map_map.
    rewrite (map_ext _ _ (fun c => f_equal (fun x => if Ascii.eqb x "-" then ":"%char else x)
                                            (lower_char_idempotent c))).
    reflexivity.
Qed.

(** *** Qualified names *)

Lemma endswith_app s p : Str.endswith (s ++ p) p = true.
Proof. unfold Str.endswith. rewrite rev_app_distr. apply startswith_app. Qed.

Lemma make_fqdn_fixed hostname domain :
  make_fqdn (make_fqdn hostname domain) domain = make_fqdn hostname domain.
Proof.
  destruct domain as [d|]; [|reflexivity]. unfold make_fqdn.
  destruct (Str.truthy d && negb (Str.endswith hostname ("." :: d)))%bool eqn:E.
  - apply andb_true_iff in E as [Ht _]. rewrite Ht.
    change (hostname ++ "." :: d) with (hostname ++ ("." :: d)).
    now rewrite endswith_app.
  - now rewrite E.
Qed.

(** X10. A name that already carries the domain is not qualified again, so
    the short name and the qualified name of a host are interchangeable:
    [build_reservation_block], [add_reservation] and [remove_reservation]
    give the same result for [hostname] and for [hostname.domain]. *)
Theorem qualified_name_interchangeable content hostname mac ip domain interactive stdin :
  let fqdn := make_fqdn hostname domain in
  make_fqdn fqdn domain = fqdn
  /\ build_reservation_block fqdn mac ip domain
     = build_reservation_block hostname mac ip domain
  /\ add_reservation content fqdn mac ip domain interactive stdin
     = add_reservation content hostname mac ip domain interactive stdin
  /\ remove_reservation content fqdn domain = remove_reservation content hostname domain.
Proof.
  cbv zeta. split; [apply make_fqdn_fixed|].
  assert (Hb : build_reservation_block (make_fqdn hostname domain) mac ip domain
               = build_reservation_block hostname mac ip domain)
    by (unfold build_reservation_block; now rewrite make_fqdn_fixed).
  split; [exact Hb|]. split.
  - unfold add_reservation, apply_reservation. cbv zeta.
    now rewrite make_fqdn_fixed, Hb.
  - unfold remove_reservation. now rewrite make_fqdn_fixed.
Qed.

(** *** The terminal *)

Lemma add_reservation_keeps_stdin content hostname mac ip domain stdin :
  snd (add_reservation content hostname mac ip domain false stdin) = stdin.
Proof.
  unfold add_reservation. cbv zeta.
  destruct (find_reservation_by_mac content mac) as [[[n m] i]|]; [|reflexivity].
  destruct (Str.eqb n (make_fqdn hostname domain) && Str.eqb i ip)%bool; [reflexivity|].
  destruct (Str.eqb n (make_fqdn hostname domain)); reflexivity.
Qed.

Lemma process_record_keeps_term act d im st r :
  im = false \/ act <> Add ->
  term (process_record act d im st r) = term st.
Proof.
  intro H. destruct r as [[h m] i]. unfold process_record.
  destruct act.
  - destruct H as [-> | H]; [|contradiction].
    pose proof (add_reservation_keeps_stdin (buf st) h (or_empty m) (or_empty i)
                  (Some d) (term st)) as K.
    destruct (add_reservation _ _ _ _ _ _ _) as [[[nc ch] er] sd]. cbn [snd] in K.
    subst sd. destruct (opt_truthy er); [reflexivity|]. destruct ch; reflexivity.
  - destruct (remove_reservation _ _ _) as [nc ch]. destruct ch; reflexivity.
  - destruct (remove_reservation _ _ _) as [nc ch]. destruct ch; reflexivity.
Qed.

Lemma process_records_keeps_term act d im records : forall st,
  im = false \/ act <> Add ->
  term (process_records act d im records st) = term st.
Proof.
  unfold process_records.
  induction records as [|r records IH]; intros st H; [reflexivity|].
  cbn [fold_left]. rewrite (IH _ H). now apply process_record_keeps_term.
Qed.

(** X11. With [--non-interactive], and for the remove action in any mode,
    a run never reads from the terminal: whatever the records, the files
    and the outcome, the lines waiting on the terminal are the same after
    the run. *)
Theorem run_batch_never_prompts e a config_path domain records w :
  arg_non_interactive a = true \/ arg_action a <> Add ->
  stdin (snd (run_batch e a config_path domain records w)) = stdin w.
Proof.
  intro H.
  assert (Hmode : negb (arg_non_interactive a) = false \/ arg_action a <> Add)
    by (destruct H as [-> | H]; auto).
  unfold run_batch.
  destruct (load_config_text e w config_path) as [content|]; [|reflexivity].
  destruct (negb (arg_skip_validation a) && negb (validate_dhcpd_syntax e w config_path))%bool;
    [reflexivity|].
  assert (Hloop : forall w1, stdin w1 = stdin w ->
            term (process_records (arg_action a) domain (negb (arg_non_interactive a))
                                  records (MkLoop content 0 0 (stdin w1))) = stdin w).
  { intros w1 Hw1. rewrite (process_records_keeps_term _ _ _ _ _ Hmode). exact Hw1. }
  assert (Htail : forall bp w1, stdin w1 = stdin w ->
    stdin (snd (
      let st := process_records (arg_action a) domain (negb (arg_non_interactive a))
                                records (MkLoop content 0 0 (stdin w1)) in
      let w1' := MkWorld (files w1) (term st) in
      match save_config_text e w1' config_path (buf st) with
      | None => (1%Z, w1')
      | Some w2 =>
          if (negb (arg_skip_validation a)
              && negb (validate_dhcpd_syntax e w2 config_path))%bool
          then
            match bp with
            | Some bp =>
                if isfile w2 bp
                then (1%Z, snd (restore_from_backup e w2 config_path bp))
                else (1%Z, w2)
            | None => (1%Z, w2)
            end
          else ((if Nat.eqb (fail st) 0 then 0 else 1)%Z, w2)
      end)) = stdin w).
  { intros bp w1 Hw1. cbv zeta. specialize (Hloop w1 Hw1).
    unfold save_config_text. destruct (write_ok e); cbn [snd stdin]; [|exact Hloop].
    destruct (negb (arg_skip_validation a) && _)%bool; cbn [snd stdin]; [|exact Hloop].
    destruct bp as [bp|]; cbn [snd stdin]; [|exact Hloop].
    destruct (isfile _ bp); cbn [snd stdin]; [|exact Hloop].
    unfold restore_from_backup.
    destruct (files _ bp); cbn [snd stdin]; [|exact Hloop].
    destruct (restore_ok e); cbn [snd stdin]; exact Hloop. }
  destruct (negb (arg_no_backup a)).
  - unfold make_backup. destruct (files w config_path) as [c0|]; [|reflexivity].
    destruct (backup_ok e); [|reflexivity].
    exact (Htail (Some (config_path ++ txt"." ++ clock e ++ txt".bak"))
                 (MkWorld (fs_write (config_path ++ txt"." ++ clock e ++ txt".bak") c0
                                    (files w)) (stdin w)) eq_refl).
  - exact (Htail None w eq_refl).
Qed.

Lemma run_batch_never_prompts_witness :
  stdin (snd (run_batch (demo_env (fun _ => true)) (demo_args false) demo_path
                        (txt"example.com") demo_records
                        (MkWorld (files demo_world) [txt"yes"])))
  = [txt"yes"].
Proof.
  apply (run_batch_never_prompts (demo_env (fun _ => true)) (demo_args false) demo_path
           (txt"example.com") demo_records (MkWorld (files demo_world) [txt"yes"])).
  left. reflexivity.
Defined.

(** *** What a run leaves on disk *)

(** X12. A run of add or remove that exits with code 0 has written the
    result of the record loop to the configuration file: the file holds the
    final buffer, no record failed, and unless validation was skipped that
    content passed the syntax check. *)
Theorem run_batch_success_saved e a config_path domain records w :
  fst (run_batch e a config_path domain records w) = 0%Z ->
  exists content,
    files w config_path = Some content
    /\ let st := process_records (arg_action a) domain (negb (arg_non_interactive a))
                                 records (MkLoop content 0 0 (stdin w)) in
       files (snd (run_batch e a config_path domain records w)) config_path
       = Some (buf st)
       /\ fail st = 0
       /\ (arg_skip_validation a = false -> oracle e (buf st) = true).
Proof.
  unfold run_batch. intro H.
  destruct (load_config_text e w config_path) as [content|] eqn:El; [|discriminate H].
  apply load_config_text_some in El as [_ Hf]. exists content. split; [exact Hf|].
  destruct (negb (arg_skip_validation a) && negb (validate_dhcpd_syntax e w config_path))%bool;
    [discriminate H|].
  assert (Hw1 : exists w1, stdin w1 = stdin w /\
            (if negb (arg_no_backup a)
             then match make_backup e w config_path with
                  | Some (backup_path, w') => Some (Some backup_path, w')
                  | None => None
                  end
             else Some (None, w)) = None
            \/ exists bp, (if negb (arg_no_backup a)
                           then match make_backup e w config_path with
                                | Some (backup_path, w') => Some (Some backup_path, w')
                                | None => None
                                end
                           else Some (None, w)) = Some (bp, w1)).
  { destruct (negb (arg_no_backup a)).
    - unfold make_backup. rewrite Hf. destruct (backup_ok e).
      + eexists. right. eexists. reflexivity.
      + exists w. left. auto.
    - exists w. right. exists None. reflexivity. }
  destruct Hw1 as (w1 & [[_ Eb] | [bp Eb]]).
  - cbv zeta in H. rewrite Eb in H. discriminate H.
  - assert (Hs : stdin w1 = stdin w).
    { destruct (negb (arg_no_backup a)).
      - unfold make_backup in Eb. rewrite Hf in Eb.
        destruct (backup_ok e); [|discriminate Eb]. now injection Eb as _ <-.
      - now injection Eb as _ <-. }
    cbv zeta in *. rewrite Eb in *. rewrite Hs in *.
    unfold save_config_text in *.
    destruct (write_ok e); [|discriminate H].
    unfold validate_dhcpd_syntax in *. cbn [files] in *.
    rewrite fs_write_same in *.
    destruct (arg_skip_validation a); cbn [negb andb] in *.
    + cbn [snd files]. rewrite fs_write_same.
      split; [reflexivity|]. split; [|discriminate].
      destruct (fail _); [reflexivity|discriminate H].
    + destruct (oracle e (buf _)) eqn:Eo; cbn [negb] in *.
      * cbn [snd files]. rewrite fs_write_same.
        split; [reflexivity|]. split; [|intros _; reflexivity].
        destruct (fail _); [reflexivity|discriminate H].
      * destruct bp as [bp|]; [destruct (isfile _ bp)|]; discriminate H.
Qed.

Lemma run_batch_success_saved_witness :
  exists content,
    files demo_world demo_path = Some content
    /\ let st := process_records (arg_action (demo_args false)) (txt"example.com")
                                 (negb (arg_non_interactive (demo_args false)))
                                 [(txt"b", Some (txt"aa:bb:cc:dd:ee:02"),
                                   Some (txt"10.0.0.2"))]
                                 (MkLoop content 0 0 (stdin demo_world)) in
       files (snd (run_batch (demo_env (fun _ => true)) (demo_args false) demo_path
                             (txt"example.com")
                             [(txt"b", Some (txt"aa:bb:cc:dd:ee:02"),
                               Some (txt"10.0.0.2"))] demo_world)) demo_path
       = Some (buf st)
       /\ fail st = 0
       /\ (arg_skip_validation (demo_args false) = false ->
           oracle (demo_env (fun _ => true)) (buf st) = true).
Proof.
  apply (run_batch_success_saved (demo_env (fun _ => true)) (demo_args false) demo_path
           (txt"example.com")
           [(txt"b", Some (txt"aa:bb:cc:dd:ee:02"), Some (txt"10.0.0.2"))] demo_world).
  vm_compute. reflexivity.
Defined.

Lemma backup_path_other config_path ts :
  config_path ++ txt"." ++ ts ++ txt".bak" <> config_path.
Proof. intro E. symmetry in E. now apply backup_path_fresh in E. Qed.

(** X13. Once the backup is taken, the backup file holds the content the
    configuration had when the run started, whatever the records do and
    however the run ends: failed write, failed validation with or without a
    successful restore, or success. *)
Theorem run_batch_backup_keeps_original e a config_path domain records w content :
  arg_no_backup a = false ->
  read_ok e = true -> files w config_path = Some content ->
  arg_skip_validation a = true \/ oracle e content = true ->
  backup_ok e = true ->
  files (snd (run_batch e a config_path domain records w))
        (config_path ++ txt"." ++ clock e ++ txt".bak")
  = Some content.
Proof.
  intros Hnb Hr Hf Hv Hb.
  pose proof (backup_path_other config_path (clock e)) as Hne.
  unfold run_batch, load_config_text, make_backup, validate_dhcpd_syntax.
  rewrite Hr, Hf, Hnb, Hb. cbn [negb].
  assert (Hpre : (negb (arg_skip_validation a) && negb (oracle e content))%bool = false).
  { destruct Hv as [-> | ->]; [reflexivity | apply andb_false_r]. }
  rewrite Hpre. clear Hpre Hv. cbv zeta.
  pose proof (fs_write_same (config_path ++ txt"." ++ clock e ++ txt".bak") content
                            (files w)) as Hs.
  unfold save_config_text. destruct (write_ok e); cbn [snd files stdin].
  - rewrite fs_write_same.
    destruct (negb (arg_skip_validation a) && negb (oracle e (buf _)))%bool;
      cbn [snd files].
    + unfold isfile, restore_from_backup. cbn [files stdin].
      rewrite (fs_write_other _ _ _ _ Hne), Hs.
      destruct (restore_ok e); cbn [snd files];
        now rewrite ?(fs_write_other _ _ _ _ Hne), Hs.
    + now rewrite (fs_write_other _ _ _ _ Hne), Hs.
  - exact Hs.
Qed.

Lemma run_batch_backup_keeps_original_witness :
  files (snd (run_batch (demo_env (fun c => Str.eqb c demo_content)) (demo_args false)
                        demo_path (txt"example.com") demo_records demo_world))
        (demo_path ++ txt"." ++ clock (demo_env (fun c => Str.eqb c demo_content))
                   ++ txt".bak")
  = Some demo_content.
Proof.
  apply (run_batch_backup_keeps_original
           (demo_env (fun c => Str.eqb c demo_content)) (demo_args false)
           demo_path (txt"example.com") demo_records demo_world demo_content).
  - reflexivity.
  - reflexivity.
  - vm_compute. reflexivity.
  - right. vm_compute. reflexivity.
  - reflexivity.
Defined.

(** X14. The export action only ever writes the output file: every other
    file, the configuration included, is left as it was, the terminal is not
    read, and when the configuration holds no reservation nothing at all is
    written, not even an empty output file. *)
Theorem export_writes_only_output e a w :
  arg_action a = Export ->
  (forall p, Some p <> arg_output a -> files (snd (main e a w)) p = files w p)
  /\ stdin (snd (main e a w)) = stdin w
  /\ (forall config_path content,
        config_path = or_empty (opt_or (arg_config_file a)
                                  (opt_or (env_conf_path e) (Some (default_conf_path e)))) ->
        files w config_path = Some content ->
        extract_all_reservations content = [] ->
        read_ok e = true ->
        main e a w = (0%Z, w)).
Proof.
  intro Ha. unfold main. rewrite Ha. cbv zeta.
  set (cp := or_empty (opt_or (arg_config_file a)
                              (opt_or (env_conf_path e) (Some (default_conf_path e))))).
  split; [|split].
  - intros p Hp. destruct (negb (isfile w cp)); [reflexivity|].
    unfold run_export. destruct (load_config_text e w cp) as [c|]; [|reflexivity].
    destruct (extract_all_reservations c); [reflexivity|].
    destruct (export_ok e); [|reflexivity].
    destruct (arg_output a) as [out|]; [|reflexivity].
    destruct (Str.truthy out); [|reflexivity].
    cbn [snd files]. apply fs_write_other. intros ->. now apply Hp.
  - destruct (negb (isfile w cp)); [reflexivity|].
    unfold run_export. destruct (load_config_text e w cp) as [c|]; [|reflexivity].
    destruct (extract_all_reservations c); [reflexivity|].
    destruct (export_ok e); [|reflexivity].
    destruct (arg_output a) as [out|]; [|reflexivity].
    destruct (Str.truthy out); reflexivity.
  - intros config_path content -> Hf Hx Hr. fold cp in Hf.
    unfold isfile. rewrite Hf. cbn [negb].
    unfold run_export, load_config_text. now rewrite Hr, Hf, Hx.
Qed.

Lemma export_writes_only_output_witness :
  (forall p, Some p <> arg_output
               (MkArgs None None None None Export (Some (txt"out.csv")) false None None
                       false false false) ->
             files (snd (main (demo_env (fun _ => true))
                              (MkArgs None None None None Export (Some (txt"out.csv")) false
                                      None None false false false) demo_world)) p
             = files demo_world p)
  /\ stdin (snd (main (demo_env (fun _ => true))
                      (MkArgs None None None None Export (Some (txt"out.csv")) false
                              None None false false false) demo_world))
     = stdin demo_world.
Proof.
  destruct (export_writes_only_output (demo_env (fun _ => true))
              (MkArgs None None None None Export (Some (txt"out.csv")) false None None
                      false false false) demo_world eq_refl) as (H1 & H2 & _).
  split; [exact H1 | exact H2].
Defined.

(** *** Remove batches and untouched files *)

Lemma process_record_remove_counts act d im st r :
  act <> Add ->
  fail (process_record act d im st r) = fail st
  /\ ok (process_record act d im st r) = S (ok st).
Proof.
  intro H. destruct r as [[h m] i]. unfold process_record.
  destruct act; [contradiction| |];
    destruct (remove_reservation _ _ _) as [nc ch]; destruct ch; auto.
Qed.

(** X15. A remove batch never counts a failure: every record, a host that
    has no block included, is counted as successful, so the exit code of a
    remove run depends on the file operations and the syntax checks only. *)
Theorem remove_batch_never_fails e a config_path domain records w :
  arg_action a <> Add ->
  (forall im st,
      fail (process_records (arg_action a) domain im records st) = fail st
      /\ ok (process_records (arg_action a) domain im records st)
         = ok st + length records)
  /\ (fst (run_batch e a config_path domain records w) = 0%Z <->
      exists content,
        read_ok e = true /\ files w config_path = Some content
        /\ (arg_skip_validation a = true \/ oracle e content = true)
        /\ (arg_no_backup a = true \/ backup_ok e = true)
        /\ write_ok e = true
        /\ (arg_skip_validation a = true
            \/ oracle e (buf (process_records (arg_action a) domain
                                (negb (arg_non_interactive a)) records
                                (MkLoop content 0 0 (stdin w)))) = true)).
Proof.
  intro Ha.
  assert (Hcount : forall im rs st,
             fail (process_records (arg_action a) domain im rs st) = fail st
             /\ ok (process_records (arg_action a) domain im rs st) = ok st + length rs).
  { intros im rs. unfold process_records.
    induction rs as [|r rs IH]; intro st; cbn [fold_left length].
    - split; [reflexivity | lia].
    - destruct (IH (process_record (arg_action a) domain im st r)) as [Hf Ho].
      destruct (process_record_remove_counts _ domain im st r Ha) as [Hf1 Ho1].
      rewrite Hf, Ho, Hf1, Ho1. split; [reflexivity | lia]. }
  split; [intros im st; apply Hcount|].
  rewrite run_batch_exit_zero. split.
  - intros (content & H1 & H2 & H3 & H4 & H5 & H6). cbv zeta in H6.
    destruct H6 as [H6 _]. exists content. auto 10.
  - intros (content & H1 & H2 & H3 & H4 & H5 & H6).
    exists content. do 5 (split; [assumption|]). cbv zeta. split; [exact H6|].
    destruct (Hcount (negb (arg_non_interactive a)) records
                     (MkLoop content 0 0 (stdin w))) as [Hf _].
    rewrite Hf. reflexivity.
Qed.

Lemma remove_batch_never_fails_witness :
  fail (process_records Remove (txt"example.com") true
          [(txt"a", None, None); (txt"ghost", None, None)]
          (MkLoop demo_content 0 0 [])) = 0
  /\ ok (process_records Remove (txt"example.com") true
           [(txt"a", None, None); (txt"ghost", None, None)]
           (MkLoop demo_content 0 0 [])) = 0 + 2.
Proof.
  destruct (remove_batch_never_fails (demo_env (fun _ => true))
              (MkArgs None None None (Some (txt"hosts.csv")) Remove None false None None
                      false true false)
              demo_path (txt"example.com")
              [(txt"a", None, None); (txt"ghost", None, None)] demo_world)
    as [H _]; [discriminate|].
  exact (H true (MkLoop demo_content 0 0 [])).
Defined.

(** X16. A run of add or remove writes to two paths at most, the
    configuration file and the backup file next to it; with [--no-backup] to
    the configuration file alone.  Every other file is left as it was. *)
Theorem run_batch_touches_only_config_and_backup e a config_path domain records w p :
  p <> config_path ->
  arg_no_backup a = true \/ p <> config_path ++ txt"." ++ clock e ++ txt".bak" ->
  files (snd (run_batch e a config_path domain records w)) p = files w p.
Proof.
  intros Hp Hbk. unfold run_batch.
  destruct (load_config_text e w config_path) as [content|]; [|reflexivity].
  destruct (negb (arg_skip_validation a) && negb (validate_dhcpd_syntax e w config_path))%bool;
    [reflexivity|].
  assert (Htail : forall bp w1, files w1 p = files w p ->
    files (snd (
      let st := process_records (arg_action a) domain (negb (arg_non_interactive a))
                                records (MkLoop content 0 0 (stdin w1)) in
      let w1' := MkWorld (files w1) (term st) in
      match save_config_text e w1' config_path (buf st) with
      | None => (1%Z, w1')
      | Some w2 =>
          if (negb (arg_skip_validation a)
              && negb (validate_dhcpd_syntax e w2 config_path))%bool
          then
            match bp with
            | Some bp =>
                if isfile w2 bp
                then (1%Z, snd (restore_from_backup e w2 config_path bp))
                else (1%Z, w2)
            | None => (1%Z, w2)
            end
          else ((if Nat.eqb (fail st) 0 then 0 else 1)%Z, w2)
      end)) p = files w p).
  { intros bp w1 Hw1. cbv zeta.
    unfold save_config_text. destruct (write_ok e); cbn [snd files]; [|exact Hw1].
    destruct (negb (arg_skip_validation a) && _)%bool; cbn [snd files].
    - destruct bp as [bp|]; cbn [snd files].
      + destruct (isfile _ bp); cbn [snd files].
        * unfold restore_from_backup. destruct (files _ bp); cbn [snd files].
          -- destruct (restore_ok e); cbn [snd files];
               now rewrite !(fs_write_other _ _ _ _ Hp).
          -- now rewrite (fs_write_other _ _ _ _ Hp).
        * now rewrite (fs_write_other _ _ _ _ Hp).
      + now rewrite (fs_write_other _ _ _ _ Hp).
    - now rewrite (fs_write_other _ _ _ _ Hp). }
  destruct (negb (arg_no_backup a)) eqn:Enb.
  - destruct Hbk as [Hbk | Hbk]; [rewrite Hbk in Enb; discriminate Enb|].
    unfold make_backup. destruct (files w config_path) as [c0|]; [|reflexivity].
    destruct (backup_ok e); [|reflexivity].
    exact (Htail (Some (config_path ++ txt"." ++ clock e ++ txt".bak"))
                 (MkWorld (fs_write (config_path ++ txt"." ++ clock e ++ txt".bak") c0
                                    (files w)) (stdin w))
                 (fs_write_other _ _ _ _ Hbk)).
  - exact (Htail None w eq_refl).
Qed.

Lemma run_batch_touches_only_config_and_backup_witness :
  files (snd (run_batch (demo_env (fun _ => true)) (demo_args false) demo_path
                        (txt"example.com") demo_records demo_world)) (txt"hosts.csv")
  = files demo_world (txt"hosts.csv").
Proof.
  apply (run_batch_touches_only_config_and_backup
           (demo_env (fun _ => true)) (demo_args false) demo_path (txt"example.com")
           demo_records demo_world (txt"hosts.csv")).
  - vm_compute. discriminate.
  - right. vm_compute. discriminate.
Defined.

(** *** Matches together with their captures *)

Lemma rmatch_captures {R : Type} r : forall c g (k : cursor -> caps -> option R) x,
  rmatch r c g k = Some x ->
  exists c' g', captures r c g c' g' /\ k c' g' = Some x.
Proof.
  induction r as [|p|r1 IH1 r2 IH2|r1 IH1 r2 IH2|[] p|n r1 IH1|];
    intros [bol s] g k x H; simpl in *.
  - exists (bol, s), g. auto.
  - destruct s as [|a s]; [discriminate|].
    destruct (p a) eqn:Ha; [|discriminate].
    exists (step_over a s), g. split; [|exact H]. split; [|reflexivity]. exists a. auto.
  - destruct (IH1 _ _ _ _ H) as (c1 & g1 & L1 & H1).
    destruct (IH2 _ _ _ _ H1) as (c2 & g2 & L2 & H2).
    exists c2, g2. split; [|exact H2]. now exists c1, g1.
  - destruct (rmatch r1 (bol, s) g k) eqn:E.
    + injection H as ->. destruct (IH1 _ _ _ _ E) as (c1 & g1 & L1 & H1).
      exists c1, g1. auto.
    + destruct (IH2 _ _ _ _ H) as (c1 & g1 & L1 & H1).
      exists c1, g1. auto.
  - destruct (star_greedy_sound _ _ _ _ _ H) as (run & rest & -> & Hrun & Hk).
    exists (advance bol run, rest), g. split; [|exact Hk].
    split; [|reflexivity]. exists run. auto.
  - destruct (star_lazy_sound _ _ _ _ _ H) as (run & rest & -> & Hrun & Hk).
    exists (advance bol run, rest), g. split; [|exact Hk].
    split; [|reflexivity]. exists run. auto.
  - destruct (IH1 _ _ _ _ H) as (c1 & g1 & L1 & H1).
    exists c1, ((n, (s, snd c1)) :: g1). split; [|exact H1]. now exists g1.
  - destruct bol; [|discriminate]. exists (true, s), g. auto.
Qed.

Lemma captures_plus p c g c' g' :
  captures (plus p) c g c' g' ->
  g' = g /\ exists u, u <> [] /\ forallb p u = true /\ snd c = u ++ snd c'.
Proof.
  unfold plus. cbn [captures].
  intros (m & gm & [(a & E1 & Ha & _) ->] & [(u & E2 & Hu & _) ->]).
  split; [reflexivity|]. exists (a :: u). split; [discriminate|].
  cbn [forallb app]. rewrite Ha, Hu, E1, E2. auto.
Qed.

(** *** Records read from a CSV file *)

Lemma csv_row_record_valid row r :
  csv_row_record row = Some r ->
  name_of r <> [] /\ canonical_mac (mac_of r) = true
  /\ validate_ip_address (ip_of r) = true.
Proof.
  unfold csv_row_record.
  destruct row as [|c0 [|c1 [|c2 more]]]; try discriminate.
  cbv zeta. destruct (normalize_mac (Str.strip c1)) as [nm|] eqn:Em; [|discriminate].
  destruct (Str.truthy (Str.strip c0)) eqn:Eh; cbn [negb orb]; [|discriminate].
  destruct (Str.truthy nm); cbn [negb orb]; [|discriminate].
  destruct (validate_ip_address (Str.strip c2)) eqn:Ei; cbn [negb]; [|discriminate].
  intro H. injection H as <-. unfold name_of, mac_of, ip_of. cbn [fst snd].
  split; [|split].
  - intro E. rewrite E in Eh. discriminate Eh.
  - now apply normalize_mac_some_canonical in Em.
  - exact Ei.
Qed.

(** X18. Every record that [parse_csv] hands over has a non-empty host
    name, a canonical MAC and an address that [validate_ip_address] accepts;
    rows that fail one of these are dropped, and a file without a single
    good row is an error, never an empty batch. *)
Theorem parse_csv_records_valid e file_path rs :
  parse_csv e file_path = Some rs ->
  rs <> []
  /\ Forall (fun r => name_of r <> [] /\ canonical_mac (mac_of r) = true
                      /\ validate_ip_address (ip_of r) = true) rs.
Proof.
  unfold parse_csv. destruct (csv_rows e file_path) as [rows|]; [|discriminate].
  intro H.
  assert (Hall : Forall (fun r => name_of r <> [] /\ canonical_mac (mac_of r) = true
                                  /\ validate_ip_address (ip_of r) = true)
                        (csv_records rows)).
  { clear H. induction rows as [|row rows IH]; cbn [csv_records]; [constructor|].
    destruct (csv_row_record row) as [r|] eqn:Er; [|exact IH].
    constructor; [now apply (csv_row_record_valid row)|exact IH]. }
  destruct (csv_records rows) as [|r0 rs0]; [discriminate|].
  injection H as <-. split; [discriminate|exact Hall].
Qed.

Lemma parse_csv_records_valid_witness :
  [(txt"web01", txt"aa:bb:cc:dd:ee:0f", txt"10.0.0.5")] <> []
  /\ Forall (fun r => name_of r <> [] /\ canonical_mac (mac_of r) = true
                      /\ validate_ip_address (ip_of r) = true)
            [(txt"web01", txt"aa:bb:cc:dd:ee:0f", txt"10.0.0.5")].
Proof.
  apply (parse_csv_records_valid
           (MkEnv (fun _ => true) (txt"20240101-120000") None None demo_path
                  (fun _ => Some [[txt"web01"; txt" AA-BB-CC-DD-EE-0F"; txt"10.0.0.5 "];
                                  [txt"bad"; txt"zz"; txt"10.0.0.6"];
                                  [txt"short"]])
                  (fun _ _ => []) true true true true true)
           (txt"hosts.csv")).
  vm_compute. reflexivity.
Defined.

(** *** Looking a record up after it was added *)

Lemma lookup_in_managed before g hostname mac ip domain after tail :
  managed (before ++ (g, (make_fqdn hostname domain, mac, ip)) :: after) tail = true ->
  (forall e, In e before -> name_of (snd e) <> make_fqdn hostname domain) ->
  (forall e, In e before -> mac_of (snd e) <> mac) ->
  let t1 := render_managed (before ++ (g, (make_fqdn hostname domain, mac, ip)) :: after)
                           tail in
  find_reservation_by_mac t1 mac = Some (make_fqdn hostname domain, mac, ip)
  /\ (exists s e, find_reservation_block t1 (make_fqdn hostname domain) = (s, e)
                  /\ Str.slice t1 s e = build_reservation_block hostname mac ip domain)
  /\ In (make_fqdn hostname domain, mac, ip) (extract_all_reservations t1).
Proof.
  intros Hm Hname Hmac. cbv zeta.
  destruct (managed_app _ _ _ Hm) as [_ Ha].
  apply managed_cons in Ha as (_ & _ & Hr & _).
  destruct (managed_record_fields _ Hr) as (_ & _ & _ & Hn & _).
  change (mac_of (make_fqdn hostname domain, mac, ip)) with mac in Hn.
  split; [|split].
  - rewrite (find_by_mac_managed _ _ _ Hm Hn).
    exact (find_first_new before g (make_fqdn hostname domain, mac, ip) after Hmac).
  - pose proof (find_reservation_block_managed_hit before g
                  (make_fqdn hostname domain, mac, ip) after tail Hm Hname) as Hf.
    change (name_of (make_fqdn hostname domain, mac, ip))
      with (make_fqdn hostname domain) in Hf.
    eexists. eexists. split; [exact Hf|].
    rewrite render_managed_split, slice_at. symmetry. apply build_written.
  - rewrite (extract_managed _ _ Hm), map_app. apply in_or_app. right. now left.
Qed.

(** X19. After a successful addition to a managed file the record can be
    read back in every way the tool offers: the MAC lookup returns it, the
    lookup by name returns a span whose text is exactly the block that
    [build_reservation_block] writes, and the listing contains it. *)
Theorem lookup_after_add entries tail hostname mac ip domain interactive stdin :
  managed entries tail = true ->
  managed_record (make_fqdn hostname domain, mac, ip) = true ->
  (forall e, In e entries -> mac_of (snd e) = mac ->
             name_of (snd e) = make_fqdn hostname domain) ->
  ~ In (make_fqdn hostname domain, mac, ip) (map snd entries) ->
  exists t1,
    fst (add_reservation (render_managed entries tail) hostname mac ip domain
                         interactive stdin) = (t1, true, None)
    /\ find_reservation_by_mac t1 mac = Some (make_fqdn hostname domain, mac, ip)
    /\ (exists s e, find_reservation_block t1 (make_fqdn hostname domain) = (s, e)
                    /\ Str.slice t1 s e = build_reservation_block hostname mac ip domain)
    /\ In (make_fqdn hostname domain, mac, ip) (extract_all_reservations t1).
Proof.
  intros Hm Hr Hc Hnew.
  destruct (managed_record_fields _ Hr) as (_ & _ & _ & Hn & _).
  change (mac_of (make_fqdn hostname domain, mac, ip)) with mac in Hn.
  rewrite (add_reservation_applies _ _ _ _ _ _ interactive stdin Hm Hn Hc Hnew).
  cbn [fst].
  destruct (split_first_named entries (make_fqdn hostname domain))
    as [Hnone | (before & g & r & after & -> & Hname & Hb)].
  - exists (render_managed (entries ++ [(tail, (make_fqdn hostname domain, mac, ip))]) []).
    split; [now rewrite (apply_managed_append _ _ _ _ _ _ Hm Hr Hnone)|].
    apply (lookup_in_managed entries tail hostname mac ip domain [] []);
      [now apply managed_extend | exact Hnone |].
    intros e He Hmac. apply (Hnone e He). now apply Hc.
  - exists (render_managed (before ++ (g, (make_fqdn hostname domain, mac, ip)) :: after) tail).
    split.
    + rewrite (apply_managed_update _ _ _ _ _ _ _ _ _ Hm Hname Hb).
      assert (Hdiff : Str.eqb (written (make_fqdn hostname domain, mac, ip)) (written r)
                      = false).
      { apply str_eqb_neq. intro E. apply Hnew.
        destruct (managed_app _ _ _ Hm) as [_ Ha].
        apply managed_cons in Ha as (_ & _ & Hr0 & _).
        destruct (managed_record_fields _ Hr0) as (_ & _ & _ & Hn0 & _).
        destruct (normalize_mac_shape _ _ Hn) as (_ & Hx & _).
        destruct (normalize_mac_shape _ _ Hn0) as (_ & Hx0 & _).
        destruct r as [[n0 m0] i0]. unfold name_of in Hname. cbn [fst] in Hname. subst n0.
        change (mac_of (make_fqdn hostname domain, m0, i0)) with m0 in Hx0.
        destruct (written_same_name_inj _ _ _ _ _ Hx Hx0 E) as [-> ->].
        rewrite map_app. apply in_or_app. right. now left. }
      now rewrite Hdiff.
    + apply (lookup_in_managed before g hostname mac ip domain after tail);
        [now apply (managed_replace _ _ r) | exact Hb |].
      intros e He Hmac. apply (Hb e He). apply Hc; [|exact Hmac].
      apply in_or_app. now left.
Qed.

Lemma lookup_after_add_witness :
  exists t1,
    fst (add_reservation demo_content (txt"b") (txt"aa:bb:cc:dd:ee:02") (txt"10.0.0.2")
                         (Some (txt"example.com")) true []) = (t1, true, None)
    /\ find_reservation_by_mac t1 (txt"aa:bb:cc:dd:ee:02")
       = Some (txt"b.example.com", txt"aa:bb:cc:dd:ee:02", txt"10.0.0.2")
    /\ (exists s e, find_reservation_block t1 (txt"b.example.com") = (s, e)
                    /\ Str.slice t1 s e
                       = build_reservation_block (txt"b") (txt"aa:bb:cc:dd:ee:02")
                                                 (txt"10.0.0.2") (Some (txt"example.com")))
    /\ In (txt"b.example.com", txt"aa:bb:cc:dd:ee:02", txt"10.0.0.2")
          (extract_all_reservations t1).
Proof.
  apply (lookup_after_add
           [([], (txt"a.example.com", txt"aa:bb:cc:dd:ee:01", txt"10.0.0.1"))] []
           (txt"b") (txt"aa:bb:cc:dd:ee:02") (txt"10.0.0.2") (Some (txt"example.com"))
           true []).
  - vm_compute. reflexivity.
  - vm_compute. reflexivity.
  - intros e [<- | []] H. vm_compute in H. discriminate.
  - intros [H | []]. vm_compute in H. discriminate.
Defined.

(** *** The span that the lookup by name returns *)

Lemma captures_lit s : forall c g c' g',
  captures (lit s) c g c' g' -> g' = g /\ snd c = s ++ snd c'.
Proof.
  induction s as [|a s IH]; intros c g c' g' H; cbn [lit captures] in H.
  - destruct H as [-> ->]. auto.
  - destruct H as (m & gm & [(b & E & Hb & _) ->] & H).
    apply Ascii.eqb_eq in Hb. subst b.
    apply IH in H as [-> E']. split; [reflexivity|]. cbn [app]. now rewrite E, E'.
Qed.

Lemma block_regex_captures name c c' g' :
  captures (block_regex name) c [] c' g' ->
  exists lead ws1 ws2 body,
    snd c = lead ++ (txt"host" ++ ws1 ++ name ++ ws2 ++ "{" :: body ++ [nl; "}"; nl])
                 ++ snd c'
    /\ ((lead = [] /\ fst c = true) \/ lead = [nl])
    /\ ws1 <> [] /\ spaces ws1 = true /\ spaces ws2 = true
    /\ lookup_group 2 g'
       = Some ((txt"host" ++ ws1 ++ name ++ ws2 ++ "{" :: body ++ [nl; "}"; nl]) ++ snd c',
               nl :: snd c').
Proof.
  rewrite block_regex_split. cbn [seqs captures].
  intros (m1 & g1 & (g0 & Hlead & ->) & m2 & g2 & (g3 & Hbody & ->) & (a & Ea & Ha & _) & ->).
  apply Ascii.eqb_eq in Ha. subst a.
  destruct Hbody as (n1 & h1 & Hhost & n2 & h2 & Hws1 & n3 & h3 & Hname
                     & n4 & h4 & [(ws2 & Ews2 & Hws2 & _) ->]
                     & n5 & h5 & [(b1 & Eb1 & Hb1 & _) ->]
                     & n6 & h6 & [(body & Ebody & _ & _) ->]
                     & n7 & h7 & [(b2 & Eb2 & Hb2 & _) ->]
                     & [(b3 & Eb3 & Hb3 & _) ->]).
  apply Ascii.eqb_eq in Hb1, Hb2, Hb3. subst b1 b2 b3.
  apply captures_lit in Hhost as [-> Ehost].
  apply captures_plus in Hws1 as [-> (ws1 & Nws1 & Hws1 & Ews1)].
  apply captures_lit in Hname as [-> Ename].
  assert (Etext : snd m1 = (txt"host" ++ ws1 ++ name ++ ws2 ++ "{" :: body ++ [nl; "}"; nl])
                           ++ snd c').
  { rewrite Ehost, Ews1, Ename, Ews2, Eb1, Ebody, Eb2, Eb3, Ea.
    repeat first [rewrite <- app_assoc | progress cbn [app]]. reflexivity. }
  assert (Egroup : snd m2 = nl :: snd c') by exact Ea.
  destruct Hlead as [(Hbol & -> & ->) | [(a & E & Ha & _) ->]].
  - exists [], ws1, ws2, body. cbn [app]. repeat split; auto.
    cbn [lookup_group Nat.eqb]. now rewrite Etext, Egroup.
  - apply Ascii.eqb_eq in Ha. subst a.
    exists [nl], ws1, ws2, body. cbn [app]. split; [now rewrite E, Etext|].
    repeat split; auto. cbn [lookup_group Nat.eqb]. now rewrite Etext, Egroup.
Qed.

Lemma find_reservation_block_span content name s e :
  find_reservation_block content name = (s, e) -> s <> (-1)%Z ->
  exists P ws1 ws2 body R,
    content = P ++ (txt"host" ++ ws1 ++ name ++ ws2 ++ "{" :: body ++ [nl; "}"; nl]) ++ R
    /\ s = Z.of_nat (length P)
    /\ e = Z.of_nat (length (P ++ txt"host" ++ ws1 ++ name ++ ws2
                               ++ "{" :: body ++ [nl; "}"; nl]))
    /\ (P = [] \/ exists P0, P = P0 ++ [nl])
    /\ ws1 <> [] /\ spaces ws1 = true /\ spaces ws2 = true.
Proof.
  unfold find_reservation_block, search.
  destruct (search_from (block_regex name) true content) as [x|] eqn:E.
  - intros H Hs. injection H as <- <-.
    apply search_from_sound in E as (u1 & u2 & c0 & -> & _ & Hm & _).
    unfold match_here in Hm. apply rmatch_captures in Hm as (c' & g' & L & K).
    injection K as <-.
    apply block_regex_captures in L
      as (lead & ws1 & ws2 & body & Etxt & Hlead & Nws1 & Hws1 & Hws2 & Hg).
    cbn [snd fst] in Etxt, Hlead. subst u2.
    exists (u1 ++ lead), ws1, ws2, body, (snd c').
    split; [apply app_assoc|]. split; [|split; [|split]].
    + unfold start_of. cbn [m_groups]. rewrite Hg. cbn [fst].
      rewrite !length_app. f_equal. lia.
    + unfold end_of. cbn [m_to]. rewrite !length_app. f_equal. lia.
    + destruct Hlead as [[-> Hb] | ->].
      * rewrite app_nil_r. now apply advance_true_iff.
      * right. now exists u1.
    + auto.
  - intros H Hs. injection H as <- _. contradiction.
Qed.

(** X20. Whatever the text, a span that [find_reservation_block] returns
    lies within the text, starts at the beginning of a line, and delimits a
    text of block shape for the name asked: [host], white space, the name,
    optional white space, an opening brace, and a last line holding only
    the closing brace, with its line terminator. *)
Theorem find_reservation_block_sound content name s e :
  find_reservation_block content name = (s, e) -> s <> (-1)%Z ->
  (0 <= s < e)%Z /\ (e <= Str.len content)%Z
  /\ (s = 0%Z \/ Str.index content (s - 1) = Some nl)
  /\ exists ws1 ws2 body,
       Str.slice content s e
       = txt"host" ++ ws1 ++ name ++ ws2 ++ "{" :: body ++ [nl; "}"; nl]
       /\ ws1 <> [] /\ spaces ws1 = true /\ spaces ws2 = true.
Proof.
  intros H Hs.
  destruct (find_reservation_block_span _ _ _ _ H Hs)
    as (P & ws1 & ws2 & body & R & -> & -> & -> & HP & Nws & Hws1 & Hws2).
  split; [|split; [|split]].
  - rewrite !length_app. cbn [length]. lia.
  - unfold Str.len. rewrite !length_app. cbn [length]. lia.
  - destruct HP as [-> | (P0 & ->)]; [now left|]. right. apply index_before.
  - exists ws1, ws2, body. split; [apply slice_at|auto].
Qed.

Lemma find_reservation_block_sound_witness :
  (0 <= 0 < 88)%Z /\ (88 <= Str.len demo_content)%Z
  /\ (0 = 0 \/ Str.index demo_content (0 - 1) = Some nl)%Z
  /\ exists ws1 ws2 body,
       Str.slice demo_content 0 88
       = txt"host" ++ ws1 ++ txt"a.example.com" ++ ws2 ++ "{" :: body ++ [nl; "}"; nl]
       /\ ws1 <> [] /\ spaces ws1 = true /\ spaces ws2 = true.
Proof.
  apply (find_reservation_block_sound demo_content (txt"a.example.com") 0 88).
  - vm_compute. reflexivity.
  - discriminate.
Defined.

(** X21. Whatever the text, when [remove_reservation] reports a change, what
    it deleted is one stretch of block shape for that host, beginning at a
    line start: the result is the text before the block followed by the text
    after it, and nothing else is altered. *)
Theorem remove_reservation_deletes_one_block content hostname domain t :
  remove_reservation content hostname domain = (t, true) ->
  exists P ws1 ws2 body R,
    content = P ++ (txt"host" ++ ws1 ++ make_fqdn hostname domain ++ ws2
                       ++ "{" :: body ++ [nl; "}"; nl]) ++ R
    /\ t = P ++ R
    /\ (P = [] \/ exists P0, P = P0 ++ [nl])
    /\ ws1 <> [] /\ spaces ws1 = true /\ spaces ws2 = true.
Proof.
  unfold remove_reservation. cbv zeta.
  destruct (find_reservation_block content (make_fqdn hostname domain)) as [s e] eqn:E.
  destruct (s =? -1)%Z eqn:Es; [discriminate|]. apply Z.eqb_neq in Es.
  intro H. injection H as <-.
  destruct (find_reservation_block_span _ _ _ _ E Es)
    as (P & ws1 & ws2 & body & R & -> & -> & -> & HP & Nws & Hws1 & Hws2).
  exists P, ws1, ws2, body, R. split; [reflexivity|]. split; [|auto].
  rewrite slice_to_at. f_equal. rewrite app_assoc. apply slice_from_at.
Qed.

Lemma remove_reservation_deletes_one_block_witness :
  exists P ws1 ws2 body R,
    demo_content = P ++ (txt"host" ++ ws1 ++ make_fqdn (txt"a") (Some (txt"example.com"))
                            ++ ws2 ++ "{" :: body ++ [nl; "}"; nl]) ++ R
    /\ [] = P ++ R
    /\ (P = [] \/ exists P0, P = P0 ++ [nl])
    /\ ws1 <> [] /\ spaces ws1 = true /\ spaces ws2 = true.
Proof.
  apply (remove_reservation_deletes_one_block demo_content (txt"a")
                                              (Some (txt"example.com")) []).
  vm_compute. reflexivity.
Defined.

(** *** Errors and confirmations *)

Lemma remove_reservation_unchanged content hostname domain t :
  remove_reservation content hostname domain = (t, false) -> t = content.
Proof.
  unfold remove_reservation. cbv zeta.
  destruct (find_reservation_block content (make_fqdn hostname domain)) as [s e].
  destruct (s =? -1)%Z; [|discriminate]. intro H. now injection H as <-.
Qed.

(** X22. An error never comes with a modified text: whenever
    [add_reservation] returns an error message, the text it returns is the
    text it was given and the change flag is false. *)
Theorem add_reservation_error_keeps_text
        content hostname mac ip domain interactive stdin t ch err stdin' :
  add_reservation content hostname mac ip domain interactive stdin
  = ((t, ch, Some err), stdin') ->
  t = content /\ ch = false.
Proof.
  unfold add_reservation. cbv zeta.
  assert (Happly : forall c x y z, apply_reservation c hostname mac ip domain
                                   <> (x, y, Some z)).
  { intros c x y z. unfold apply_reservation. cbv zeta.
    destruct (find_reservation_block c (make_fqdn hostname domain)) as [s e].
    destruct (negb (s =? -1)%Z); discriminate. }
  destruct (find_reservation_by_mac content mac) as [[[n m] i]|].
  - destruct (Str.eqb n (make_fqdn hostname domain) && Str.eqb i ip)%bool; [discriminate|].
    destruct (Str.eqb n (make_fqdn hostname domain)).
    + intro H. injection H as H _. now apply Happly in H.
    + destruct interactive.
      * destruct (get_user_confirmation stdin) as [yes rest].
        destruct yes; cbn [negb].
        -- destruct (remove_reservation content (first_label n) domain) as [c' removed] eqn:Er.
           destruct removed; cbn [negb].
           ++ intro H. injection H as H _. now apply Happly in H.
           ++ intro H. injection H as <- <- _ _.
              split; [now apply remove_reservation_unchanged in Er|reflexivity].
        -- intro H. injection H as <- <- _ _. auto.
      * intro H. injection H as <- <- _ _. auto.
  - intro H. injection H as H _. now apply Happly in H.
Qed.

Lemma add_reservation_error_keeps_text_witness :
  demo_content = demo_content /\ false = false.
Proof.
  apply (add_reservation_error_keeps_text
           demo_content (txt"c") (txt"aa:bb:cc:dd:ee:01") (txt"10.0.0.3")
           (Some (txt"example.com")) false [] demo_content false
           (txt"Conflict: MAC aa:bb:cc:dd:ee:01 is already used by a.example.com. Run in interactive mode to resolve conflicts.") []).
  vm_compute. reflexivity.
Defined.

Lemma get_user_confirmation_no_yes stdin :
  (forall l, In l stdin -> Str.lower (Str.strip l) <> txt"yes"
                           /\ Str.lower (Str.strip l) <> txt"y") ->
  fst (get_user_confirmation stdin) = false.
Proof.
  induction stdin as [|line rest IH]; intro H; [reflexivity|].
  cbn [get_user_confirmation]. cbv zeta.
  destruct (H line (or_introl eq_refl)) as [H1 H2].
  apply str_eqb_neq in H1, H2. rewrite H1, H2. cbn [orb].
  destruct (Str.eqb _ (txt"no") || Str.eqb _ (txt"n"))%bool; [reflexivity|].
  apply IH. intros l Hl. apply H. now right.
Qed.

(** X23. A conflicting reservation is only ever overwritten on an explicit
    yes: in interactive mode, when the MAC is held by another host and no
    line waiting on the terminal reads [yes] or [y] (letter case and
    surrounding white space set aside), and also when the terminal is at its
    end, the text is returned unchanged with the refusal as the error. *)
Theorem add_reservation_needs_yes content hostname mac ip domain stdin n m i :
  find_reservation_by_mac content mac = Some (n, m, i) ->
  n <> make_fqdn hostname domain ->
  (forall l, In l stdin -> Str.lower (Str.strip l) <> txt"yes"
                           /\ Str.lower (Str.strip l) <> txt"y") ->
  fst (add_reservation content hostname mac ip domain true stdin)
  = (content, false, Some (txt"User declined to overwrite conflicting reservation")).
Proof.
  intros Hf Hn Hno. unfold add_reservation. cbv zeta. rewrite Hf.
  apply str_eqb_neq in Hn. rewrite Hn. cbn [andb].
  pose proof (get_user_confirmation_no_yes stdin Hno) as Hc.
  destruct (get_user_confirmation stdin) as [yes rest]. cbn [fst] in Hc. subst yes.
  reflexivity.
Qed.

Lemma add_reservation_needs_yes_witness :
  fst (add_reservation demo_content (txt"c") (txt"aa:bb:cc:dd:ee:01") (txt"10.0.0.3")
                       (Some (txt"example.com")) true [txt"maybe"; txt" No "])
  = (demo_content, false, Some (txt"User declined to overwrite conflicting reservation")).
Proof.
  apply (add_reservation_needs_yes demo_content (txt"c") (txt"aa:bb:cc:dd:ee:01")
           (txt"10.0.0.3") (Some (txt"example.com")) [txt"maybe"; txt" No "]
           (txt"a.example.com") (txt"aa:bb:cc:dd:ee:01") (txt"10.0.0.1")).
  - vm_compute. reflexivity.
  - vm_compute. discriminate.
  - intros l [<- | [<- | []]]; split; vm_compute; discriminate.
Defined.

(** *** Adding to any text *)

(** X24. Whatever the text, when the MAC is not yet listed, [add_reservation]
    does one of two things and never fails: if the lookup by name finds
    nothing, the result is the text, one newline if the text is not empty
    and does not end with one, and the new block; otherwise the block found
    is replaced by the new block, the text before and after it is kept, no
    newline is ever inserted in front (the span always starts a line), and
    the change flag tells whether the old block differed. *)
Theorem add_reservation_new_mac content hostname mac ip domain interactive stdin :
  find_reservation_by_mac content mac = None ->
  let block := build_reservation_block hostname mac ip domain in
  (fst (find_reservation_block content (make_fqdn hostname domain)) = (-1)%Z
   /\ add_reservation content hostname mac ip domain interactive stdin
      = ((content
          ++ (if (Str.truthy content && negb (Str.endswith content [nl]))%bool
              then [nl] else [])
          ++ block, true, None), stdin))
  \/ (exists P ws1 ws2 body R,
        content = P ++ (txt"host" ++ ws1 ++ make_fqdn hostname domain ++ ws2
                           ++ "{" :: body ++ [nl; "}"; nl]) ++ R
        /\ (P = [] \/ exists P0, P = P0 ++ [nl])
        /\ add_reservation content hostname mac ip domain interactive stdin
           = ((P ++ block ++ R,
               negb (Str.eqb block (txt"host" ++ ws1 ++ make_fqdn hostname domain ++ ws2
                                       ++ "{" :: body ++ [nl; "}"; nl])),
               None), stdin)).
Proof.
  intro Hf. cbv zeta. unfold add_reservation. cbv zeta. rewrite Hf.
  destruct (find_reservation_block content (make_fqdn hostname domain)) as [s e] eqn:E.
  destruct (s =? -1)%Z eqn:Es.
  - left. apply Z.eqb_eq in Es. subst s. split; [reflexivity|].
    unfold apply_reservation. cbv zeta. rewrite E.
    change (negb (-1 =? -1)%Z) with false. cbv iota.
    destruct (Str.truthy content && negb (Str.endswith content [nl]))%bool;
      [now rewrite <- app_assoc | reflexivity].
  - right. apply Z.eqb_neq in Es.
    destruct (find_reservation_block_span _ _ _ _ E Es)
      as (P & ws1 & ws2 & body & R & -> & -> & -> & HP & _).
    exists P, ws1, ws2, body, R. split; [reflexivity|]. split; [exact HP|].
    now rewrite (apply_reservation_at _ _ _ hostname mac ip domain E HP).
Qed.

Lemma add_reservation_new_mac_witness :
  let block := build_reservation_block (txt"b") (txt"aa:bb:cc:dd:ee:02") (txt"10.0.0.2")
                                       (Some (txt"example.com")) in
  (fst (find_reservation_block (txt"# no final newline")
                               (make_fqdn (txt"b") (Some (txt"example.com")))) = (-1)%Z
   /\ add_reservation (txt"# no final newline") (txt"b") (txt"aa:bb:cc:dd:ee:02")
                      (txt"10.0.0.2") (Some (txt"example.com")) false []
      = ((txt"# no final newline"
          ++ (if (Str.truthy (txt"# no final newline")
                  && negb (Str.endswith (txt"# no final newline") [nl]))%bool
              then [nl] else [])
          ++ block, true, None), []))
  \/ (exists P ws1 ws2 body R,
        txt"# no final newline"
        = P ++ (txt"host" ++ ws1 ++ make_fqdn (txt"b") (Some (txt"example.com")) ++ ws2
                   ++ "{" :: body ++ [nl; "}"; nl]) ++ R
        /\ (P = [] \/ exists P0, P = P0 ++ [nl])
        /\ add_reservation (txt"# no final newline") (txt"b") (txt"aa:bb:cc:dd:ee:02")
                           (txt"10.0.0.2") (Some (txt"example.com")) false []
           = ((P ++ block ++ R,
               negb (Str.eqb block (txt"host" ++ ws1
                                       ++ make_fqdn (txt"b") (Some (txt"example.com"))
                                       ++ ws2 ++ "{" :: body ++ [nl; "}"; nl])),
               None), [])).
Proof.
  apply (add_reservation_new_mac (txt"# no final newline") (txt"b")
           (txt"aa:bb:cc:dd:ee:02") (txt"10.0.0.2") (Some (txt"example.com")) false []).
  vm_compute. reflexivity.
Defined.

(** *** The first block that holds a MAC *)

Lemma first_with_mac_doc gap l a m ip1 post nm items : forall bol,
  Forall (fun it => wf_item it = true) items ->
  (forall it, In it items -> Str.lower (mac_of (it_res it)) <> nm) ->
  has_host_kw gap = false -> wf_layout l = true -> readable (a, m, ip1) = true ->
  Str.lower m = nm ->
  first_with_mac
    (finditer_from reservation_regex bol
                   (render_doc items (gap ++ block_hw_first l a m ip1 ++ post)) 0) nm
  = Some (a, nm, ip1).
Proof.
  induction items as [|it items IH]; intros bol Hwf Hother Hgap Hl Hr Hm.
  - unfold render_doc. cbn [map concat app].
    destruct (readable_fields _ Hr) as (Nn & Hn & Nm & Hmc & Ni & Hi).
    unfold name_of, mac_of, ip_of in *. cbn [fst snd] in *.
    rewrite (finditer_quiet_gap _ _ _ _ _ _ _ Hgap).
    destruct (reservation_regex_block l a m ip1 (advance bol gap) post
                Hl Nn Hn Nm Hmc Ni Hi) as (x & Hx & G1 & G2 & G3 & Hto).
    rewrite (finditer_from_hit _ _ _ _ _ (block_hw_first_nonempty _ _ _ _) Hx Hto).
    cbn [first_with_mac]. cbv zeta. rewrite G1, G2, G3, Hm. now rewrite str_eqb_refl.
  - inversion Hwf as [|? ? Hit Hwf']. subst.
    destruct (wf_item_fields _ Hit) as (Hg & Hli & Hri).
    destruct (readable_fields _ Hri) as (Nn & Hn & Nm & Hmc & Ni & Hi).
    rewrite render_doc_cons, (finditer_quiet_gap _ _ _ _ _ _ _ Hg).
    destruct (reservation_regex_block (it_layout it) _ _ _ (advance bol (it_gap it))
                (render_doc items (gap ++ block_hw_first l a m ip1 ++ post))
                Hli Nn Hn Nm Hmc Ni Hi) as (x & Hx & G1 & G2 & G3 & Hto).
    rewrite (finditer_from_hit _ _ _ _ _ (block_hw_first_nonempty _ _ _ _) Hx Hto).
    cbn [first_with_mac]. cbv zeta. rewrite G2.
    assert (E : Str.eqb (Str.lower (mac_of (it_res it))) (Str.lower m) = false).
    { apply str_eqb_neq. apply Hother. now left. }
    rewrite E. apply IH; auto. intros it' Hin. apply Hother. now right.
Qed.

(** X26. In a text that begins with blocks having the hardware statement
    first (any white-space layout, keyword-free text between them), when
    the first block holding the MAC asked for names another host, the add
    in non-interactive mode returns the conflict error naming that host and
    the text unchanged, whatever follows that block in the text. *)
Theorem add_reservation_conflict_first_binding
        items gap l a m ip1 post hostname mac ip2 domain stdin :
  Forall (fun it => wf_item it = true) items ->
  (forall it, In it items -> Str.lower (mac_of (it_res it)) <> Str.lower m) ->
  has_host_kw gap = false -> wf_layout l = true -> readable (a, m, ip1) = true ->
  normalize_mac mac = Some (Str.lower m) ->
  make_fqdn hostname domain <> a ->
  let content := render_doc items (gap ++ block_hw_first l a m ip1 ++ post) in
  add_reservation content hostname mac ip2 domain false stdin
  = ((content, false,
      Some (txt"Conflict: MAC " ++ mac ++ txt" is already used by " ++ a
            ++ txt". Run in interactive mode to resolve conflicts.")), stdin).
Proof.
  intros Hwf Hother Hgap Hl Hr Hn Hne. cbv zeta.
  unfold add_reservation, find_reservation_by_mac, finditer. cbv zeta. rewrite Hn.
  rewrite (first_with_mac_doc gap l a m ip1 post (Str.lower m) items true
             Hwf Hother Hgap Hl Hr eq_refl).
  assert (E : Str.eqb a (make_fqdn hostname domain) = false)
    by (apply str_eqb_neq; congruence).
  rewrite E. reflexivity.
Qed.

Lemma add_reservation_conflict_first_binding_witness :
  let first := MkItem (txt"# lab machines" ++ [nl]) canonical
                      (txt"c.example.com", txt"aa:bb:cc:dd:ee:00", txt"10.0.0.9") in
  let content := render_doc [first]
                   ([nl] ++ block_hw_first canonical (txt"a.example.com")
                                           (txt"AA:BB:CC:DD:EE:FF") (txt"10.0.0.1")
                        ++ [nl] ++ txt"host b.example.com { unfinished") in
  add_reservation content (txt"b") (txt"aa-bb-cc-dd-ee-ff") (txt"10.0.0.2")
                  (Some (txt"example.com")) false []
  = ((content, false,
      Some (txt"Conflict: MAC " ++ txt"aa-bb-cc-dd-ee-ff" ++ txt" is already used by "
            ++ txt"a.example.com"
            ++ txt". Run in interactive mode to resolve conflicts.")), []).
Proof.
  cbv zeta.
  apply (add_reservation_conflict_first_binding
           [MkItem (txt"# lab machines" ++ [nl]) canonical
                   (txt"c.example.com", txt"aa:bb:cc:dd:ee:00", txt"10.0.0.9")]
           [nl] canonical (txt"a.example.com") (txt"AA:BB:CC:DD:EE:FF") (txt"10.0.0.1")
           ([nl] ++ txt"host b.example.com { unfinished")
           (txt"b") (txt"aa-bb-cc-dd-ee-ff") (txt"10.0.0.2") (Some (txt"example.com")) []).
  - repeat constructor.
  - intros it [<- | []]. vm_compute. discriminate.
  - reflexivity.
  - reflexivity.
  - reflexivity.
  - vm_compute. reflexivity.
  - vm_compute. discriminate.
Defined.

(** *** Adding the same record twice *)




